(** * Temporal Collapse: the countdown choreography engine

    A shallow embedding of the TypeScript sources of the New Year's countdown
    visualisation (easing curves, smoothing, countdown state machine, burst
    and firework particle systems, scene orchestrator) together with the
    properties its specification states about them.

    Numbers.  A JavaScript [number] is an IEEE-754 binary64 value.  Two
    models are used side by side:
    - the _real_ model ([R]): every arithmetic operation is the exact one;
      an operation whose JavaScript result is [NaN] or an infinity has no
      real value and is modelled by [None];
    - the _binary64_ model (module [Binary64], primitive floats): used where
      a property is about bit-exact results.
    The particle buffers are [Float32Array]s: a store narrows the value to
    float32 ([Math_fround]), and what is read back is the narrowed value. *)

From Stdlib Require Import Reals Lra Lia ZArith Floats.
From stdpp Require Import base list gmap.

Set Warnings "-inexact-float,-clear-no-such-hyp".
Open Scope R_scope.

(** Comparisons of real numbers are decided classically. *)
#[global] Instance Rle_decision : RelDecision Rle := Rle_dec.
#[global] Instance Rlt_decision : RelDecision Rlt := Rlt_dec.
#[global] Instance Rge_decision : RelDecision Rge := Rge_dec.
#[global] Instance Rgt_decision : RelDecision Rgt := Rgt_dec.
#[global] Instance Req_decision : EqDecision R := Req_dec_T.

(** Partial numeric results live in the [option] monad ([x ← c; k]):
    [None] is a result outside the reals. *)

(* ===================================================================== *)
(** ** The [Math] object, real model *)
(* ===================================================================== *)
Module JsMath.

Definition Math_max (a b : R) : R := Rmax a b.
Definition Math_min (a b : R) : R := Rmin a b.

(** [Math.floor]: the largest integer below or equal to [x]. *)
Definition Math_floor (x : R) : Z := Int_part x.

(** Truncation toward zero, as used by the [%] operator. *)
Definition trunc (x : R) : Z :=
  if decide (0 <= x) then Int_part x else (- Int_part (- x))%Z.

(** [a % n] on numbers, for a divisor [n] other than zero: the remainder
    has the sign of the dividend. *)
Definition js_rem (a n : R) : R := a - n * IZR (trunc (a / n)).

(** [Math.pow(b, e)] following Number::exponentiate.
    - exponent [0]: [1] for every base;
    - positive base: the real power;
    - base [0]: [0] for a positive exponent, [Infinity] otherwise;
    - negative base: the signed power for an integral exponent, [NaN]
      otherwise. *)
Definition Math_pow (b e : R) : option R :=
  if decide (e = 0) then Some 1
  else if decide (0 < b) then Some (Rpower b e)
  else if decide (b = 0) then (if decide (0 < e) then Some 0 else None)
  else if decide (e = IZR (Int_part e)) then
    Some (if Z.even (Int_part e) then Rpower (- b) e else - Rpower (- b) e)
  else None.

Definition Math_sin (x : R) : R := sin x.
Definition Math_PI : R := PI.

(** Rounding to the nearest integer, ties to the even one. *)
Definition round_half_even (x : R) : Z :=
  let n := Int_part x in
  let f := x - IZR n in
  if decide (f < 1 / 2) then n
  else if decide (1 / 2 < f) then (n + 1)%Z
  else if Z.even n then n else (n + 1)%Z.

(** The float32 nearest to a positive [x]: 24 significant bits, so the
    spacing in the binade [2^e, 2^(e+1)) is [2^(e-23)]; the exponent does
    not go below -126, where the spacing stays [2^-149]. *)
Definition fround_pos (x : R) : R :=
  let e := Z.max (Int_part (ln x / ln 2)) (-126) in
  let ulp := powerRZ 2 (e - 23) in
  IZR (round_half_even (x / ulp)) * ulp.

(** [Math.fround(x)]: the float32 nearest to [x], ties to even; it is the
    narrowing a store into a [Float32Array] applies.  (A magnitude of
    [2^128 - 2^103] or more is narrowed to an infinity, which is not a real
    number; the properties below that depend on a stored value bound it.) *)
Definition Math_fround (x : R) : R :=
  if decide (x = 0) then 0
  else if decide (0 < x) then fround_pos x
  else - fround_pos (- x).

(** The finite values of float32: 24-bit significands at the exponents of
    the format. *)
Definition float32 (x : R) : Prop :=
  ∃ m k : Z, x = IZR m * powerRZ 2 k ∧ (Z.abs m < 2 ^ 24)%Z ∧ (-149 <= k <= 104)%Z.


End JsMath.
Import JsMath.

(* ===================================================================== *)
(** ** src/utils/math.ts *)
(* ===================================================================== *)
Module MathUtils.

(** [smoothLerp(current, target, speed, dt)]. *)
Definition smoothLerp (current target speed dt : R) : option R :=
  p ← Math_pow (1 - speed) (dt * 60);
  let factor := 1 - p in
  Some (current + (target - current) * factor).

Definition clamp (value min max : R) : R := Math_max min (Math_min max value).

Definition lerp (a b t : R) : R := a + (b - a) * t.

End MathUtils.
Import MathUtils.

(* ===================================================================== *)
(** ** src/utils/easing.ts, real model *)
(* ===================================================================== *)
Module Ease.

Definition linear (t : R) : R := t.
Definition inQuad (t : R) : R := t * t.
Definition outQuad (t : R) : R := t * (2 - t).
Definition inOutQuad (t : R) : R :=
  if decide (t < 0.5) then 2 * t * t else -1 + (4 - 2 * t) * t.
Definition inCubic (t : R) : R := t * t * t.

(** [(--t) * t * t + 1]: [t] is decremented first. *)
Definition outCubic (t : R) : R := let t := t - 1 in t * t * t + 1.

Definition inOutCubic (t : R) : R :=
  if decide (t < 0.5) then 4 * t * t * t
  else (t - 1) * (2 * t - 2) * (2 * t - 2) + 1.

Definition outExpo (t : R) : option R :=
  if decide (t = 1) then Some 1
  else p ← Math_pow 2 (-10 * t); Some (1 - p).

Definition inExpo (t : R) : option R :=
  if decide (t = 0) then Some 0 else Math_pow 2 (10 * (t - 1)).

Definition outBack (t : R) : option R :=
  let c1 := 1.70158 in
  let c3 := c1 + 1 in
  p3 ← Math_pow (t - 1) 3;
  p2 ← Math_pow (t - 1) 2;
  Some (1 + c3 * p3 + c1 * p2).

Definition elastic (t : R) : option R :=
  if decide (t = 0) then Some 0
  else if decide (t = 1) then Some 1
  else p ← Math_pow 2 (10 * t - 10);
       Some (- p * Math_sin ((t * 10 - 10.75) * ((2 * Math_PI) / 3))).

Definition dramaticRamp (t : R) : option R :=
  if decide (t < 0.83) then Some (t / 0.83 * 0.3)
  else
    let normalized := (t - 0.83) / 0.17 in
    p ← Math_pow normalized 2.5; Some (0.3 + p * 0.7).

Definition finalCountdown (t : R) : option R :=
  if decide (t < 0.98) then dramaticRamp t
  else
    let normalized := (t - 0.98) / 0.02 in
    p ← Math_pow normalized 1.5; Some (0.9 + p * 0.1).

(** The keys of the [ease] object. *)
Inductive Key :=
| Klinear | KinQuad | KoutQuad | KinOutQuad | KinCubic | KoutCubic
| KinOutCubic | KoutExpo | KinExpo | KoutBack | Kelastic | KdramaticRamp
| KfinalCountdown.

Definition keys : list Key :=
  [Klinear; KinQuad; KoutQuad; KinOutQuad; KinCubic; KoutCubic; KinOutCubic;
   KoutExpo; KinExpo; KoutBack; Kelastic; KdramaticRamp; KfinalCountdown].

(** [ease[k](t)]. *)
Definition ease (k : Key) (t : R) : option R :=
  match k with
  | Klinear => Some (linear t)
  | KinQuad => Some (inQuad t)
  | KoutQuad => Some (outQuad t)
  | KinOutQuad => Some (inOutQuad t)
  | KinCubic => Some (inCubic t)
  | KoutCubic => Some (outCubic t)
  | KinOutCubic => Some (inOutCubic t)
  | KoutExpo => outExpo t
  | KinExpo => inExpo t
  | KoutBack => outBack t
  | Kelastic => elastic t
  | KdramaticRamp => dramaticRamp t
  | KfinalCountdown => finalCountdown t
  end.

End Ease.

(* ===================================================================== *)
(** ** src/constants/phases.ts and src/hooks/useCountdown.ts *)
(* ===================================================================== *)
Module Countdown.

Inductive Phase :=
| dormant | calm | building | intense | final | climax | celebration.

#[global] Instance Phase_eq_dec : EqDecision Phase.
Proof. solve_decision. Defined.

(** Position in the ordering dormant < calm < ... < celebration. *)
Definition phase_rank (p : Phase) : nat :=
  match p with
  | dormant => 0 | calm => 1 | building => 2 | intense => 3
  | final => 4 | climax => 5 | celebration => 6
  end.

Record PhaseThresholds := {
  th_calm : R; th_building : R; th_intense : R; th_final : R;
  th_climax : R; th_celebrationDelay : R }.

Definition PHASE_THRESHOLDS : PhaseThresholds := {|
  th_calm := 60 * 60 * 1000;
  th_building := 10 * 60 * 1000;
  th_intense := 60 * 1000;
  th_final := 10 * 1000;
  th_climax := 0;
  th_celebrationDelay := 6000 |}.

Definition calculatePhase (remaining : R) : Phase :=
  if decide (remaining <= - th_celebrationDelay PHASE_THRESHOLDS) then celebration
  else if decide (remaining <= 0) then climax
  else if decide (remaining <= th_final PHASE_THRESHOLDS) then final
  else if decide (remaining <= th_intense PHASE_THRESHOLDS) then intense
  else if decide (remaining <= th_building PHASE_THRESHOLDS) then building
  else if decide (remaining <= th_calm PHASE_THRESHOLDS) then calm
  else dormant.

Record TimeDisplay := {
  hours : Z; minutes : Z; seconds : Z; milliseconds : R }.

Definition formatTimeDisplay (remaining : R) : TimeDisplay :=
  let totalSeconds := Z.max 0 (Math_floor (remaining / 1000)) in
  {| hours := totalSeconds / 3600;
     minutes := (totalSeconds mod 3600) / 60;
     seconds := totalSeconds mod 60;
     milliseconds := Math_max 0 (js_rem remaining 1000) |}.

Record CountdownState := {
  timeRemaining : R;
  progress : R;
  phase : Phase;
  display : TimeDisplay;
  isPast : bool }.

(** [calculateState(targetDate)]; [now] is the value [Date.now()] returns. *)
Definition calculateState (targetDate now : R) : CountdownState :=
  let remaining := targetDate - now in
  let totalDuration := 60 * 60 * 1000 in
  let progress := Math_max 0 (Math_min 1 (1 - remaining / totalDuration)) in
  {| timeRemaining := remaining;
     progress := progress;
     phase := calculatePhase remaining;
     display := formatTimeDisplay remaining;
     isPast := bool_decide (remaining <= 0) |}.

End Countdown.

(* ===================================================================== *)
(** ** src/utils/easing.ts and src/utils/math.ts, binary64 model *)
(* ===================================================================== *)
Module Binary64.
Local Open Scope float_scope.

(** The integer a float denotes, when it denotes one. *)
Definition to_integer (x : float) : option Z :=
  match Prim2SF x with
  | S754_zero _ => Some 0%Z
  | S754_finite s m e =>
      let magnitude :=
        if (0 <=? e)%Z then Some (Z.pos m * 2 ^ e)%Z
        else if (Z.pos m mod 2 ^ (- e) =? 0)%Z then Some (Z.pos m / 2 ^ (- e))%Z
        else None in
      (fun z => if s then (- z)%Z else z) <$> magnitude
  | _ => None
  end.

Definition is_integer (x : float) : bool :=
  match to_integer x with Some _ => true | None => false end.

Definition is_odd_integer (x : float) : bool :=
  match to_integer x with Some z => Z.odd z | None => false end.

(** [Math.pow(b, e)] on doubles.  The cases Number::exponentiate fixes are
    answered as it fixes them.  Beyond them the result is
    implementation-approximated; the model answers where the mathematical
    power is [1] or [-1] (base [1], and base [-1] with an integral
    exponent), which is representable and what every engine returns, and
    leaves the rest undetermined ([None]). *)
Definition Math_pow (b e : float) : option float :=
  if is_nan e then Some nan
  else if is_zero e then Some 1
  else if is_nan b then Some nan
  else if b =? infinity then Some (if 0 <? e then infinity else zero)
  else if b =? neg_infinity then
    Some (if 0 <? e
          then (if is_odd_integer e then neg_infinity else infinity)
          else (if is_odd_integer e then neg_zero else zero))
  else if is_zero b then
    if get_sign b
    then Some (if 0 <? e
               then (if is_odd_integer e then neg_zero else zero)
               else (if is_odd_integer e then neg_infinity else infinity))
    else Some (if 0 <? e then zero else infinity)
  else if e =? infinity then
    Some (if 1 <? abs b then infinity else if abs b =? 1 then nan else zero)
  else if e =? neg_infinity then
    Some (if 1 <? abs b then zero else if abs b =? 1 then nan else infinity)
  else if (b <? 0) && negb (is_integer e) then Some nan
  else if b =? 1 then Some 1
  else if b =? -1 then Some (if is_odd_integer e then -1 else 1)
  else None.

(** [Math.sin] is implementation-approximated away from its fixed cases. *)
Definition Math_sin (x : float) : option float :=
  if is_nan x || is_infinity x then Some nan
  else if is_zero x then Some x
  else None.

(** [Math.PI], the double nearest to pi. *)
Definition Math_PI : float := 0x1.921fb54442d18p+1.

(** [smoothLerp(current, target, speed, dt)] on doubles. *)
Definition smoothLerp (current target speed dt : float) : option float :=
  p ← Math_pow (1 - speed) (dt * 60);
  let factor := 1 - p in
  Some (current + (target - current) * factor).

Definition linear (t : float) : float := t.
Definition inQuad (t : float) : float := t * t.
Definition outQuad (t : float) : float := t * (2 - t).
Definition inOutQuad (t : float) : float :=
  if t <? 0.5 then 2 * t * t else -1 + (4 - 2 * t) * t.
Definition inCubic (t : float) : float := t * t * t.
Definition outCubic (t : float) : float := let t := t - 1 in t * t * t + 1.
Definition inOutCubic (t : float) : float :=
  if t <? 0.5 then 4 * t * t * t
  else (t - 1) * (2 * t - 2) * (2 * t - 2) + 1.

Definition outExpo (t : float) : option float :=
  if t =? 1 then Some 1
  else p ← Math_pow 2 (-10 * t); Some (1 - p).

Definition inExpo (t : float) : option float :=
  if t =? 0 then Some 0 else Math_pow 2 (10 * (t - 1)).

Definition outBack (t : float) : option float :=
  let c1 := 1.70158 in
  let c3 := c1 + 1 in
  p3 ← Math_pow (t - 1) 3;
  p2 ← Math_pow (t - 1) 2;
  Some (1 + c3 * p3 + c1 * p2).

Definition elastic (t : float) : option float :=
  if t =? 0 then Some 0
  else if t =? 1 then Some 1
  else p ← Math_pow 2 (10 * t - 10);
       s ← Math_sin ((t * 10 - 10.75) * ((2 * Math_PI) / 3));
       Some (- p * s).

Definition dramaticRamp (t : float) : option float :=
  if t <? 0.83 then Some (t / 0.83 * 0.3)
  else
    let normalized := (t - 0.83) / 0.17 in
    p ← Math_pow normalized 2.5; Some (0.3 + p * 0.7).

Definition finalCountdown (t : float) : option float :=
  if t <? 0.98 then dramaticRamp t
  else
    let normalized := (t - 0.98) / 0.02 in
    p ← Math_pow normalized 1.5; Some (0.9 + p * 0.1).

(** [ease[k](t)] on doubles. *)
Definition ease (k : Ease.Key) (t : float) : option float :=
  match k with
  | Ease.Klinear => Some (linear t)
  | Ease.KinQuad => Some (inQuad t)
  | Ease.KoutQuad => Some (outQuad t)
  | Ease.KinOutQuad => Some (inOutQuad t)
  | Ease.KinCubic => Some (inCubic t)
  | Ease.KoutCubic => Some (outCubic t)
  | Ease.KinOutCubic => Some (inOutCubic t)
  | Ease.KoutExpo => outExpo t
  | Ease.KinExpo => inExpo t
  | Ease.KoutBack => outBack t
  | Ease.Kelastic => elastic t
  | Ease.KdramaticRamp => dramaticRamp t
  | Ease.KfinalCountdown => finalCountdown t
  end.

End Binary64.


(* ===================================================================== *)
(** ** The parts of three.js the particle systems rely on *)
(* ===================================================================== *)
Module Three.

(** Identity of a renderable object ([THREE.Points], [THREE.Mesh]); its
    geometry and its material are owned by it and named after it. *)
Definition ObjId := nat.

(** The [THREE.Scene] every system holds a reference to: one shared store.
    [children] are the attached objects (three.js keeps an object attached
    at most once); the two other sets record [dispose()] calls. *)
Record Scene := mkScene {
  children : gset ObjId;
  disposedGeometries : gset ObjId;
  disposedMaterials : gset ObjId;
  nextId : ObjId }.

Definition empty : Scene := mkScene ∅ ∅ ∅ 0%nat.

(** [new THREE.Points(...)]: a fresh object. *)
Definition alloc (s : Scene) : ObjId * Scene :=
  (nextId s,
   mkScene (children s) (disposedGeometries s) (disposedMaterials s) (S (nextId s))).

Definition add (o : ObjId) (s : Scene) : Scene :=
  mkScene ({[o]} ∪ children s) (disposedGeometries s) (disposedMaterials s) (nextId s).

Definition remove (o : ObjId) (s : Scene) : Scene :=
  mkScene (children s ∖ {[o]}) (disposedGeometries s) (disposedMaterials s) (nextId s).

Definition dispose_geometry (o : ObjId) (s : Scene) : Scene :=
  mkScene (children s) ({[o]} ∪ disposedGeometries s) (disposedMaterials s) (nextId s).

Definition dispose_material (o : ObjId) (s : Scene) : Scene :=
  mkScene (children s) (disposedGeometries s) ({[o]} ∪ disposedMaterials s) (nextId s).

Definition clear (s : Scene) : Scene :=
  mkScene ∅ (disposedGeometries s) (disposedMaterials s) (nextId s).

(** [new Float32Array(n)] is filled with zeros. *)
Definition Float32Array_new (n : nat) : list R := replicate n 0.

(** A typed-array read.  Every read below is within the bounds of the
    buffer the constructors allocate (an out-of-bounds read is [undefined]
    in JavaScript). *)
Definition get (a : list R) (i : nat) : R := default 0 (a !! i).

(** A typed-array write [a[i] = x] on a [Float32Array]: the value is
    narrowed to float32; an out-of-bounds write is ignored, as [<[i:=x]>]
    does. *)
Definition store (a : list R) (i : nat) (x : R) : list R :=
  <[i := Math_fround x]> a.

End Three.

(* ===================================================================== *)
(** ** src/scene/systems/BurstSystem.ts *)
(* ===================================================================== *)
Module BurstSystem.

Record BurstLayerConfig := mkConfig {
  count : nat; color : Z; size : R; speed : R }.

Record BurstLayer := mkLayer {
  points : Three.ObjId;
  visible : bool;                 (* points.visible *)
  attrPositions : list R;         (* the geometry's position attribute *)
  needsUpdate : bool;             (* its needsUpdate flag *)
  opacity : R;                    (* points.material.opacity *)
  velocities : list R;
  lifetimes : list R;
  positions : list R;
  startTime : option R;
  delay : R;
  config : BurstLayerConfig }.

Record t := mkSystem { layers : list BurstLayer }.

Definition GRAVITY : R := -9.8.
Definition FADE_DURATION : R := 5.0.

(** Colours of [COLORS.glow] used by the layers. *)
Definition glow_gold : Z := 0xFFD700.
Definition glow_magenta : Z := 0xFF00FF.
Definition glow_cyan : Z := 0x00F5FF.
Definition glow_white : Z := 0xFFFFFF.
Definition glow_orange : Z := 0xFF6B35.

Definition layerConfigs : list BurstLayerConfig :=
  [ mkConfig 3000 glow_gold 0.35 1.0;
    mkConfig 2000 glow_magenta 0.3 0.85;
    mkConfig 2000 glow_cyan 0.3 1.15;
    mkConfig 1500 glow_white 0.4 0.7;
    mkConfig 1000 glow_orange 0.25 1.3 ].

(** One iteration of the particle loop of [createLayer].  [rand] is the
    sequence of values [Math.random()] returns; a particle draws four. *)
Definition initParticle (speed : R) (rand : nat → R) (base : nat)
    (bufs : list R * list R * list R) (i : nat) : list R * list R * list R :=
  let '(positions, velocities, lifetimes) := bufs in
  let i3 := (i * 3)%nat in
  let positions := Three.store positions i3 0 in
  let positions := Three.store positions (i3 + 1)%nat 0 in
  let positions := Three.store positions (i3 + 2)%nat 0 in
  let theta := rand (base + 4 * i)%nat * Math_PI * 2 in
  let phi := acos (2 * rand (base + 4 * i + 1)%nat - 1) in
  let velocityMagnitude := (0.5 + rand (base + 4 * i + 2)%nat * 0.5) * speed * 30 in
  let velocities := Three.store velocities i3 (sin phi * cos theta * velocityMagnitude) in
  let velocities :=
    Three.store velocities (i3 + 1)%nat (sin phi * sin theta * velocityMagnitude) in
  let velocities := Three.store velocities (i3 + 2)%nat (cos phi * velocityMagnitude) in
  let lifetimes := Three.store lifetimes i (2.5 + rand (base + 4 * i + 3)%nat * 3.0) in
  (positions, velocities, lifetimes).

(** [createLayer(count, color, size, speed)]: allocates the buffers, the
    points object (invisible, opacity 1) and attaches it to the scene.  The
    geometry receives a copy ([slice()]) of [positions]. *)
Definition createLayer (count : nat) (color : Z) (size speed : R)
    (rand : nat → R) (base : nat) (scene : Three.Scene) : BurstLayer * Three.Scene :=
  let '(positions, velocities, lifetimes) :=
    foldl (initParticle speed rand base)
      (Three.Float32Array_new (count * 3), Three.Float32Array_new (count * 3),
       Three.Float32Array_new count)
      (seq 0%nat count) in
  let '(points, scene) := Three.alloc scene in
  let scene := Three.add points scene in
  (mkLayer points false positions false 1.0 velocities lifetimes positions
     None 0 (mkConfig count color size speed), scene).

(** The [forEach] of [createLayers]: layer [index] gets delay [index * 0.1]. *)
Fixpoint createLayersFrom (configs : list BurstLayerConfig) (index : nat)
    (rand : nat → R) (base : nat) (st : list BurstLayer * Three.Scene)
    : list BurstLayer * Three.Scene :=
  match configs with
  | [] => st
  | cfg :: rest =>
      let '(layers, scene) := st in
      let '(layer, scene) :=
        createLayer (count cfg) (color cfg) (size cfg) (speed cfg) rand base scene in
      let layer :=
        mkLayer (points layer) (visible layer) (attrPositions layer)
          (needsUpdate layer) (opacity layer) (velocities layer)
          (lifetimes layer) (positions layer) (startTime layer)
          (INR index * 0.1) cfg in
      createLayersFrom rest (S index) rand (base + 4 * count cfg)%nat
        (layers ++ [layer], scene)
  end.

(** [new BurstSystem(scene)]. *)
Definition new (rand : nat → R) (scene : Three.Scene) : t * Three.Scene :=
  let '(layers, scene) := createLayersFrom layerConfigs 0%nat rand 0%nat ([], scene) in
  (mkSystem layers, scene).

(** The body of the [forEach] of [trigger(startTime)]. *)
Definition triggerLayer (start : R) (layer : BurstLayer) : BurstLayer :=
  let positions := attrPositions layer in
  let positions :=
    foldl (fun ps i => Three.store ps i 0) positions (seq 0%nat (length positions)) in
  mkLayer (points layer) true positions true 1.0 (velocities layer)
    (lifetimes layer) (BurstSystem.positions layer)
    (Some (start + delay layer)) (delay layer) (config layer).

Definition trigger (start : R) (bs : t) : t :=
  mkSystem (triggerLayer start <$> layers bs).

(** One iteration of the particle loop of [update]. *)
Definition updateParticle (layer : BurstLayer) (elapsed : R)
    (positions : list R) (i : nat) : list R :=
  let i3 := (i * 3)%nat in
  let particleLifetime := Three.get (lifetimes layer) i in
  if decide (elapsed > particleLifetime) then
    let positions := Three.store positions i3 0 in
    let positions := Three.store positions (i3 + 1)%nat (-1000) in
    Three.store positions (i3 + 2)%nat 0
  else
    let particleT := elapsed / particleLifetime in
    let particleEasedT := Ease.outCubic particleT in
    let positions :=
      Three.store positions i3
        (Three.get (velocities layer) i3 * particleEasedT * particleLifetime) in
    let positions :=
      Three.store positions (i3 + 1)%nat
        (Three.get (velocities layer) (i3 + 1)%nat * particleEasedT * particleLifetime
         + 0.5 * GRAVITY * elapsed * elapsed) in
    Three.store positions (i3 + 2)%nat
      (Three.get (velocities layer) (i3 + 2)%nat * particleEasedT * particleLifetime).

Definition updateLayer (time : R) (layer : BurstLayer) : BurstLayer :=
  match startTime layer with
  | None => layer
  | Some start =>
      let elapsed := time - start in
      if decide (elapsed < 0) then layer
      else
        let positions :=
          foldl (updateParticle layer elapsed) (attrPositions layer)
            (seq 0%nat (length (lifetimes layer))) in
        let fadeProgress := Math_min (elapsed / FADE_DURATION) 1 in
        let opacity := 1 - Ease.inQuad fadeProgress in
        mkLayer (points layer)
          (if decide (opacity <= 0) then false else visible layer)
          positions true (Math_max 0 opacity) (velocities layer)
          (lifetimes layer) (BurstSystem.positions layer) (startTime layer)
          (delay layer) (config layer)
  end.

Definition update (time : R) (bs : t) : t :=
  mkSystem (updateLayer time <$> layers bs).

Definition disposeLayer (scene : Three.Scene) (layer : BurstLayer) : Three.Scene :=
  Three.dispose_material (points layer)
    (Three.dispose_geometry (points layer) (Three.remove (points layer) scene)).

Definition dispose (bs : t) (scene : Three.Scene) : t * Three.Scene :=
  (mkSystem [], foldl disposeLayer scene (layers bs)).

(** The calls the orchestrator makes on a live burst system. *)
Inductive Op :=
| Trigger (start : R)
| Update (time : R).

Definition applyOp (bs : t) (o : Op) : t :=
  match o with
  | Trigger start => trigger start bs
  | Update time => update time bs
  end.

Definition runOps (ops : list Op) (bs : t) : t := foldl applyOp bs ops.

(** What neither [trigger] nor [update] writes. *)
Definition fixedAtConstruction (layer : BurstLayer) : R * list R * list R :=
  (delay layer, velocities layer, lifetimes layer).

End BurstSystem.

(* ===================================================================== *)
(** ** src/scene/systems/FireworkSystem.ts *)
(* ===================================================================== *)
Module FireworkSystem.

Record Vec3 := mkVec3 { vx : R; vy : R; vz : R }.

(** [FireworkParticle].  [positions] is the very array handed to the
    geometry's position attribute (no copy is made), so one field stands
    for both; [opacity] is [points.material.opacity].  The colour and size
    attributes are written once by [spawn] and never read again. *)
Record FireworkParticle := mkFirework {
  points : Three.ObjId;
  velocities : list Vec3;
  positions : list R;
  needsUpdate : bool;
  opacity : R;
  startTime : R;
  lifetime : R;
  color : Z }.

Record t := mkSystem { fireworks : list FireworkParticle }.

Definition CELEBRATION_COLORS : list Z :=
  [0xFFD700; 0xFF00FF; 0x00F5FF; 0xFF6B35; 0xFF1493; 0x39FF14; 0x4169E1]%Z.

(** [new FireworkSystem(scene)]. *)
Definition new : t := mkSystem [].

(** One iteration of the particle loop of [spawn]; a particle draws five
    random values (speed, phi, theta, colour variation, size). *)
Definition spawnParticle (x y z : R) (rand : nat → R)
    (bufs : list R * list Vec3) (i : nat) : list R * list Vec3 :=
  let '(positions, velocities) := bufs in
  let positions := Three.store positions (i * 3)%nat x in
  let positions := Three.store positions (i * 3 + 1)%nat y in
  let positions := Three.store positions (i * 3 + 2)%nat z in
  let speed := 4 + rand (5 + 5 * i)%nat * 10 in
  let phi := rand (5 + 5 * i + 1)%nat * Math_PI * 2 in
  let theta := acos (2 * rand (5 + 5 * i + 2)%nat - 1) in
  (positions,
   velocities ++ [mkVec3 (speed * sin theta * cos phi)
                         (speed * sin theta * sin phi)
                         (speed * cos theta)]).

(** [spawn(currentTime)].  [rand] is the sequence of values the calls to
    [Math.random()] return, each in [0,1). *)
Definition spawn (currentTime : R) (rand : nat → R)
    (st : t * Three.Scene) : t * Three.Scene :=
  let '(fs, scene) := st in
  let angle := rand 0%nat * Math_PI * 2 in
  let distance := 8 + rand 1%nat * 18 in
  let x := cos angle * distance in
  let z := sin angle * distance in
  let y := -5 + rand 2%nat * 18 in
  let colorHex :=
    default 0%Z
      (CELEBRATION_COLORS
         !! Z.to_nat (Math_floor (rand 3%nat * INR (length CELEBRATION_COLORS)))) in
  let particleCount := (400 + Z.to_nat (Math_floor (rand 4%nat * 300)))%nat in
  let '(positions, velocities) :=
    foldl (spawnParticle x y z rand)
      (Three.Float32Array_new (particleCount * 3), [])
      (seq 0%nat particleCount) in
  let '(points, scene) := Three.alloc scene in
  let scene := Three.add points scene in
  let lifetime := 2.5 + rand (5 + 5 * particleCount)%nat in
  (mkSystem
     (fireworks fs ++
        [mkFirework points velocities positions false 1 currentTime lifetime colorHex]),
   scene).

Definition normalizedTime (time : R) (firework : FireworkParticle) : R :=
  (time - startTime firework) / lifetime firework.

(** The body of the first loop of [update] for a firework that is kept. *)
Definition advance (time : R) (firework : FireworkParticle) : FireworkParticle :=
  let elapsed := time - startTime firework in
  let normalizedTime := elapsed / lifetime firework in
  let easedProgress := Ease.outQuad normalizedTime in
  let positions := positions firework in
  let startX := Three.get positions 0 in
  let startY := Three.get positions 1 in
  let startZ := Three.get positions 2 in
  let positions :=
    foldl (fun ps '(j, vel) =>
             let gravityOffset := -2.5 * elapsed * elapsed in
             let ps :=
               Three.store ps (j * 3)%nat
                 (startX + vx vel * easedProgress * lifetime firework) in
             let ps :=
               Three.store ps (j * 3 + 1)%nat
                 (startY + vy vel * easedProgress * lifetime firework + gravityOffset) in
             Three.store ps (j * 3 + 2)%nat
               (startZ + vz vel * easedProgress * lifetime firework))
      positions
      (zip (seq 0%nat (length (velocities firework))) (velocities firework)) in
  mkFirework (points firework) (velocities firework) positions true
    (1 - Ease.inQuad normalizedTime) (startTime firework) (lifetime firework)
    (color firework).

(** The first loop of [update], from index [i] on: the indices pushed to
    [toRemove] and the list with every live firework advanced. *)
Fixpoint scan (time : R) (i : nat) (fws : list FireworkParticle)
    : list nat * list FireworkParticle :=
  match fws with
  | [] => ([], [])
  | firework :: rest =>
      let '(toRemove, rest) := scan time (S i) rest in
      if decide (normalizedTime time firework >= 1)
      then (i :: toRemove, firework :: rest)
      else (toRemove, advance time firework :: rest)
  end.

(** The body of the second loop: detach, dispose, [splice(index, 1)]. *)
Definition removeAt (st : list FireworkParticle * Three.Scene) (index : nat)
    : list FireworkParticle * Three.Scene :=
  let '(fws, scene) := st in
  match fws !! index with
  | Some firework =>
      let scene := Three.remove (points firework) scene in
      let scene := Three.dispose_geometry (points firework) scene in
      let scene := Three.dispose_material (points firework) scene in
      (delete index fws, scene)
  | None => st
  end.

(** [update(time, _dt)]: the removal loop runs over [toRemove] backwards. *)
Definition update (time _dt : R) (st : t * Three.Scene) : t * Three.Scene :=
  let '(fs, scene) := st in
  let '(toRemove, fws) := scan time 0 (fireworks fs) in
  let '(fws, scene) := foldl removeAt (fws, scene) (reverse toRemove) in
  (mkSystem fws, scene).

Definition disposeFirework (scene : Three.Scene) (firework : FireworkParticle)
    : Three.Scene :=
  Three.dispose_material (points firework)
    (Three.dispose_geometry (points firework) (Three.remove (points firework) scene)).

Definition dispose (st : t * Three.Scene) : t * Three.Scene :=
  let '(fs, scene) := st in
  (mkSystem [], foldl disposeFirework scene (fireworks fs)).

(** A firework whose normalized time has reached 1. *)
Definition expired (time : R) (firework : FireworkParticle) : Prop :=
  normalizedTime time firework >= 1.

#[global] Instance expired_dec (time : R) (firework : FireworkParticle) :
  Decision (expired time firework) := Rge_dec _ _.

(** Detaching and disposing the objects [ids], the last one first. *)
Definition removeObjects (ids : list Three.ObjId) (scene : Three.Scene) : Three.Scene :=
  foldr (fun o sc =>
           Three.dispose_material o (Three.dispose_geometry o (Three.remove o sc)))
    scene ids.

(** Every firework owns an object of its own, allocated from the scene. *)
Definition wellFormed (st : t * Three.Scene) : Prop :=
  NoDup (points <$> fireworks st.1) ∧
  ∀ firework, firework ∈ fireworks st.1 → (points firework < Three.nextId st.2)%nat.

(** The calls the orchestrator makes on a live firework system. *)
Inductive Op :=
| Spawn (currentTime : R) (rand : nat → R)
| Update (time dt : R).

Definition applyOp (st : t * Three.Scene) (o : Op) : t * Three.Scene :=
  match o with
  | Spawn currentTime rand => spawn currentTime rand st
  | Update time dt => update time dt st
  end.

Definition runOps (ops : list Op) (st : t * Three.Scene) : t * Three.Scene :=
  foldl applyOp st ops.

End FireworkSystem.

(* ===================================================================== *)
(** ** src/scene/TemporalCollapseScene.ts *)
(* ===================================================================== *)
Module Orchestrator.
Import Countdown.

(** Collaborators whose own state is not modelled: they are observed
    through the calls the orchestrator makes to them. *)
Inductive Collaborator :=
| StarField | TimeParticles | Shockwaves | FlashPlane | Renderer | Canvas.

Inductive Call :=
| RequestAnimationFrame
| CancelAnimationFrame (id : nat)
| RemoveResizeListener
| SetTimeout (delay : R)
| BurstTrigger (time : R)
| ShockwaveTriggerClimax (time : R)
| FlashTrigger (intensity : R)
| FireworkSpawn (time : R)
| StarFieldUpdate (time dt dramaticIntensity : R)
| TimeParticlesUpdate (time dt smoothProgress : R) (phase : Phase)
    (dramaticIntensity heartbeatIntensity : R) (celebrationStartTime : option R)
| BurstUpdate (time : R)
| ShockwaveUpdate (time : R)
| FireworkUpdate (time dt : R)
| FlashUpdate (time dramaticIntensity heartbeatIntensity : R)
| UpdateCamera (time dt dramaticIntensity : R)
| UpdateFOV (dramaticIntensity fovDelta : R)
| Render
| Resize
| Dispose (c : Collaborator).

(** The fields of the class.  [scene] is the [THREE.Scene] shared with the
    systems; [canvasAttached] tells whether the renderer's canvas is in the
    document; [calls] is the history of calls made, oldest first. *)
Record t := mk {
  scene : Three.Scene;
  burstSystem : BurstSystem.t;
  fireworkSystem : FireworkSystem.t;
  progress : R;
  phase : Phase;
  smoothProgress : R;
  climaxStartTime : option R;
  celebrationStartTime : option R;
  lastFireworkTime : R;
  shakeIntensity : R;
  targetShakeIntensity : R;
  pulsePhase : R;
  heartbeatIntensity : R;
  animationFrameId : option nat;
  isDisposed : bool;
  canvasAttached : bool;          (* renderer.domElement.parentNode is set *)
  calls : list Call }.

(** What the host supplies to one run of [animate]: the handle
    [requestAnimationFrame] returns, the readings of the clock, and the
    values [Math.random()] returns. *)
Record Frame := mkFrame {
  frameId : nat;
  elapsedTime : R;          (* clock.getElapsedTime() *)
  delta : R;                (* clock.getDelta() in animate *)
  fovDelta : R;             (* clock.getDelta() || 0.016 in updateFOV *)
  intervalRandom : R;       (* for fireworkInterval *)
  flashRandom : R;          (* for the occasional flash *)
  spawnRandom : nat → R }.  (* consumed by fireworkSystem.spawn *)

(** [triggerClimax()]; [time] is [clock.getElapsedTime()]. *)
Definition triggerClimax (time : R) (s : t) : t :=
  mk (scene s) (BurstSystem.trigger time (burstSystem s)) (fireworkSystem s)
     (progress s) (phase s) (smoothProgress s)
     (Some time) (celebrationStartTime s) (lastFireworkTime s)
     (shakeIntensity s) 3.0 (pulsePhase s) (heartbeatIntensity s)
     (animationFrameId s) (isDisposed s) (canvasAttached s)
     (calls s ++ [BurstTrigger time; ShockwaveTriggerClimax time; FlashTrigger 1.0]).

(** [triggerCelebration()]: five deferred spawns, [i * 200] ms apart. *)
Definition triggerCelebration (time : R) (s : t) : t :=
  mk (scene s) (burstSystem s) (fireworkSystem s)
     (progress s) (phase s) (smoothProgress s)
     (climaxStartTime s) (Some time) (lastFireworkTime s)
     (shakeIntensity s) 0.5 (pulsePhase s) (heartbeatIntensity s)
     (animationFrameId s) (isDisposed s) (canvasAttached s)
     (calls s ++ ((fun i : nat => SetTimeout (INR i * 200)) <$> seq 0%nat 5)).

(** The callback handed to [setTimeout] by [triggerCelebration]; [time]
    and [rand] are the clock reading and random values at the moment
    it runs. *)
Definition deferredSpawn (time : R) (rand : nat → R) (s : t) : t :=
  if isDisposed s then s
  else
    let '(fws, sc) := FireworkSystem.spawn time rand (fireworkSystem s, scene s) in
    mk sc (burstSystem s) fws
       (progress s) (phase s) (smoothProgress s)
       (climaxStartTime s) (celebrationStartTime s) (lastFireworkTime s)
       (shakeIntensity s) (targetShakeIntensity s) (pulsePhase s)
       (heartbeatIntensity s) (animationFrameId s) (isDisposed s) (canvasAttached s)
       (calls s ++ [FireworkSpawn time]).

(** [updateProgress(progress, phase)]; [time] is the clock reading the
    triggers take. *)
Definition updateProgress (progress' : R) (phase' : Phase) (time : R) (s : t) : t :=
  let previousPhase := phase s in
  let s :=
    mk (scene s) (burstSystem s) (fireworkSystem s)
       progress' phase' (smoothProgress s)
       (climaxStartTime s) (celebrationStartTime s) (lastFireworkTime s)
       (shakeIntensity s) (targetShakeIntensity s) (pulsePhase s)
       (heartbeatIntensity s) (animationFrameId s) (isDisposed s) (canvasAttached s) (calls s) in
  let s :=
    if bool_decide (phase' = climax) && bool_decide (previousPhase ≠ climax)
    then triggerClimax time s else s in
  if bool_decide (phase' = celebration) && bool_decide (previousPhase ≠ celebration)
  then triggerCelebration time s else s.

(** [handleResize()]. *)
Definition handleResize (s : t) : t :=
  if isDisposed s then s
  else
    mk (scene s) (burstSystem s) (fireworkSystem s)
       (progress s) (phase s) (smoothProgress s)
       (climaxStartTime s) (celebrationStartTime s) (lastFireworkTime s)
       (shakeIntensity s) (targetShakeIntensity s) (pulsePhase s)
       (heartbeatIntensity s) (animationFrameId s) (isDisposed s) (canvasAttached s)
       (calls s ++ [Resize]).

(** The firework spawning of [animate] during celebration: the new
    firework system and scene, [lastFireworkTime], and the calls made. *)
Definition celebrationSpawn (f : Frame) (s : t) (fws : FireworkSystem.t * Three.Scene)
    : FireworkSystem.t * Three.Scene * R * list Call :=
  let time := elapsedTime f in
  if bool_decide (phase s = celebration) then
    let fireworkInterval := 0.3 + intervalRandom f * 0.4 in
    if decide (time - lastFireworkTime s > fireworkInterval) then
      (FireworkSystem.spawn time (spawnRandom f) fws, time,
       FireworkSpawn time ::
         (if decide (flashRandom f > 0.7) then [FlashTrigger 0.3] else []))
    else (fws, lastFireworkTime s, [])
  else (fws, lastFireworkTime s, []).

(** [animate]: one run of the frame callback. *)
Definition animate (f : Frame) (s : t) : option t :=
  if isDisposed s then Some s
  else
    let animationFrameId := Some (frameId f) in
    let time := elapsedTime f in
    let dt := Math_min (delta f) 0.1 in
    dramaticIntensity ← Ease.dramaticRamp (progress s);
    smoothProgress ← smoothLerp (smoothProgress s) (progress s) 0.1 dt;
    let heartbeatSpeed := 1 + dramaticIntensity * 4 in
    let pulsePhase := pulsePhase s + dt * heartbeatSpeed in
    heartbeatIntensity ← Math_pow (Math_sin (pulsePhase * Math_PI)) 8;
    shakeIntensity ← smoothLerp (shakeIntensity s) (targetShakeIntensity s) 0.1 dt;
    let targetShakeIntensity := targetShakeIntensity s * 0.98 in
    let burst := BurstSystem.update time (burstSystem s) in
    let fws := FireworkSystem.update time dt (fireworkSystem s, scene s) in
    let '(fws, sc, lastFireworkTime, spawnCalls) := celebrationSpawn f s fws in
    Some
      (mk sc burst fws
          (progress s) (phase s) smoothProgress
          (climaxStartTime s) (celebrationStartTime s) lastFireworkTime
          shakeIntensity targetShakeIntensity pulsePhase heartbeatIntensity
          animationFrameId (isDisposed s) (canvasAttached s)
          (calls s ++
             [RequestAnimationFrame;
              StarFieldUpdate time dt dramaticIntensity;
              TimeParticlesUpdate time dt smoothProgress (phase s)
                dramaticIntensity heartbeatIntensity (celebrationStartTime s);
              BurstUpdate time;
              ShockwaveUpdate time;
              FireworkUpdate time dt;
              FlashUpdate time dramaticIntensity heartbeatIntensity]
             ++ spawnCalls ++
             [UpdateCamera time dt dramaticIntensity;
              UpdateFOV dramaticIntensity (fovDelta f);
              Render])).

(** [dispose()].  The canvas is removed from the document only while it
    is in it. *)
Definition dispose (s : t) : t :=
  let cancel :=
    match animationFrameId s with
    | Some id => [CancelAnimationFrame id]
    | None => []
    end in
  let removeCanvas := if canvasAttached s then [Dispose Canvas] else [] in
  let '(burst, sc) := BurstSystem.dispose (burstSystem s) (scene s) in
  let '(fws, sc) := FireworkSystem.dispose (fireworkSystem s, sc) in
  mk (Three.clear sc) burst fws
     (progress s) (phase s) (smoothProgress s)
     (climaxStartTime s) (celebrationStartTime s) (lastFireworkTime s)
     (shakeIntensity s) (targetShakeIntensity s) (pulsePhase s)
     (heartbeatIntensity s) (animationFrameId s) true false
     (calls s ++ cancel ++
        [RemoveResizeListener; Dispose StarField; Dispose TimeParticles;
         Dispose Shockwaves; Dispose FlashPlane; Dispose Renderer] ++
        removeCanvas).

(** The state the constructor builds before it starts the loop with a
    first call of [animate]; it has appended the canvas to the container. *)
Definition initial (rand : nat → R) : t :=
  let '(burst, sc) := BurstSystem.new rand Three.empty in
  mk sc burst FireworkSystem.new 0 dormant 0 None None 0 0 0 0 0 None false true [].

Definition new (rand : nat → R) (f : Frame) : option t := animate f (initial rand).

(** What the host may run on a scene: the public methods and the callbacks
    the scene registered. *)
Inductive Event :=
| EvUpdateProgress (progress : R) (phase : Phase) (time : R)
| EvAnimate (f : Frame)
| EvDeferredSpawn (time : R) (rand : nat → R)
| EvResize
| EvDispose.

Definition step (e : Event) (s : t) : option t :=
  match e with
  | EvUpdateProgress p ph time => Some (updateProgress p ph time s)
  | EvAnimate f => animate f s
  | EvDeferredSpawn time rand => Some (deferredSpawn time rand s)
  | EvResize => Some (handleResize s)
  | EvDispose => Some (dispose s)
  end.

Fixpoint run (es : list Event) (s : t) : option t :=
  match es with
  | [] => Some s
  | e :: es => s' ← step e s; run es s'
  end.

Definition isBurstTrigger (c : Call) : bool :=
  match c with BurstTrigger _ => true | _ => false end.

Definition isShockwaveTrigger (c : Call) : bool :=
  match c with ShockwaveTriggerClimax _ => true | _ => false end.

Definition isClimaxFlash (c : Call) : bool :=
  match c with FlashTrigger i => bool_decide (i = 1.0) | _ => false end.

Definition isSetTimeout (c : Call) : bool :=
  match c with SetTimeout _ => true | _ => false end.

Definition isRequestAnimationFrame (c : Call) : bool :=
  match c with RequestAnimationFrame => true | _ => false end.

Definition isFireworkSpawn (c : Call) : bool :=
  match c with FireworkSpawn _ => true | _ => false end.

(** How many calls of a history satisfy [p]. *)
Definition countIn (p : Call → bool) (cs : list Call) : nat :=
  length (filter (fun c => Is_true (p c)) cs).

(** How many of the calls made so far satisfy [p]. *)
Definition countCalls (p : Call → bool) (s : t) : nat := countIn p (calls s).

(** The callbacks the scene registered with the host: the frame callback
    and the deferred spawn. *)
Definition isCallback (e : Event) : bool :=
  match e with
  | EvAnimate _ | EvDeferredSpawn _ _ => true
  | _ => false
  end.

(** An update that moves the stored phase [prev] into [target]. *)
Definition enters (target prev phase' : Phase) : bool :=
  bool_decide (phase' = target) && bool_decide (prev ≠ target).

(** How often a sequence of events, starting from stored phase [prev],
    moves from another phase into [target]. *)
Fixpoint entries (target prev : Phase) (es : list Event) : nat :=
  match es with
  | [] => 0
  | EvUpdateProgress _ phase' _ :: es =>
      ((if enters target prev phase' then 1 else 0) + entries target phase' es)%nat
  | _ :: es => entries target prev es
  end.

(** The calls of the climax sequence. *)
Definition climaxCalls (time : R) : list Call :=
  [BurstTrigger time; ShockwaveTriggerClimax time; FlashTrigger 1.0].

(** The calls of the celebration trigger. *)
Definition celebrationCalls : list Call :=
  (fun i : nat => SetTimeout (INR i * 200)) <$> seq 0%nat 5.

End Orchestrator.

(* ===================================================================== *)
(** ** src/scene/systems/ShockwaveSystem.ts *)
(* ===================================================================== *)
Module ShockwaveSystem.

(** A shockwave with the state of its mesh: [color] and [opacity] are
    those of the mesh's material, [scale] is the scale of the mesh, the
    same on its three axes. *)
Record Shockwave := mkShockwave {
  mesh : Three.ObjId;
  color : Z;
  visible : bool;
  scale : R;
  opacity : R;
  startTime : R;
  duration : R;
  maxRadius : R }.

Record t := mkSystem { shockwaves : list Shockwave }.

Definition DEFAULT_DURATION : R := 2.0.

(** The entries of [COLORS.glow] that [triggerClimax] uses. *)
Definition glow_white : Z := 0xFFFFFF.
Definition glow_gold : Z := 0xFFD700.
Definition glow_magenta : Z := 0xFF00FF.
Definition glow_cyan : Z := 0x00F5FF.

(** [new ShockwaveSystem(scene)]. *)
Definition new : t := mkSystem [].

(** [add(color, delay, maxRadius, currentTime)]; a new mesh is visible. *)
Definition add (color : Z) (delay maxRadius currentTime : R)
    (st : t * Three.Scene) : t * Three.Scene :=
  let '(ss, scene) := st in
  let '(mesh, scene) := Three.alloc scene in
  let scene := Three.add mesh scene in
  let shockwave :=
    mkShockwave mesh color true 0.01 1.0 (currentTime + delay) DEFAULT_DURATION
      maxRadius in
  (mkSystem (shockwaves ss ++ [shockwave]), scene).

(** [triggerClimax(currentTime)]. *)
Definition triggerClimax (currentTime : R) (st : t * Three.Scene)
    : t * Three.Scene :=
  let st := add glow_white 0 80 currentTime st in
  let st := add glow_gold 0.15 70 currentTime st in
  let st := add glow_magenta 0.3 60 currentTime st in
  let st := add glow_cyan 0.45 50 currentTime st in
  add glow_gold 0.6 40 currentTime st.

(** What one iteration of the loop of [update] makes of its shockwave;
    [None] when the iteration removes it. *)
Definition refresh (time : R) (shockwave : Shockwave) : option Shockwave :=
  let elapsed := time - startTime shockwave in
  if decide (elapsed < 0) then
    Some (mkShockwave (mesh shockwave) (color shockwave) false (scale shockwave)
            (opacity shockwave) (startTime shockwave) (duration shockwave)
            (maxRadius shockwave))
  else
    let t := elapsed / duration shockwave in
    if decide (t > 1) then None
    else
      let radiusProgress := Ease.outCubic t in
      let currentRadius := maxRadius shockwave * radiusProgress in
      let opacity := 1 - Ease.inQuad t in
      Some (mkShockwave (mesh shockwave) (color shockwave) true currentRadius
              opacity (startTime shockwave) (duration shockwave)
              (maxRadius shockwave)).

(** The iteration of the loop of [update] at index [i]: a removed
    shockwave is detached, disposed and spliced out. *)
Definition updateAt (time : R) (st : list Shockwave * Three.Scene) (i : nat)
    : list Shockwave * Three.Scene :=
  let '(sws, scene) := st in
  match sws !! i with
  | Some shockwave =>
      match refresh time shockwave with
      | Some shockwave => (<[i := shockwave]> sws, scene)
      | None =>
          let scene := Three.remove (mesh shockwave) scene in
          let scene := Three.dispose_geometry (mesh shockwave) scene in
          let scene := Three.dispose_material (mesh shockwave) scene in
          (delete i sws, scene)
      end
  | None => st
  end.

(** [update(time)]: the loop runs from the last index down to 0. *)
Definition update (time : R) (st : t * Three.Scene) : t * Three.Scene :=
  let '(ss, scene) := st in
  let '(sws, scene) :=
    foldl (updateAt time) (shockwaves ss, scene)
      (reverse (seq 0%nat (length (shockwaves ss)))) in
  (mkSystem sws, scene).

Definition disposeShockwave (scene : Three.Scene) (shockwave : Shockwave)
    : Three.Scene :=
  Three.dispose_material (mesh shockwave)
    (Three.dispose_geometry (mesh shockwave) (Three.remove (mesh shockwave) scene)).

Definition dispose (st : t * Three.Scene) : t * Three.Scene :=
  let '(ss, scene) := st in
  (mkSystem [], foldl disposeShockwave scene (shockwaves ss)).

End ShockwaveSystem.

(* ===================================================================== *)
(** ** The class [FlashPlane] *)
(* ===================================================================== *)
Module FlashPlane.

(** A [THREE.Color] as the call that last set it: [setHex] (or the
    constructor) with its argument, or [setHSL] with its three. *)
Inductive Color :=
| Hex (hex : Z)
| HSL (h s l : R).

(** [color] and [opacity] are those of the material. *)
Record t := mk {
  mesh : Three.ObjId;
  color : Color;
  opacity : R;
  flashIntensity : R;
  baseColor : Color;
  hueOffset : R }.

(** [new FlashPlane(scene)]. *)
Definition new (scene : Three.Scene) : t * Three.Scene :=
  let '(mesh, scene) := Three.alloc scene in
  let scene := Three.add mesh scene in
  (mk mesh (Hex 0xffffff) 0 0 (Hex 0xffffff) 0, scene).

(** [triggerFlash(intensity)]. *)
Definition triggerFlash (intensity : R) (fp : t) : t :=
  mk (mesh fp) (color fp) (opacity fp) (Math_min 1 intensity) (baseColor fp)
     (hueOffset fp).

(** [update(time, dramaticIntensity, heartbeatIntensity)]. *)
Definition update (time dramaticIntensity heartbeatIntensity : R) (fp : t) : t :=
  let flashIntensity := flashIntensity fp * 0.85 in
  let heartbeatContribution := heartbeatIntensity * dramaticIntensity * 0.15 in
  let totalIntensity := Math_min 1 (flashIntensity + heartbeatContribution) in
  let '(hueOffset, baseColor, color) :=
    if decide (dramaticIntensity > 0.7) then
      let hueOffset := hueOffset fp + 0.02 in
      let hue := js_rem hueOffset 1 in
      (hueOffset, HSL hue 0.8 0.6, HSL hue 0.8 0.6)
    else if decide (dramaticIntensity > 0.3) then
      let warmHue := 0.08 + Math_sin (time * 2) * 0.05 in
      let warm := HSL warmHue 0.9 (0.5 + dramaticIntensity * 0.3) in
      (hueOffset fp, warm, warm)
    else (hueOffset fp, baseColor fp, Hex 0xffffff) in
  mk (mesh fp) color (totalIntensity * 0.4) flashIntensity baseColor hueOffset.

(** [getFlashIntensity()]. *)
Definition getFlashIntensity (fp : t) : R := flashIntensity fp.

(** [dispose()]. *)
Definition dispose (fp : t) (scene : Three.Scene) : Three.Scene :=
  Three.remove (mesh fp)
    (Three.dispose_material (mesh fp) (Three.dispose_geometry (mesh fp) scene)).

(** The frames of a run: the arguments of successive [update] calls. *)
Definition updates (frames : list (R * R * R)) (fp : t) : t :=
  foldl (fun fp '(time, dramaticIntensity, heartbeatIntensity) =>
           update time dramaticIntensity heartbeatIntensity fp)
    fp frames.

End FlashPlane.

(* ===================================================================== *)
(** ** Notions used to state properties of the scene *)
(* ===================================================================== *)
Module SceneNotions.
Import Orchestrator.

(** The objects of the active fireworks of a firework system. *)
Definition fireworkObjects (fs : FireworkSystem.t) : list Three.ObjId :=
  FireworkSystem.points <$> FireworkSystem.fireworks fs.

(** The objects of the layers of a burst system. *)
Definition burstObjects (bs : BurstSystem.t) : list Three.ObjId :=
  BurstSystem.points <$> BurstSystem.layers bs.

(** The objects the burst layers and the active fireworks of a scene own. *)
Definition ownedObjects (s : t) : list Three.ObjId :=
  burstObjects (burstSystem s) ++ fireworkObjects (fireworkSystem s).

(** The objects [owned] are in use in the scene [sc]: they are distinct,
    attached, not disposed, and were allocated from [sc], as was every
    object disposed so far. *)
Definition inUse (owned : list Three.ObjId) (sc : Three.Scene) : Prop :=
  NoDup owned ∧
  (∀ o, o ∈ owned →
     o ∈ Three.children sc ∧ (o ∉ Three.disposedGeometries sc) ∧
     (o ∉ Three.disposedMaterials sc) ∧ (o < Three.nextId sc)%nat) ∧
  (∀ o, o ∈ Three.disposedGeometries sc ∨ o ∈ Three.disposedMaterials sc →
     (o < Three.nextId sc)%nat).

(** The clock of every frame of [es] reports a non-negative delta. *)
Definition forwardClock (es : list Event) : Prop :=
  Forall (fun e => match e with EvAnimate f => 0 <= delta f | _ => True end) es.

End SceneNotions.

(* ===================================================================== *)
(** ** Notions used to state further properties *)
(* ===================================================================== *)
Module Notions.

(** [n] successive frames of smoothing with the same step. *)
Fixpoint smoothSteps (n : nat) (current target speed dt : R) : option R :=
  match n with
  | O => Some current
  | S n => r ← smoothLerp current target speed dt; smoothSteps n r target speed dt
  end.

End Notions.

(* ===================================================================== *)
(** * Properties *)
(* ===================================================================== *)

(** ** Narrowing to float32 *)
Section Float32.

Lemma round_half_even_le (x : R) (n : Z) :
  x <= IZR n → (round_half_even x <= n)%Z.
Proof.
  intros Hx. unfold round_half_even. cbv zeta.
  destruct (base_Int_part x) as [Hlo Hhi].
  assert (Hn0 : (Int_part x <= n)%Z) by (apply le_IZR; lra).
  assert (Hup : 0 < x - IZR (Int_part x) → (Int_part x + 1 <= n)%Z).
  { intros Hf. assert (Int_part x < n)%Z by (apply lt_IZR; lra). lia. }
  repeat case_decide; try exact Hn0; try (apply Hup; lra).
  destruct (Z.even _); [exact Hn0 | apply Hup; lra].
Qed.

Lemma round_half_even_ge (x : R) (n : Z) :
  IZR n <= x → (n <= round_half_even x)%Z.
Proof.
  intros Hx. unfold round_half_even. cbv zeta.
  destruct (base_Int_part x) as [Hlo Hhi].
  assert (Hn0 : (n <= Int_part x)%Z).
  { assert (n < Int_part x + 1)%Z by (apply lt_IZR; rewrite plus_IZR; lra). lia. }
  repeat case_decide; try destruct (Z.even _); lia.
Qed.

Lemma powerRZ_2_pos (z : Z) : 0 < powerRZ 2 z.
Proof. apply powerRZ_lt. lra. Qed.

Lemma powerRZ_2_nonneg_exp (z : Z) : (0 <= z)%Z → powerRZ 2 z = IZR (2 ^ z).
Proof.
  intros Hz. destruct z as [|p|p]; [reflexivity | | lia].
  change (2 ^ Z.pos p)%Z with (Z.pow_pos 2 p).
  rewrite Zpower_pos_powerRZ. reflexivity.
Qed.

Lemma powerRZ_2_le (a b : Z) : (a <= b)%Z → powerRZ 2 a <= powerRZ 2 b.
Proof.
  intros Hab. replace b with (a + (b - a))%Z by lia.
  rewrite powerRZ_add by lra.
  rewrite (powerRZ_2_nonneg_exp (b - a)) by lia.
  assert (1 <= IZR (2 ^ (b - a))).
  { apply IZR_le. assert (0 < 2 ^ (b - a))%Z by (apply Z.pow_pos_nonneg; lia). lia. }
  pose proof (powerRZ_2_pos a). nra.
Qed.

(** The binade of a positive number. *)
Lemma binade (x : R) :
  0 < x →
  powerRZ 2 (Int_part (ln x / ln 2)) <= x < powerRZ 2 (Int_part (ln x / ln 2) + 1).
Proof.
  intros Hx. set (f := Int_part (ln x / ln 2)).
  destruct (base_Int_part (ln x / ln 2)) as [Hlo Hhi]. fold f in Hlo, Hhi.
  assert (Hln2 : 0 < ln 2) by (rewrite <- ln_1; apply ln_increasing; lra).
  assert (Hq : ln x / ln 2 * ln 2 = ln x) by (field; lra).
  rewrite !powerRZ_Rpower by lra. unfold Rpower. rewrite plus_IZR.
  pose proof (exp_ln x Hx) as Hex.
  split.
  - rewrite <- Hex.
    destruct (Rle_lt_or_eq_dec _ _ Hlo) as [Hlt | Heq].
    + left. apply exp_increasing. nra.
    + right. f_equal. rewrite Heq. exact Hq.
  - rewrite <- Hex at 1. apply exp_increasing. nra.
Qed.

Lemma fround_pos_nonneg (x : R) : 0 < x → 0 <= fround_pos x.
Proof.
  intros Hx. unfold fround_pos. cbv zeta.
  set (ulp := powerRZ 2 _).
  assert (Hulp : 0 < ulp) by apply powerRZ_2_pos.
  assert (0 <= round_half_even (x / ulp))%Z.
  { apply round_half_even_ge. apply Rlt_le, Rdiv_lt_0_compat; assumption. }
  apply Rmult_le_pos; [apply IZR_le; assumption | lra].
Qed.

(** A multiple of the spacing at [x] is not crossed by the rounding. *)
Lemma multiple_of_ulp (m k e : Z) :
  (e <= k)%Z →
  IZR m * powerRZ 2 k / powerRZ 2 e = IZR (m * 2 ^ (k - e)).
Proof.
  intros Hek. replace k with (e + (k - e))%Z at 1 by lia.
  rewrite powerRZ_add by lra. rewrite (powerRZ_2_nonneg_exp (k - e)) by lia.
  rewrite mult_IZR. pose proof (powerRZ_2_pos e). field. lra.
Qed.

Lemma fround_pos_le (x : R) (m k : Z) :
  0 < x → x <= IZR m * powerRZ 2 k → (m < 2 ^ 24)%Z → (-149 <= k)%Z →
  fround_pos x <= IZR m * powerRZ 2 k.
Proof.
  intros Hx Hb Hm Hk. unfold fround_pos. cbv zeta.
  destruct (binade x Hx) as [Hlo Hhi].
  set (f := Int_part (ln x / ln 2)) in *.
  set (e := Z.max f (-126)).
  pose proof (powerRZ_2_pos (e - 23)) as Hulp.
  destruct (Z_le_gt_dec (e - 23) k) as [Hek | Hek].
  - pose proof (multiple_of_ulp m k (e - 23) Hek) as Hint.
    assert (Hbm : IZR m * powerRZ 2 k
                  = IZR (m * 2 ^ (k - (e - 23))) * powerRZ 2 (e - 23)).
    { rewrite <- Hint. field. lra. }
    rewrite Hbm in Hb |- *.
    apply Rmult_le_compat_r; [lra|]. apply IZR_le, round_half_even_le.
    apply (Rmult_le_reg_r (powerRZ 2 (e - 23))); [exact Hulp|].
    unfold Rdiv. rewrite Rmult_assoc, Rinv_l, Rmult_1_r by lra. exact Hb.
  - exfalso. assert (He : e = f) by lia.
    assert (Hpow : powerRZ 2 (k + 24) <= powerRZ 2 f) by (apply powerRZ_2_le; lia).
    rewrite powerRZ_add in Hpow by lra.
    rewrite (powerRZ_2_nonneg_exp 24) in Hpow by lia.
    assert (IZR m < IZR (2 ^ 24)) by (apply IZR_lt; exact Hm).
    pose proof (powerRZ_2_pos k). nra.
Qed.

Lemma fround_pos_ge (x : R) (m k : Z) :
  0 < x → IZR m * powerRZ 2 k <= x → (m < 2 ^ 24)%Z → (-149 <= k)%Z →
  IZR m * powerRZ 2 k <= fround_pos x.
Proof.
  intros Hx Ha Hm Hk. unfold fround_pos. cbv zeta.
  destruct (binade x Hx) as [Hlo Hhi].
  set (f := Int_part (ln x / ln 2)) in *.
  set (e := Z.max f (-126)).
  pose proof (powerRZ_2_pos (e - 23)) as Hulp.
  destruct (Z_le_gt_dec (e - 23) k) as [Hek | Hek].
  - pose proof (multiple_of_ulp m k (e - 23) Hek) as Hint.
    assert (Ham : IZR m * powerRZ 2 k
                  = IZR (m * 2 ^ (k - (e - 23))) * powerRZ 2 (e - 23)).
    { rewrite <- Hint. field. lra. }
    rewrite Ham in Ha |- *.
    apply Rmult_le_compat_r; [lra|]. apply IZR_le, round_half_even_ge.
    apply (Rmult_le_reg_r (powerRZ 2 (e - 23))); [exact Hulp|].
    unfold Rdiv. rewrite Rmult_assoc, Rinv_l, Rmult_1_r by lra. exact Ha.
  - assert (He : e = f) by lia. rewrite He in *.
    assert (Hpow : powerRZ 2 (k + 24) <= powerRZ 2 f) by (apply powerRZ_2_le; lia).
    rewrite powerRZ_add in Hpow by lra.
    rewrite (powerRZ_2_nonneg_exp 24) in Hpow by lia.
    assert (IZR m < IZR (2 ^ 24)) by (apply IZR_lt; exact Hm).
    pose proof (powerRZ_2_pos k) as Hk2.
    assert (Ha' : IZR m * powerRZ 2 k <= powerRZ 2 f) by nra.
    assert (Hq : IZR (2 ^ 23) <= x / powerRZ 2 (f - 23)).
    { assert (Hf : powerRZ 2 f = IZR (2 ^ 23) * powerRZ 2 (f - 23)).
      { rewrite <- (powerRZ_2_nonneg_exp 23) by lia.
        rewrite <- powerRZ_add by lra. f_equal. lia. }
      apply (Rmult_le_reg_r (powerRZ 2 (f - 23))); [exact Hulp|].
      unfold Rdiv. rewrite Rmult_assoc, Rinv_l, Rmult_1_r by lra. lra. }
    apply round_half_even_ge, IZR_le in Hq.
    apply (Rmult_le_compat_r (powerRZ 2 (f - 23))) in Hq; [|lra].
    assert (Hf : powerRZ 2 f = IZR (2 ^ 23) * powerRZ 2 (f - 23)).
    { rewrite <- (powerRZ_2_nonneg_exp 23) by lia.
      rewrite <- powerRZ_add by lra. f_equal. lia. }
    lra.
Qed.

Lemma Math_fround_0 : Math_fround 0 = 0.
Proof. unfold Math_fround. rewrite decide_True by reflexivity. reflexivity. Qed.

(** Narrowing never crosses a float32: it is monotone against every value
    of the format. *)
Lemma Math_fround_le (x b : R) : x <= b → float32 b → Math_fround x <= b.
Proof.
  intros Hxb (m & k & -> & Hm & Hk). unfold Math_fround.
  pose proof (powerRZ_2_pos k) as Hpk.
  destruct (decide (x = 0)) as [-> | Hx0]; [exact Hxb|].
  destruct (decide (0 < x)) as [Hpos | Hneg].
  - apply fround_pos_le; [exact Hpos | exact Hxb | lia | lia].
  - assert (Hx : 0 < - x) by lra.
    destruct (Z_lt_le_dec m 0) as [Hm0 | Hm0].
    + pose proof (fround_pos_ge (- x) (- m) k Hx) as H.
      rewrite opp_IZR in H. specialize (H ltac:(lra) ltac:(lia) ltac:(lia)). lra.
    + pose proof (fround_pos_nonneg (- x) Hx).
      assert (0 <= IZR m) by (apply IZR_le; exact Hm0). nra.
Qed.

Lemma Math_fround_ge (x a : R) : a <= x → float32 a → a <= Math_fround x.
Proof.
  intros Hax (m & k & -> & Hm & Hk). unfold Math_fround.
  pose proof (powerRZ_2_pos k) as Hpk.
  destruct (decide (x = 0)) as [-> | Hx0]; [exact Hax|].
  destruct (decide (0 < x)) as [Hpos | Hneg].
  - destruct (Z_lt_le_dec 0 m) as [Hm0 | Hm0].
    + apply fround_pos_ge; [exact Hpos | exact Hax | lia | lia].
    + pose proof (fround_pos_nonneg x Hpos).
      assert (IZR m <= 0) by (apply IZR_le; exact Hm0). nra.
  - assert (Hx : 0 < - x) by lra.
    pose proof (fround_pos_le (- x) (- m) k Hx) as H.
    rewrite opp_IZR in H. specialize (H ltac:(lra) ltac:(lia) ltac:(lia)). lra.
Qed.


Lemma float32_IZR (m : Z) : (Z.abs m < 2 ^ 24)%Z → float32 (IZR m).
Proof.
  intros Hm. exists m, 0%Z. split; [simpl; lra|]. split; [exact Hm | lia].
Qed.

Lemma float32_half (m : Z) : (Z.abs m < 2 ^ 24)%Z → float32 (IZR m / 2).
Proof.
  intros Hm. exists m, (-1)%Z. split; [simpl; lra|]. split; [exact Hm | lia].
Qed.

Lemma binade_unique (x : R) (n : Z) :
  powerRZ 2 n <= x < powerRZ 2 (n + 1) → Int_part (ln x / ln 2) = n.
Proof.
  intros [Hlo Hhi].
  assert (Hx : 0 < x) by (pose proof (powerRZ_2_pos n); lra).
  destruct (binade x Hx) as [Hlo' Hhi'].
  set (f := Int_part (ln x / ln 2)) in *.
  destruct (Z_lt_le_dec f n) as [Hlt | Hge].
  - pose proof (powerRZ_2_le (f + 1) n ltac:(lia)). lra.
  - destruct (Z_lt_le_dec n f) as [Hlt | Hle]; [|lia].
    pose proof (powerRZ_2_le (n + 1) f ltac:(lia)). lra.
Qed.

Lemma round_half_even_near (x : R) (r : Z) :
  Rabs (x - IZR r) < 1 / 2 → round_half_even x = r.
Proof.
  intros Hnear. apply Rabs_def2 in Hnear as [Hlt Hgt].
  unfold round_half_even. cbv zeta.
  destruct (Rle_lt_dec (IZR r) x) as [Hge | Hbelow].
  - assert (Hn : r = Int_part x) by (apply Int_part_spec; lra).
    rewrite <- Hn. rewrite decide_True by lra. reflexivity.
  - assert (Hn : (r - 1)%Z = Int_part x)
      by (apply Int_part_spec; rewrite minus_IZR; lra).
    rewrite <- Hn. rewrite minus_IZR.
    rewrite decide_False by lra. rewrite decide_True by lra. lia.
Qed.

(** The narrowing of a positive number, from its binade and the nearest
    multiple of the spacing. *)
Lemma fround_pos_eval (x : R) (n r : Z) :
  powerRZ 2 n <= x < powerRZ 2 (n + 1) → (-126 <= n)%Z →
  Rabs (x / powerRZ 2 (n - 23) - IZR r) < 1 / 2 →
  fround_pos x = IZR r * powerRZ 2 (n - 23).
Proof.
  intros Hbin Hn Hnear. unfold fround_pos. cbv zeta.
  rewrite (binade_unique x n Hbin). rewrite Z.max_l by lia.
  rewrite (round_half_even_near _ r Hnear). reflexivity.
Qed.

(** A store of -19.6 leaves -19.600000381469727 in the array. *)
Example Math_fround_example : Math_fround (-19.6) = - (10276045 / 524288).
Proof.
  unfold Math_fround. rewrite decide_False by lra. rewrite decide_False by lra.
  rewrite (fround_pos_eval (- -19.6) 4 10276045).
  - simpl. lra.
  - simpl. lra.
  - lia.
  - simpl. apply Rabs_def1; lra.
Qed.

End Float32.

(** ** Countdown state machine *)
Section CountdownProperties.
Import Countdown.

Lemma thresholds_values :
  th_calm PHASE_THRESHOLDS = 3600000 ∧ th_building PHASE_THRESHOLDS = 600000 ∧
  th_intense PHASE_THRESHOLDS = 60000 ∧ th_final PHASE_THRESHOLDS = 10000 ∧
  th_celebrationDelay PHASE_THRESHOLDS = 6000.
Proof. simpl. repeat split; lra. Qed.

(** The classes of [calculatePhase] are consecutive intervals. *)
Lemma calculatePhase_intervals (r : R) :
  match calculatePhase r with
  | celebration => r <= -6000
  | climax => -6000 < r <= 0
  | final => 0 < r <= 10000
  | intense => 10000 < r <= 60000
  | building => 60000 < r <= 600000
  | calm => 600000 < r <= 3600000
  | dormant => 3600000 < r
  end.
Proof.
  unfold calculatePhase. simpl.
  repeat case_decide; lra.
Qed.

(** C2: [calculatePhase] is defined on every real, its classes partition
    the line into the seven intervals of the threshold table, it reverses
    the order (a smaller remaining time never gives an earlier phase), and
    it takes the seven values of the scenario. *)
Theorem calculatePhase_total_order_reversing :
  (∀ r : R, ∃ p : Phase, calculatePhase r = p) ∧
  (∀ r : R,
     (calculatePhase r = celebration ↔ r <= -6000) ∧
     (calculatePhase r = climax ↔ -6000 < r <= 0) ∧
     (calculatePhase r = final ↔ 0 < r <= 10000) ∧
     (calculatePhase r = intense ↔ 10000 < r <= 60000) ∧
     (calculatePhase r = building ↔ 60000 < r <= 600000) ∧
     (calculatePhase r = calm ↔ 600000 < r <= 3600000) ∧
     (calculatePhase r = dormant ↔ 3600000 < r)) ∧
  (∀ r1 r2 : R, r1 < r2 →
     (phase_rank (calculatePhase r2) <= phase_rank (calculatePhase r1))%nat) ∧
  calculatePhase 7200000 = dormant ∧
  calculatePhase 1800000 = calm ∧
  calculatePhase 300000 = building ∧
  calculatePhase 30000 = intense ∧
  calculatePhase 5000 = final ∧
  calculatePhase (-2000) = climax ∧
  calculatePhase (-10000) = celebration.
Proof.
  assert (Hiff : ∀ r : R,
     (calculatePhase r = celebration ↔ r <= -6000) ∧
     (calculatePhase r = climax ↔ -6000 < r <= 0) ∧
     (calculatePhase r = final ↔ 0 < r <= 10000) ∧
     (calculatePhase r = intense ↔ 10000 < r <= 60000) ∧
     (calculatePhase r = building ↔ 60000 < r <= 600000) ∧
     (calculatePhase r = calm ↔ 600000 < r <= 3600000) ∧
     (calculatePhase r = dormant ↔ 3600000 < r)).
  { intros r. pose proof (calculatePhase_intervals r) as H.
    destruct (calculatePhase r);
      repeat split; intros; try discriminate; try reflexivity; lra. }
  split; [intros r; eauto|].
  split; [exact Hiff|].
  split.
  { intros r1 r2 Hlt.
    pose proof (calculatePhase_intervals r1) as H1.
    pose proof (calculatePhase_intervals r2) as H2.
    destruct (calculatePhase r1), (calculatePhase r2); simpl; try lia; lra. }
  repeat split.
  - apply Hiff; lra.
  - apply Hiff; lra.
  - apply Hiff; lra.
  - apply Hiff; lra.
  - apply Hiff; lra.
  - apply Hiff; lra.
  - apply Hiff; lra.
Qed.

Lemma calculatePhase_order_witness :
  5000 < 30000 ∧
  (phase_rank (calculatePhase 30000) <= phase_rank (calculatePhase 5000))%nat.
Proof.
  split; [lra|].
  apply (proj1 (proj2 (proj2 calculatePhase_total_order_reversing)) 5000 30000).
  lra.
Defined.

(** C3: the progress [calculateState] returns is the clamp of
    [1 - remaining / 3600000] to [0,1]; it lies in [0,1], is [0] as long as
    at least one hour remains and [1] from the target on. *)
Theorem calculateState_progress_clamped (targetDate now : R) :
  let remaining := targetDate - now in
  let p := progress (calculateState targetDate now) in
  timeRemaining (calculateState targetDate now) = remaining ∧
  p = clamp (1 - remaining / 3600000) 0 1 ∧
  0 <= p <= 1 ∧
  (remaining >= 3600000 → p = 0) ∧
  (remaining <= 0 → p = 1).
Proof.
  simpl. unfold clamp, Math_max, Math_min.
  replace (60 * 60 * 1000) with 3600000 by lra.
  split; [reflexivity|].
  split; [reflexivity|].
  unfold Rmax, Rmin.
  repeat destruct (Rle_dec _ _); repeat split; intros; lra.
Qed.

Lemma calculateState_progress_witness :
  progress (calculateState 3600000 0) = 0 ∧ progress (calculateState 0 1000) = 1.
Proof.
  split.
  - apply (calculateState_progress_clamped 3600000 0). lra.
  - apply (calculateState_progress_clamped 0 1000). lra.
Defined.

End CountdownProperties.

(** ** [Math.pow] in the real model *)
Section PowFacts.

Lemma Math_pow_exp_0 (b e : R) : e = 0 → Math_pow b e = Some 1.
Proof. intros He. unfold Math_pow. case_decide; [reflexivity | contradiction]. Qed.

Lemma Math_pow_pos (b e : R) : e ≠ 0 → 0 < b → Math_pow b e = Some (Rpower b e).
Proof.
  intros He Hb. unfold Math_pow.
  case_decide; [contradiction|]. case_decide; [reflexivity | contradiction].
Qed.

Lemma Math_pow_base_0 (e : R) : 0 < e → Math_pow 0 e = Some 0.
Proof.
  intros He. unfold Math_pow.
  case_decide; [lra|]. case_decide; [lra|].
  case_decide; [|lra]. case_decide; [reflexivity | lra].
Qed.

Lemma Int_part_IZR (z : Z) : Int_part (IZR z) = z.
Proof. symmetry. apply Int_part_spec. lra. Qed.

Lemma Math_pow_neg_integer (b : R) (n : Z) :
  b < 0 → n ≠ 0%Z →
  Math_pow b (IZR n) =
    Some (if Z.even n then Rpower (- b) (IZR n) else - Rpower (- b) (IZR n)).
Proof.
  intros Hb Hn. unfold Math_pow.
  case_decide as H0; [apply eq_IZR in H0; contradiction|].
  case_decide; [lra|]. case_decide; [lra|].
  rewrite Int_part_IZR. case_decide; [reflexivity | contradiction].
Qed.

Lemma Rpower_base_1 (e : R) : Rpower 1 e = 1.
Proof. unfold Rpower. rewrite ln_1, Rmult_0_r. apply exp_0. Qed.

Lemma Rpower_unit_interval (b e : R) :
  0 < b <= 1 → 0 <= e → 0 < Rpower b e <= 1.
Proof.
  intros [Hb0 Hb1] He. unfold Rpower. split; [apply exp_pos|].
  destruct (Req_dec b 1) as [-> | Hne].
  - rewrite ln_1, Rmult_0_r, exp_0. lra.
  - assert (Hln : ln b < 0).
    { rewrite <- ln_1. apply ln_increasing; lra. }
    destruct (Req_dec e 0) as [-> | He0].
    + rewrite Rmult_0_l, exp_0. lra.
    + left. rewrite <- exp_0. apply exp_increasing. nra.
Qed.

(** On the arguments [smoothLerp] passes for a speed in [0,1] and a
    non-negative step, [Math.pow] has a value, and it lies in [0,1]. *)
Lemma Math_pow_decay (speed dt : R) :
  0 <= speed <= 1 → 0 <= dt →
  ∃ p, Math_pow (1 - speed) (dt * 60) = Some p ∧ 0 <= p <= 1 ∧
       (dt = 0 → p = 1) ∧ (speed = 0 → p = 1) ∧ (speed = 1 → 0 < dt → p = 0).
Proof.
  intros Hs Hdt.
  destruct (Req_dec dt 0) as [-> | Hdt0].
  - exists 1. rewrite Math_pow_exp_0 by lra. repeat split; intros; lra.
  - destruct (Req_dec speed 1) as [-> | Hs1].
    + exists 0. replace (1 - 1) with 0 by lra.
      rewrite Math_pow_base_0 by lra. repeat split; intros; lra.
    + exists (Rpower (1 - speed) (dt * 60)).
      rewrite Math_pow_pos by lra.
      pose proof (Rpower_unit_interval (1 - speed) (dt * 60)) as Hp.
      repeat split; try (apply Hp; lra); try lra.
      intros ->. replace (1 - 0) with 1 by lra. apply Rpower_base_1.
Qed.

(** Doubling the step squares the decay. *)
Lemma Math_pow_double_step (speed d p : R) :
  0 <= speed <= 1 → 0 <= d →
  Math_pow (1 - speed) (d * 60) = Some p →
  Math_pow (1 - speed) (2 * d * 60) = Some (p * p).
Proof.
  intros Hs Hd Hp.
  destruct (Req_dec d 0) as [-> | Hd0].
  - rewrite Math_pow_exp_0 in Hp by lra. injection Hp as <-.
    rewrite Math_pow_exp_0 by lra. f_equal. lra.
  - destruct (Req_dec speed 1) as [-> | Hs1].
    + replace (1 - 1) with 0 in * by lra.
      rewrite Math_pow_base_0 in Hp by lra. injection Hp as <-.
      rewrite Math_pow_base_0 by lra. f_equal. lra.
    + rewrite Math_pow_pos in Hp by lra. injection Hp as <-.
      rewrite Math_pow_pos by lra. f_equal.
      replace (2 * d * 60) with (d * 60 + d * 60) by lra.
      apply Rpower_plus.
Qed.

End PowFacts.

(** ** Smoothing utility *)
Section SmoothLerpProperties.

(** C6 does not hold as specified: with speed 1 and a step of 0 the value
    does not move ([Math.pow(0, 0)] is 1, so the factor is 0). *)
Lemma smoothLerp_speed_1_dt_0_stays :
  0 <= 1 <= 1 ∧ 0 <= 0 ∧
  smoothLerp 0 1 1 0 = Some 0 ∧ smoothLerp 0 1 1 0 ≠ Some 1.
Proof.
  assert (H : smoothLerp 0 1 1 0 = Some 0).
  { unfold smoothLerp. rewrite Math_pow_exp_0 by lra. simpl. f_equal. lra. }
  split; [lra|]. split; [lra|]. split; [exact H|].
  rewrite H. intros Heq. injection Heq. lra.
Qed.

(** C6 (amended): in exact real arithmetic, for a speed in [0,1] and a
    step [dt >= 0], [smoothLerp] has a value [r]; [r] lies weakly between
    [current] and [target]; it is [current] when [current = target], when
    [speed = 0] and when [dt = 0]; it is [target] when [speed = 1] and
    [dt > 0].  On doubles the result for speed 1 is
    [current + (target - current)], which rounding can put off the target and
    outside the interval: [smoothLerp(0.7, 0.1, 1, 1)] is
    [0.09999999999999998], below the target [0.1]. *)
Theorem smoothLerp_approach :
  (∀ current target speed dt : R,
     0 <= speed <= 1 → 0 <= dt →
     ∃ r, smoothLerp current target speed dt = Some r ∧
          Rmin current target <= r <= Rmax current target ∧
          (current = target → r = current) ∧
          (speed = 0 → r = current) ∧
          (dt = 0 → r = current) ∧
          (speed = 1 → 0 < dt → r = target)) ∧
  (Binary64.smoothLerp 0.7 0.1 1 1 = Some 0.09999999999999998%float ∧
   PrimFloat.ltb 0.09999999999999998 0.1 = true).
Proof.
  split; [|split; vm_compute; reflexivity].
  intros current target speed dt Hs Hdt.
  destruct (Math_pow_decay speed dt Hs Hdt) as (p & Hp & Hp01 & Hdt0 & Hs0 & Hs1).
  exists (current + (target - current) * (1 - p)).
  unfold smoothLerp. rewrite Hp. simpl.
  split; [reflexivity|].
  split.
  { unfold Rmin, Rmax. destruct (Rle_dec current target); split; nra. }
  split; [intros ->; lra|].
  split; [intros H; rewrite (Hs0 H); lra|].
  split; [intros H; rewrite (Hdt0 H); lra|].
  intros H1 H2. rewrite (Hs1 H1 H2). lra.
Qed.

Lemma smoothLerp_approach_witness :
  ∃ r, smoothLerp 0 100 1 0.016 = Some r ∧
       Rmin 0 100 <= r <= Rmax 0 100 ∧
       (0 = 100 → r = 0) ∧ (1 = 0 → r = 0) ∧ (0.016 = 0 → r = 0) ∧
       (1 = 1 → 0 < 0.016 → r = 100).
Proof. apply (proj1 smoothLerp_approach 0 100 1 0.016); lra. Defined.

(** C7: for a speed in [0,1] and a step [d >= 0], two successive
    applications of [smoothLerp] with step [d] both have a value, and the
    second is exactly the value of one application with step [2 * d]. *)
Theorem smoothLerp_frame_rate_independent (current target speed d : R) :
  0 <= speed <= 1 → 0 <= d →
  ∃ r1 r2,
    smoothLerp current target speed d = Some r1 ∧
    smoothLerp r1 target speed d = Some r2 ∧
    smoothLerp current target speed (2 * d) = Some r2.
Proof.
  intros Hs Hd.
  destruct (Math_pow_decay speed d Hs Hd) as (p & Hp & _).
  pose proof (Math_pow_double_step speed d p Hs Hd Hp) as Hpp.
  exists (current + (target - current) * (1 - p)).
  exists (current + (target - current) * (1 - p * p)).
  unfold smoothLerp. rewrite Hp, Hpp. simpl.
  repeat split; f_equal; ring.
Qed.

Lemma smoothLerp_frame_rate_independent_witness :
  ∃ r1 r2,
    smoothLerp 0 100 0.5 0.016 = Some r1 ∧
    smoothLerp r1 100 0.5 0.016 = Some r2 ∧
    smoothLerp 0 100 0.5 (2 * 0.016) = Some r2.
Proof. apply (smoothLerp_frame_rate_independent 0 100 0.5 0.016); lra. Defined.

End SmoothLerpProperties.

(** ** Easing library *)
Section EasingProperties.
Import Ease.

(** In the real model every curve starts at 0. *)
Lemma ease_real_at_0 (k : Key) : ease k 0 = Some 0.
Proof.
  destruct k; simpl;
    unfold linear, inQuad, outQuad, inOutQuad, inCubic, outCubic, inOutCubic,
      outExpo, inExpo, outBack, elastic, finalCountdown, dramaticRamp;
    repeat case_decide; try lra; try (f_equal; lra).
  - (* outExpo *) rewrite Math_pow_exp_0 by lra. simpl. f_equal. lra.
  - (* outBack *)
    replace (0 - 1) with (-1) by lra.
    rewrite (Math_pow_neg_integer (-1) 3) by (lra || lia).
    rewrite (Math_pow_neg_integer (-1) 2) by (lra || lia).
    simpl. replace (- -1) with 1 by lra. rewrite !Rpower_base_1.
    f_equal. lra.
Qed.

(** In the real model every curve ends at 1. *)
Lemma ease_real_at_1 (k : Key) : ease k 1 = Some 1.
Proof.
  destruct k; simpl;
    unfold linear, inQuad, outQuad, inOutQuad, inCubic, outCubic, inOutCubic,
      outExpo, inExpo, outBack, elastic, finalCountdown, dramaticRamp;
    repeat case_decide; try lra; try (f_equal; lra).
  - (* inExpo *) apply Math_pow_exp_0. lra.
  - (* outBack *)
    replace (1 - 1) with 0 by lra.
    rewrite !Math_pow_base_0 by lra. simpl. f_equal. lra.
  - (* dramaticRamp *)
    replace ((1 - 0.83) / 0.17) with 1 by lra.
    rewrite Math_pow_pos by lra. rewrite Rpower_base_1. simpl. f_equal. lra.
  - (* finalCountdown *)
    replace ((1 - 0.98) / 0.02) with 1 by lra.
    rewrite Math_pow_pos by lra. rewrite Rpower_base_1. simpl. f_equal. lra.
Qed.

(** C4 does not hold as specified on doubles: [outBack(0)] is
    [1 + (c1 + 1) * (-1) + c1] with [c1 = 1.70158], and the sum [c1 + 1] is
    rounded, which leaves 2^-52 instead of 0. *)
Lemma outBack_binary64_at_0_inexact :
  Binary64.ease KoutBack 0 = Some 0x1p-52%float ∧
  Binary64.ease KoutBack 0 ≠ Some 0%float.
Proof.
  assert (H : Binary64.ease KoutBack 0 = Some 0x1p-52%float)
    by (vm_compute; reflexivity).
  split; [exact H|].
  rewrite H. intros Heq.
  apply (f_equal (fun o => match o with
                           | Some x => PrimFloat.ltb 0 x
                           | None => false
                           end)) in Heq.
  vm_compute in Heq. discriminate.
Qed.

(** C4 (amended): in exact real arithmetic each of the thirteen curves
    returns 0 at 0 and 1 at 1.  On doubles the value at 0 is exactly 0 for
    every curve but [outBack], where it is 2^-52, and the value at 1 is
    exactly 1 for every curve but [dramaticRamp] and [finalCountdown]. *)
Theorem ease_boundaries :
  (∀ k, ease k 0 = Some 0 ∧ ease k 1 = Some 1) ∧
  (∀ k, k ≠ KoutBack → Binary64.ease k 0 = Some 0%float) ∧
  Binary64.ease KoutBack 0 = Some 0x1p-52%float ∧
  (∀ k, k ≠ KdramaticRamp → k ≠ KfinalCountdown →
        Binary64.ease k 1 = Some 1%float).
Proof.
  split; [intros k; split; [apply ease_real_at_0 | apply ease_real_at_1]|].
  split; [intros k Hk; destruct k; try contradiction; vm_compute; reflexivity|].
  split; [vm_compute; reflexivity|].
  intros k H1 H2. destruct k; try contradiction; vm_compute; reflexivity.
Qed.

Lemma ease_boundaries_witness :
  Binary64.ease Kelastic 0 = Some 0%float ∧
  Binary64.ease KoutBack 1 = Some 1%float.
Proof.
  split.
  - apply (proj1 (proj2 ease_boundaries) Kelastic). discriminate.
  - apply (proj2 (proj2 (proj2 ease_boundaries)) KoutBack); discriminate.
Defined.

(** C5: below 0.98 [finalCountdown] is [dramaticRamp]; at 0.98 it is
    within 0.1 of 0.9 (it is 0.9); at 0.99 it is above its value at 0.98.
    The first two facts hold on doubles as well. *)
Theorem finalCountdown_kick :
  (∀ t, t < 0.98 → finalCountdown t = dramaticRamp t) ∧
  (∃ v, finalCountdown 0.98 = Some v ∧ Rabs (v - 0.9) <= 0.1) ∧
  (∃ a b, finalCountdown 0.99 = Some a ∧ finalCountdown 0.98 = Some b ∧ a > b) ∧
  (∀ t : float, PrimFloat.ltb t 0.98 = true →
     Binary64.finalCountdown t = Binary64.dramaticRamp t) ∧
  (∃ v, Binary64.finalCountdown 0.98 = Some v ∧
        PrimFloat.leb (abs (v - 0.9)) 0.1 = true).
Proof.
  assert (H98 : finalCountdown 0.98 = Some 0.9).
  { unfold finalCountdown. case_decide; [lra|].
    replace ((0.98 - 0.98) / 0.02) with 0 by lra.
    rewrite Math_pow_base_0 by lra. simpl. f_equal. lra. }
  split.
  { intros t Ht. unfold finalCountdown. case_decide; [reflexivity | lra]. }
  split.
  { exists 0.9. split; [exact H98|].
    replace (0.9 - 0.9) with 0 by lra. rewrite Rabs_R0. lra. }
  split.
  { exists (0.9 + Rpower ((0.99 - 0.98) / 0.02) 1.5 * 0.1), 0.9.
    split; [|split; [exact H98|]].
    - unfold finalCountdown. case_decide; [lra|].
      rewrite Math_pow_pos by lra. reflexivity.
    - assert (0 < Rpower ((0.99 - 0.98) / 0.02) 1.5) by apply exp_pos. lra. }
  split.
  { intros t Ht. unfold Binary64.finalCountdown. rewrite Ht. reflexivity. }
  exists 0.9%float. split; vm_compute; reflexivity.
Qed.

Lemma finalCountdown_kick_witness :
  0.5 < 0.98 ∧ finalCountdown 0.5 = dramaticRamp 0.5.
Proof.
  split; [lra|]. apply (proj1 finalCountdown_kick). lra.
Defined.

(** The values the unit tests of the easing module check, on doubles. *)
Example easing_test_values :
  Binary64.inQuad 0.5 = 0.25%float ∧
  Binary64.inQuad 0.25 = 0.0625%float ∧
  Binary64.outQuad 0.5 = 0.75%float ∧
  Binary64.inOutQuad 0.5 = 0.5%float ∧
  Binary64.inCubic 0.5 = 0.125%float ∧
  Binary64.inOutCubic 0.5 = 0.5%float ∧
  Binary64.finalCountdown 0.5 = Binary64.dramaticRamp 0.5 ∧
  (∃ v, Binary64.dramaticRamp 0.5 = Some v ∧ PrimFloat.ltb v 0.2 = true).
Proof.
  repeat split; try (vm_compute; reflexivity).
  eexists. split; vm_compute; reflexivity.
Qed.

End EasingProperties.

(** ** Burst system *)
Section BurstProperties.
Import BurstSystem.

(** Writing 0 at every index of a buffer leaves a buffer of zeros. *)
Lemma zero_fill_length (n : nat) (ps : list R) :
  length (foldl (fun ps i => Three.store ps i 0) ps (seq 0%nat n)) = length ps.
Proof.
  induction n as [|n IH]; [reflexivity|].
  rewrite seq_S, foldl_app. cbn [foldl]. unfold Three.store at 1.
  rewrite length_insert. exact IH.
Qed.

Lemma zero_fill_lookup (n : nat) (ps : list R) (j : nat) :
  foldl (fun ps i => Three.store ps i 0) ps (seq 0%nat n) !! j =
    if decide (j < n ∧ j < length ps)%nat then Some 0 else ps !! j.
Proof.
  induction n as [|n IH].
  - reflexivity.
  - rewrite seq_S, foldl_app. cbn [foldl Nat.add]. unfold Three.store at 1.
    rewrite Math_fround_0, list_lookup_insert, IH, zero_fill_length.
    repeat case_decide; try reflexivity; try lia.
Qed.

Lemma triggerLayer_positions_origin (start : R) (layer : BurstLayer) :
  attrPositions (triggerLayer start layer)
  = replicate (length (attrPositions layer)) 0.
Proof.
  cbn [triggerLayer attrPositions]. apply list_eq. intros j.
  rewrite zero_fill_lookup.
  case_decide as Hj.
  - symmetry. apply lookup_replicate_2. lia.
  - rewrite (proj2 (lookup_ge_None _ _)) by lia.
    symmetry. apply lookup_ge_None. rewrite length_replicate. lia.
Qed.

Lemma updateLayer_fixed (time : R) (layer : BurstLayer) :
  fixedAtConstruction (updateLayer time layer) = fixedAtConstruction layer.
Proof.
  unfold updateLayer. destruct (startTime layer); [|reflexivity].
  case_decide; reflexivity.
Qed.

Lemma applyOp_fixed (o : Op) (bs : t) :
  fixedAtConstruction <$> layers (applyOp bs o) = fixedAtConstruction <$> layers bs.
Proof.
  destruct o; simpl; rewrite <- list_fmap_compose; apply list_fmap_ext;
    intros i layer _; simpl; [reflexivity | apply updateLayer_fixed].
Qed.

Lemma runOps_fixed (ops : list Op) (bs : t) :
  fixedAtConstruction <$> layers (runOps ops bs) = fixedAtConstruction <$> layers bs.
Proof.
  unfold runOps. revert bs. induction ops as [|o ops IH]; intros bs; [reflexivity|].
  simpl. rewrite IH. apply applyOp_fixed.
Qed.

(** [createLayers] appends one layer per configuration; the layer at
    position [k] of the new ones has delay [(index + k) * 0.1]. *)
Lemma createLayersFrom_delays (configs : list BurstLayerConfig) :
  ∀ (index : nat) (rand : nat → R) (base : nat) (acc : list BurstLayer)
    (sc : Three.Scene),
  ∃ news,
    (createLayersFrom configs index rand base (acc, sc)).1 = acc ++ news ∧
    length news = length configs ∧
    ∀ k layer, news !! k = Some layer → delay layer = INR (index + k) * 0.1.
Proof.
  induction configs as [|cfg rest IH]; intros index rand base acc sc.
  - exists []. simpl. rewrite app_nil_r. repeat split. intros k layer Hk.
    rewrite lookup_nil in Hk. discriminate.
  - cbn [createLayersFrom]. destruct (createLayer _ _ _ _ _ _ _) as [layer sc'].
    match goal with
    | |- context [createLayersFrom rest _ _ _ (acc ++ [?l], _)] => set (layer' := l)
    end.
    destruct (IH (S index) rand (base + 4 * count cfg)%nat (acc ++ [layer']) sc')
      as (news & Heq & Hlen & Hdelay).
    exists (layer' :: news). rewrite Heq, <- app_assoc. simpl.
    split; [reflexivity|]. split; [lia|].
    intros [|k] l Hl; simpl in Hl.
    + injection Hl as <-. simpl. rewrite Nat.add_0_r. reflexivity.
    + rewrite (Hdelay k l Hl). f_equal. f_equal. lia.
Qed.

Lemma new_layers (rand : nat → R) (sc : Three.Scene) :
  length (layers (new rand sc).1) = 5%nat ∧
  ∀ k layer, layers (new rand sc).1 !! k = Some layer →
             delay layer = INR k * 0.1.
Proof.
  unfold new.
  destruct (createLayersFrom_delays layerConfigs 0 rand 0 [] sc)
    as (news & Heq & Hlen & Hdelay).
  destruct (createLayersFrom _ _ _ _ _) as [ls sc']. cbn [fst layers] in *.
  rewrite app_nil_l in Heq. subst ls.
  split; [exact Hlen|]. intros k layer Hk. exact (Hdelay k layer Hk).
Qed.

End BurstProperties.

(** ** Firework system *)
Section FireworkProperties.
Import FireworkSystem.


Lemma advance_normalizedTime (t time : R) (fw : FireworkParticle) :
  normalizedTime t (advance time fw) = normalizedTime t fw.
Proof. reflexivity. Qed.

(** The two loops of [update]: the fireworks that were not expired are
    kept, advanced, in order; the objects of the expired ones are detached
    and disposed. *)
Lemma removal_loop (time : R) (fws : list FireworkParticle) :
  ∀ (i : nat) (pre : list FireworkParticle) (sc : Three.Scene),
  length pre = i →
  foldl removeAt (pre ++ (scan time i fws).2, sc) (reverse (scan time i fws).1)
  = (pre ++ (advance time <$> filter (fun fw => ¬ expired time fw) fws),
     removeObjects (points <$> filter (expired time) fws) sc).
Proof.
  induction fws as [|fw rest IH]; intros i pre sc Hlen.
  - reflexivity.
  - cbn [scan].
    destruct (scan time (S i) rest) as [rm rest'] eqn:Hscan.
    destruct (decide (normalizedTime time fw >= 1)) as [Hexp | Hlive].
    + rewrite (filter_cons_True (expired time)) by exact Hexp.
      rewrite (filter_cons_False (fun fw => ¬ expired time fw))
        by (intros Hn; exact (Hn Hexp)).
      cbn [fst snd]. rewrite reverse_cons, foldl_app.
      specialize (IH (S i) (pre ++ [fw]) sc).
      rewrite Hscan in IH. cbn [fst snd] in IH.
      rewrite <- app_assoc in IH. cbn [app] in IH.
      rewrite IH by (rewrite length_app; simpl; lia).
      cbn [foldl removeAt].
      rewrite <- app_assoc. cbn [app].
      rewrite list_lookup_middle by (symmetry; exact Hlen).
      rewrite <- Hlen, delete_middle. reflexivity.
    + rewrite (filter_cons_False (expired time)) by exact Hlive.
      rewrite (filter_cons_True (fun fw => ¬ expired time fw)) by exact Hlive.
      cbn [fst snd].
      specialize (IH (S i) (pre ++ [advance time fw]) sc).
      rewrite Hscan in IH. cbn [fst snd] in IH.
      rewrite <- app_assoc in IH. cbn [app] in IH.
      rewrite IH by (rewrite length_app; simpl; lia).
      rewrite <- app_assoc. reflexivity.
Qed.

Lemma update_spec (time dt : R) (fs : t) (sc : Three.Scene) :
  update time dt (fs, sc)
  = (mkSystem (advance time <$> filter (fun fw => ¬ expired time fw) (fireworks fs)),
     removeObjects (points <$> filter (expired time) (fireworks fs)) sc).
Proof.
  unfold update.
  pose proof (removal_loop time (fireworks fs) 0 [] sc eq_refl) as H.
  destruct (scan time 0 (fireworks fs)) as [rm fws]. cbn [fst snd app] in H.
  rewrite H. reflexivity.
Qed.

Lemma removeObjects_spec (ids : list Three.ObjId) (sc : Three.Scene) :
  Three.children (removeObjects ids sc) = Three.children sc ∖ list_to_set ids ∧
  Three.disposedGeometries (removeObjects ids sc)
    = list_to_set ids ∪ Three.disposedGeometries sc ∧
  Three.disposedMaterials (removeObjects ids sc)
    = list_to_set ids ∪ Three.disposedMaterials sc ∧
  Three.nextId (removeObjects ids sc) = Three.nextId sc.
Proof.
  induction ids as [|o ids (IHc & IHg & IHm & IHn)]; simpl.
  - repeat split; set_solver.
  - rewrite IHc, IHg, IHm, IHn. repeat split; set_solver.
Qed.

(** [spawn] appends one firework, owning a fresh object attached to the
    scene, started at [currentTime], living between 2.5 and 3.5 seconds. *)
Lemma spawn_spec (currentTime : R) (rand : nat → R) (fs : t) (sc : Three.Scene) :
  ∃ fw,
    spawn currentTime rand (fs, sc)
    = (mkSystem (fireworks fs ++ [fw]),
       Three.mkScene ({[Three.nextId sc]} ∪ Three.children sc)
         (Three.disposedGeometries sc) (Three.disposedMaterials sc)
         (S (Three.nextId sc))) ∧
    points fw = Three.nextId sc ∧
    startTime fw = currentTime ∧
    lifetime fw =
      2.5 + rand (5 + 5 * (400 + Z.to_nat (Math_floor (rand 4%nat * 300))))%nat.
Proof.
  unfold spawn.
  destruct (foldl _ _ _) as [positions velocities].
  eexists. split; [reflexivity|]. repeat split.
Qed.

(** With [Math.random()] in [0,1) a spawned firework lives between 2.5
    and 3.5 seconds, so the division in [normalizedTime] is by a positive
    number. *)
Lemma spawn_lifetime_bounds (currentTime : R) (rand : nat → R) (fs : t)
    (sc : Three.Scene) :
  (∀ k, 0 <= rand k < 1) →
  ∃ fw, fireworks (spawn currentTime rand (fs, sc)).1 = fireworks fs ++ [fw] ∧
        2.5 <= lifetime fw < 3.5.
Proof.
  intros Hrand.
  destruct (spawn_spec currentTime rand fs sc) as (fw & -> & _ & _ & Hlife).
  exists fw. split; [reflexivity|]. rewrite Hlife.
  specialize (Hrand (5 + 5 * (400 + Z.to_nat (Math_floor (rand 4%nat * 300))))%nat).
  lra.
Qed.

Lemma NoDup_fmap_elem_inj {A B : Type} (f : A → B) (l : list A) (x y : A) :
  NoDup (f <$> l) → x ∈ l → y ∈ l → f x = f y → x = y.
Proof.
  induction l as [|a l IH]; intros Hnd Hx Hy Hf.
  - inversion Hx.
  - rewrite fmap_cons in Hnd. apply NoDup_cons in Hnd as [Hnotin Hnd].
    apply elem_of_cons in Hx as [-> | Hx]; apply elem_of_cons in Hy as [-> | Hy].
    + reflexivity.
    + exfalso. apply Hnotin. rewrite Hf. apply list_elem_of_fmap. eauto.
    + exfalso. apply Hnotin. rewrite <- Hf. apply list_elem_of_fmap. eauto.
    + apply IH; assumption.
Qed.

(** An object that is below the allocation mark and owned by no active
    firework is owned by none after any further spawns and updates. *)
Lemma gone_stays_gone (o : Three.ObjId) (ops : list Op) :
  ∀ st : t * Three.Scene,
  (o < Three.nextId st.2)%nat → o ∉ points <$> fireworks st.1 →
  o ∉ points <$> fireworks (runOps ops st).1.
Proof.
  unfold runOps.
  induction ops as [|op ops IH]; intros [fs sc] Hlt Hnot; [exact Hnot|].
  cbn [foldl]. apply IH.
  - destruct op as [tm rand | tm dt]; cbn [applyOp].
    + destruct (spawn_spec tm rand fs sc) as (fw & -> & _). cbn [snd Three.nextId] in *. lia.
    + rewrite update_spec. cbn [snd] in *.
      destruct (removeObjects_spec
                  (points <$> filter (expired tm) (fireworks fs)) sc)
        as (_ & _ & _ & ->). exact Hlt.
  - destruct op as [tm rand | tm dt]; cbn [applyOp].
    + destruct (spawn_spec tm rand fs sc) as (fw & -> & Hp & _).
      cbn [fst snd fireworks] in *. rewrite fmap_app. cbn [fmap list_fmap].
      intros [Hin | Hin]%elem_of_app; [contradiction|].
      apply list_elem_of_singleton in Hin. lia.
    + rewrite update_spec. cbn [fst fireworks] in *.
      intros (fw' & Ho & Hin)%list_elem_of_fmap.
      apply list_elem_of_fmap in Hin as (fw & -> & Hin).
      apply list_elem_of_filter in Hin as [_ Hin].
      apply Hnot. apply list_elem_of_fmap. exists fw. split; [exact Ho | exact Hin].
Qed.

(** [spawn] and [update] keep every firework on an object of its own. *)
Lemma wellFormed_applyOp (op : Op) (st : t * Three.Scene) :
  wellFormed st → wellFormed (applyOp st op).
Proof.
  destruct st as [fs sc]. intros [Hnd Hlt]. cbn [fst snd] in *.
  destruct op as [tm rand | tm dt]; cbn [applyOp].
  - destruct (spawn_spec tm rand fs sc) as (fw & -> & Hp & _).
    split; cbn [fst snd fireworks Three.nextId].
    + rewrite fmap_app. apply NoDup_app. split; [exact Hnd|].
      split; [|apply NoDup_singleton].
      intros o (g & -> & Hg)%list_elem_of_fmap Hin.
      apply list_elem_of_singleton in Hin. specialize (Hlt g Hg). lia.
    + intros g [Hg | Hg]%elem_of_app.
      * specialize (Hlt g Hg). lia.
      * apply list_elem_of_singleton in Hg as ->. lia.
  - rewrite update_spec. split; cbn [fst snd fireworks].
    + rewrite <- list_fmap_compose.
      eapply sublist_NoDup; [exact Hnd|].
      erewrite (list_fmap_ext (points ∘ advance tm) points); [|reflexivity..].
      apply fmap_sublist, sublist_filter.
    + destruct (removeObjects_spec
                  (points <$> filter (expired tm) (fireworks fs)) sc)
        as (_ & _ & _ & ->).
      intros g (fw & -> & Hin)%list_elem_of_fmap.
      apply list_elem_of_filter in Hin as [_ Hin]. exact (Hlt fw Hin).
Qed.

(** C10: after [update(time, dt)] every firework still active has a
    normalized time below 1; every firework whose normalized time had
    reached 1 is no longer active, its object is detached from the scene
    and its geometry and material are disposed; the active list is exactly
    the advanced live fireworks; and, when every firework owns an object of
    its own, no later sequence of spawns and updates has an active firework
    on the object of a removed one. *)
Theorem update_removes_expired (time dt : R) (fs : t) (sc : Three.Scene) :
  let fs' := (update time dt (fs, sc)).1 in
  let sc' := (update time dt (fs, sc)).2 in
  (∀ fw, fw ∈ fireworks fs' → normalizedTime time fw < 1) ∧
  (∀ fw, fw ∈ fireworks fs → normalizedTime time fw >= 1 →
     (fw ∉ fireworks fs') ∧
     (points fw ∉ Three.children sc') ∧
     (points fw ∈ Three.disposedGeometries sc') ∧
     (points fw ∈ Three.disposedMaterials sc')) ∧
  fireworks fs'
    = advance time <$> filter (fun fw => ¬ normalizedTime time fw >= 1) (fireworks fs) ∧
  (wellFormed (fs, sc) →
   ∀ fw ops, fw ∈ fireworks fs → normalizedTime time fw >= 1 →
     points fw ∉ points <$> fireworks (runOps ops (fs', sc')).1).
Proof.
  intros fs' sc'. unfold fs', sc'. clear fs' sc'.
  rewrite update_spec. cbn [fst snd fireworks].
  destruct (removeObjects_spec
              (points <$> filter (expired time) (fireworks fs)) sc)
    as (Hc & Hdg & Hdm & Hn).
  assert (Hlive : ∀ fw,
            fw ∈ advance time <$>
                   filter (fun fw => ¬ expired time fw) (fireworks fs) →
            normalizedTime time fw < 1).
  { intros fw (g & -> & Hin)%list_elem_of_fmap.
    apply list_elem_of_filter in Hin as [Hlive _]. unfold expired in Hlive.
    rewrite advance_normalizedTime. lra. }
  assert (Hids : ∀ fw, fw ∈ fireworks fs → normalizedTime time fw >= 1 →
            points fw ∈ (list_to_set (points <$> filter (expired time) (fireworks fs))
                         : gset Three.ObjId)).
  { intros fw Hin Hexp. apply elem_of_list_to_set, list_elem_of_fmap.
    exists fw. split; [reflexivity|]. apply list_elem_of_filter. split; assumption. }
  split; [exact Hlive|].
  split.
  { intros fw Hin Hexp. specialize (Hids fw Hin Hexp).
    split; [intros Hfw; specialize (Hlive fw Hfw); lra|].
    rewrite Hc, Hdg, Hdm. set_solver. }
  split; [reflexivity|].
  intros [Hnd Hlt] fw ops Hin Hexp. cbn [fst snd] in *.
  apply gone_stays_gone; cbn [fst snd fireworks].
  - rewrite Hn. exact (Hlt fw Hin).
  - intros (g' & Hp & Hg')%list_elem_of_fmap.
    apply list_elem_of_fmap in Hg' as (g & -> & Hg).
    apply list_elem_of_filter in Hg as [Hlive' Hg]. unfold expired in Hlive'.
    assert (fw = g) by (eapply NoDup_fmap_elem_inj; eauto).
    subst g. contradiction.
Qed.

Lemma update_removes_expired_witness :
  let old := mkFirework 0%nat [] [] false 1 0 2.5 0%Z in
  let sc := Three.mkScene {[0%nat]} ∅ ∅ 1%nat in
  points old ∉ points <$>
    fireworks (runOps [Spawn 3 (fun _ => 0); Update 4 0.016]
                 ((update 3 0.016 (mkSystem [old], sc)).1,
                  (update 3 0.016 (mkSystem [old], sc)).2)).1.
Proof.
  intros old sc.
  apply (proj2 (proj2 (proj2 (update_removes_expired 3 0.016 (mkSystem [old]) sc)))).
  - split; cbn [fst snd fireworks].
    + apply NoDup_singleton.
    + intros fw Hfw. apply list_elem_of_singleton in Hfw as ->. simpl. lia.
  - apply list_elem_of_singleton. reflexivity.
  - unfold normalizedTime, old. simpl. lra.
Defined.

End FireworkProperties.

(** ** Scene orchestrator *)
Section OrchestratorProperties.
Import Countdown Orchestrator.

Lemma countIn_app (p : Call → bool) (l k : list Call) :
  countIn p (l ++ k) = (countIn p l + countIn p k)%nat.
Proof. unfold countIn. rewrite filter_app, length_app. reflexivity. Qed.

Lemma countIn_cons (p : Call → bool) (c : Call) (l : list Call) :
  countIn p (c :: l) = ((if p c then 1 else 0) + countIn p l)%nat.
Proof.
  unfold countIn. rewrite filter_cons.
  destruct (p c); simpl; reflexivity.
Qed.

(** The calls one [updateProgress] adds. *)
Lemma updateProgress_calls (p : R) (ph : Phase) (time : R) (s : t) :
  calls (updateProgress p ph time s)
  = calls s
      ++ (if enters climax (phase s) ph then climaxCalls time else [])
      ++ (if enters celebration (phase s) ph then celebrationCalls else []).
Proof.
  unfold updateProgress, enters.
  destruct ph, (phase s); cbn -[seq]; rewrite ?app_nil_r; reflexivity.
Qed.

Lemma updateProgress_phase (p : R) (ph : Phase) (time : R) (s : t) :
  phase (updateProgress p ph time s) = ph ∧
  isDisposed (updateProgress p ph time s) = isDisposed s ∧
  fireworkSystem (updateProgress p ph time s) = fireworkSystem s.
Proof.
  unfold updateProgress.
  destruct ph, (phase s); cbn -[seq]; repeat split.
Qed.

Lemma weak_flash_not_climax : isClimaxFlash (FlashTrigger 0.3) = false.
Proof. unfold isClimaxFlash. apply bool_decide_eq_false. lra. Qed.

Lemma climaxCalls_counts (time : R) :
  countIn isBurstTrigger (climaxCalls time) = 1%nat ∧
  countIn isShockwaveTrigger (climaxCalls time) = 1%nat ∧
  countIn isClimaxFlash (climaxCalls time) = 1%nat ∧
  countIn isSetTimeout (climaxCalls time) = 0%nat ∧
  countIn isRequestAnimationFrame (climaxCalls time) = 0%nat ∧
  countIn isFireworkSpawn (climaxCalls time) = 0%nat.
Proof.
  unfold climaxCalls. rewrite !countIn_cons.
  assert (H : isClimaxFlash (FlashTrigger 1.0) = true)
    by (unfold isClimaxFlash; apply bool_decide_eq_true; reflexivity).
  rewrite H. repeat split.
Qed.

Lemma celebrationCalls_counts :
  countIn isBurstTrigger celebrationCalls = 0%nat ∧
  countIn isShockwaveTrigger celebrationCalls = 0%nat ∧
  countIn isClimaxFlash celebrationCalls = 0%nat ∧
  countIn isSetTimeout celebrationCalls = 5%nat ∧
  countIn isRequestAnimationFrame celebrationCalls = 0%nat ∧
  countIn isFireworkSpawn celebrationCalls = 0%nat.
Proof. unfold celebrationCalls. cbn [seq fmap list_fmap]. repeat split. Qed.

(** The calls the celebration branch of [animate] adds are spawns and
    weak flashes. *)
Lemma celebrationSpawn_calls (f : Frame) (s : t)
    (fws : FireworkSystem.t * Three.Scene) :
  let cs := (celebrationSpawn f s fws).2 in
  countIn isBurstTrigger cs = 0%nat ∧
  countIn isShockwaveTrigger cs = 0%nat ∧
  countIn isClimaxFlash cs = 0%nat ∧
  countIn isSetTimeout cs = 0%nat ∧
  countIn isRequestAnimationFrame cs = 0%nat.
Proof.
  unfold celebrationSpawn.
  case_bool_decide; [|repeat split].
  case_decide; [|repeat split].
  case_decide; cbn [snd]; rewrite !countIn_cons, ?weak_flash_not_climax;
    repeat split.
Qed.

(** A run of [animate] on a live scene: the stored phase and the disposed
    flag are kept, one frame is requested, no trigger is fired. *)
Lemma animate_live (f : Frame) (s s' : t) :
  isDisposed s = false → animate f s = Some s' →
  phase s' = phase s ∧ isDisposed s' = false ∧
  ∃ cs, calls s' = calls s ++ cs ∧
        countIn isRequestAnimationFrame cs = 1%nat ∧
        countIn isBurstTrigger cs = 0%nat ∧
        countIn isShockwaveTrigger cs = 0%nat ∧
        countIn isClimaxFlash cs = 0%nat ∧
        countIn isSetTimeout cs = 0%nat.
Proof.
  intros Hlive. unfold animate. rewrite Hlive.
  destruct (Ease.dramaticRamp (progress s)) as [intensity|]; [|discriminate].
  cbn [mbind option_bind].
  destruct (smoothLerp (smoothProgress s) _ _ _) as [sp|]; [|discriminate].
  cbn [mbind option_bind].
  destruct (Math_pow _ 8) as [hb|]; [|discriminate].
  cbn [mbind option_bind].
  destruct (smoothLerp (shakeIntensity s) _ _ _) as [sh|]; [|discriminate].
  cbn [mbind option_bind].
  pose proof (celebrationSpawn_calls f s
                (FireworkSystem.update (elapsedTime f) (Math_min (delta f) 0.1)
                   (fireworkSystem s, scene s))) as Hcs.
  destruct (celebrationSpawn f s _) as [[[fws sc] last] spawnCalls].
  cbn [snd] in Hcs. destruct Hcs as (Hb & Hsw & Hfl & Hst & Hraf).
  intros [= <-]. cbn [phase isDisposed calls].
  split; [reflexivity|]. split; [reflexivity|].
  eexists. split; [reflexivity|].
  cbn [app]. rewrite !countIn_cons, !countIn_app, Hb, Hsw, Hfl, Hst, Hraf.
  repeat split.
Qed.

(** The numeric steps of [animate] always have a value. *)
Lemma dramaticRamp_total (x : R) : ∃ v, Ease.dramaticRamp x = Some v.
Proof.
  unfold Ease.dramaticRamp. case_decide; [eauto|].
  destruct (Req_dec x 0.83) as [-> | Hne].
  - replace ((0.83 - 0.83) / 0.17) with 0 by lra.
    rewrite Math_pow_base_0 by lra. simpl. eauto.
  - rewrite Math_pow_pos by lra. simpl. eauto.
Qed.

Lemma smoothLerp_total (current target speed dt : R) :
  speed < 1 → ∃ v, smoothLerp current target speed dt = Some v.
Proof.
  intros Hs. unfold smoothLerp.
  destruct (Req_dec (dt * 60) 0) as [H0 | H0].
  - rewrite Math_pow_exp_0 by exact H0. simpl. eauto.
  - rewrite Math_pow_pos by lra. simpl. eauto.
Qed.

Lemma Math_pow_8_total (b : R) : ∃ v, Math_pow b 8 = Some v.
Proof.
  destruct (Rtotal_order b 0) as [Hneg | [-> | Hpos]].
  - rewrite (Math_pow_neg_integer b 8) by (lra || lia). eauto.
  - rewrite Math_pow_base_0 by lra. eauto.
  - rewrite Math_pow_pos by lra. eauto.
Qed.

Lemma animate_total (f : Frame) (s : t) : ∃ s', animate f s = Some s'.
Proof.
  unfold animate. destruct (isDisposed s); [eauto|].
  destruct (dramaticRamp_total (progress s)) as [intensity ->].
  cbn [mbind option_bind].
  destruct (smoothLerp_total (smoothProgress s) (progress s) 0.1
              (Math_min (delta f) 0.1)) as [sp ->]; [lra|].
  cbn [mbind option_bind].
  match goal with
  | |- context [Math_pow ?b 8] => destruct (Math_pow_8_total b) as [hb ->]
  end.
  cbn [mbind option_bind].
  destruct (smoothLerp_total (shakeIntensity s) (targetShakeIntensity s) 0.1
              (Math_min (delta f) 0.1)) as [sh ->]; [lra|].
  cbn [mbind option_bind].
  destruct (celebrationSpawn f s _) as [[[fws sc] last] spawnCalls].
  eauto.
Qed.

(** Once the disposed flag is set, the frame callback and the deferred
    spawn callback return at once. *)
Lemma animate_disposed (f : Frame) (s : t) :
  isDisposed s = true → animate f s = Some s.
Proof. intros H. unfold animate. rewrite H. reflexivity. Qed.

Lemma deferredSpawn_disposed (time : R) (rand : nat → R) (s : t) :
  isDisposed s = true → deferredSpawn time rand s = s.
Proof. intros H. unfold deferredSpawn. rewrite H. reflexivity. Qed.

Lemma dispose_spec (s : t) :
  isDisposed (dispose s) = true ∧
  FireworkSystem.fireworks (fireworkSystem (dispose s)) = [] ∧
  BurstSystem.layers (burstSystem (dispose s)) = [] ∧
  phase (dispose s) = phase s ∧
  ∃ cs, calls (dispose s) = calls s ++ cs ∧
        countIn isRequestAnimationFrame cs = 0%nat ∧
        countIn isFireworkSpawn cs = 0%nat ∧
        countIn isBurstTrigger cs = 0%nat ∧
        countIn isShockwaveTrigger cs = 0%nat ∧
        countIn isClimaxFlash cs = 0%nat ∧
        countIn isSetTimeout cs = 0%nat.
Proof.
  unfold dispose. cbn [BurstSystem.dispose FireworkSystem.dispose].
  cbn [isDisposed fireworkSystem burstSystem phase calls
       FireworkSystem.fireworks BurstSystem.layers].
  repeat split. eexists. split; [reflexivity|].
  destruct (animationFrameId s); destruct (canvasAttached s); repeat split.
Qed.


(** The phase stored after an event. *)
Lemma step_phase (e : Event) (s s' : t) :
  step e s = Some s' →
  phase s' = match e with EvUpdateProgress _ ph _ => ph | _ => phase s end.
Proof.
  destruct e as [p ph time | f | time rand | |]; cbn [step].
  - intros [= <-]. apply updateProgress_phase.
  - destruct (isDisposed s) eqn:Hd.
    + rewrite animate_disposed by exact Hd. intros [= <-]. reflexivity.
    + intros H. apply (animate_live f s s' Hd H).
  - intros [= <-]. unfold deferredSpawn.
    destruct (isDisposed s); [reflexivity|].
    destruct (FireworkSystem.spawn _ _ _). reflexivity.
  - intros [= <-]. unfold handleResize. destruct (isDisposed s); reflexivity.
  - intros [= <-]. apply dispose_spec.
Qed.

(** What one event adds to the count of the calls of the two triggers:
    only an [updateProgress] that enters the phase adds any. *)
Lemma step_trigger_counts (e : Event) (s s' : t) :
  step e s = Some s' →
  let climaxEntry :=
    match e with
    | EvUpdateProgress _ ph _ => if enters climax (phase s) ph then 1%nat else 0%nat
    | _ => 0%nat
    end in
  let celebrationEntry :=
    match e with
    | EvUpdateProgress _ ph _ => if enters celebration (phase s) ph then 1%nat else 0%nat
    | _ => 0%nat
    end in
  countCalls isBurstTrigger s' = (countCalls isBurstTrigger s + climaxEntry)%nat ∧
  countCalls isShockwaveTrigger s' = (countCalls isShockwaveTrigger s + climaxEntry)%nat ∧
  countCalls isClimaxFlash s' = (countCalls isClimaxFlash s + climaxEntry)%nat ∧
  countCalls isSetTimeout s' = (countCalls isSetTimeout s + 5 * celebrationEntry)%nat.
Proof.
  unfold countCalls.
  destruct e as [p ph time | f | time rand | |]; cbn [step].
  - intros [= <-]. rewrite updateProgress_calls, !countIn_app.
    pose proof (climaxCalls_counts time) as (Hb & Hs & Hf & Ht & _).
    pose proof celebrationCalls_counts as (Hb' & Hs' & Hf' & Ht' & _).
    destruct (enters climax (phase s) ph), (enters celebration (phase s) ph);
      rewrite ?Hb, ?Hs, ?Hf, ?Ht, ?Hb', ?Hs', ?Hf', ?Ht';
      cbn [countIn filter list_filter length]; repeat split; lia.
  - destruct (isDisposed s) eqn:Hd.
    + rewrite animate_disposed by exact Hd. intros [= <-]. repeat split; lia.
    + intros H.
      destruct (animate_live f s s' Hd H)
        as (_ & _ & cs & -> & _ & Hb & Hs & Hf & Ht).
      rewrite !countIn_app, Hb, Hs, Hf, Ht. repeat split; lia.
  - intros [= <-]. unfold deferredSpawn.
    destruct (isDisposed s); [repeat split; lia|].
    destruct (FireworkSystem.spawn _ _ _). cbn [calls].
    rewrite !countIn_app, !countIn_cons. cbn. repeat split; lia.
  - intros [= <-]. unfold handleResize.
    destruct (isDisposed s); [repeat split; lia|]. cbn [calls].
    rewrite !countIn_app, !countIn_cons. cbn. repeat split; lia.
  - intros [= <-].
    destruct (dispose_spec s) as (_ & _ & _ & _ & cs & -> & _ & _ & Hb & Hs & Hf & Ht).
    rewrite !countIn_app, Hb, Hs, Hf, Ht. repeat split; lia.
Qed.

(** Over any sequence of events, the triggers fire as often as the
    sequence enters their phase. *)
Lemma run_trigger_counts (es : list Event) :
  ∀ s s', run es s = Some s' →
  countCalls isBurstTrigger s'
    = (countCalls isBurstTrigger s + entries climax (phase s) es)%nat ∧
  countCalls isShockwaveTrigger s'
    = (countCalls isShockwaveTrigger s + entries climax (phase s) es)%nat ∧
  countCalls isClimaxFlash s'
    = (countCalls isClimaxFlash s + entries climax (phase s) es)%nat ∧
  countCalls isSetTimeout s'
    = (countCalls isSetTimeout s + 5 * entries celebration (phase s) es)%nat.
Proof.
  induction es as [|e es IH]; intros s s'; cbn [run].
  - intros [= <-]. cbn [entries]. repeat split; lia.
  - destruct (step e s) as [s1|] eqn:Hstep; [|discriminate].
    cbn [mbind option_bind]. intros Hrun.
    destruct (IH s1 s' Hrun) as (Hb & Hs & Hf & Ht).
    destruct (step_trigger_counts e s s1 Hstep) as (Hb1 & Hs1 & Hf1 & Ht1).
    pose proof (step_phase e s s1 Hstep) as Hph.
    rewrite Hb, Hs, Hf, Ht, Hb1, Hs1, Hf1, Ht1, Hph.
    destruct e; cbn [entries]; repeat split; lia.
Qed.

(** A sequence of updates that all carry the phase climax enters climax
    once if the stored phase was another one, and never otherwise. *)
Lemma entries_staying_in_climax (us : list (R * R)) (prev : Phase) :
  us ≠ [] →
  entries climax prev ((fun u => EvUpdateProgress u.1 climax u.2) <$> us)
  = if bool_decide (prev = climax) then 0%nat else 1%nat.
Proof.
  assert (Hstay : ∀ l : list (R * R),
            entries climax climax ((fun u => EvUpdateProgress u.1 climax u.2) <$> l)
            = 0%nat).
  { induction l as [|u l IHl]; [reflexivity|].
    cbn [fmap list_fmap entries]. fold (@fmap list _ _ _ (fun u : R * R => EvUpdateProgress u.1 climax u.2) l).
    rewrite IHl. reflexivity. }
  destruct us as [|u us]; [contradiction|]. intros _.
  cbn [fmap list_fmap entries].
  fold (@fmap list _ _ _ (fun u : R * R => EvUpdateProgress u.1 climax u.2) us).
  rewrite Hstay. unfold enters.
  destruct prev; reflexivity.
Qed.


Lemma run_updates_total (es : list Event) :
  Forall (fun e => ∃ p ph time, e = EvUpdateProgress p ph time) es →
  ∀ s, ∃ s', run es s = Some s'.
Proof.
  induction 1 as [|e es (p & ph & time & ->) _ IH]; intros s; cbn [run step].
  - eauto.
  - cbn [mbind option_bind]. apply IH.
Qed.

Lemma run_climax_updates_phase (us : list (R * R)) :
  ∀ s s', us ≠ [] ∨ phase s = climax →
  run ((fun u => EvUpdateProgress u.1 climax u.2) <$> us) s = Some s' →
  phase s' = climax.
Proof.
  induction us as [|u us IH]; intros s s' Hor.
  - cbn [fmap list_fmap run]. intros [= <-].
    destruct Hor as [Hne | Hph]; [contradiction | exact Hph].
  - cbn [fmap list_fmap run step mbind option_bind].
    apply IH. right. apply updateProgress_phase.
Qed.

(** C1: an [updateProgress] adds the calls of the climax sequence exactly
    when the new phase is climax and the stored one was not, and the
    deferred spawns of the celebration exactly when the new phase is
    celebration and the stored one was not; the same phase again adds no
    call.  Over updates that keep the phase at climax the sequence (burst,
    shockwaves, flash) fires once if the scene was not in climax and not at
    all if it was; over any sequence of events it fires as often as an
    update moves from another phase into climax. *)
Theorem updateProgress_edge_triggered :
  (∀ s p ph time,
     calls (updateProgress p ph time s)
     = calls s
         ++ (if enters climax (phase s) ph then climaxCalls time else [])
         ++ (if enters celebration (phase s) ph then celebrationCalls else [])) ∧
  (∀ target prev ph, enters target prev ph = true ↔ ph = target ∧ prev ≠ target) ∧
  (∀ s p ph time, phase (updateProgress p ph time s) = ph) ∧
  (∀ s p time, calls (updateProgress p (phase s) time s) = calls s) ∧
  (∀ s (us : list (R * R)), us ≠ [] →
     ∃ s', run ((fun u => EvUpdateProgress u.1 climax u.2) <$> us) s = Some s' ∧
           phase s' = climax ∧
           let fired := if bool_decide (phase s = climax) then 0%nat else 1%nat in
           countCalls isBurstTrigger s' = (countCalls isBurstTrigger s + fired)%nat ∧
           countCalls isShockwaveTrigger s'
             = (countCalls isShockwaveTrigger s + fired)%nat ∧
           countCalls isClimaxFlash s' = (countCalls isClimaxFlash s + fired)%nat) ∧
  (∀ es s s', run es s = Some s' →
     countCalls isBurstTrigger s'
       = (countCalls isBurstTrigger s + entries climax (phase s) es)%nat ∧
     countCalls isShockwaveTrigger s'
       = (countCalls isShockwaveTrigger s + entries climax (phase s) es)%nat ∧
     countCalls isClimaxFlash s'
       = (countCalls isClimaxFlash s + entries climax (phase s) es)%nat ∧
     countCalls isSetTimeout s'
       = (countCalls isSetTimeout s + 5 * entries celebration (phase s) es)%nat).
Proof.
  split; [intros; apply updateProgress_calls|].
  split.
  { intros target prev ph. unfold enters.
    rewrite andb_true_iff, !bool_decide_eq_true. reflexivity. }
  split; [intros; apply updateProgress_phase|].
  split.
  { intros s p time. rewrite updateProgress_calls.
    assert (H : ∀ target, enters target (phase s) (phase s) = false).
    { intros target. unfold enters. destruct (phase s), target; reflexivity. }
    rewrite !H, !app_nil_r. reflexivity. }
  split; [|exact run_trigger_counts].
  intros s us Hne.
  destruct (run_updates_total
              ((fun u => EvUpdateProgress u.1 climax u.2) <$> us)) with (s := s)
    as [s' Hrun].
  { apply Forall_fmap, Forall_forall. intros u _. simpl. eauto. }
  exists s'. split; [exact Hrun|].
  split; [apply (run_climax_updates_phase us s s'); [left; exact Hne | exact Hrun]|].
  destruct (run_trigger_counts _ s s' Hrun) as (Hb & Hs & Hf & _).
  rewrite entries_staying_in_climax in Hb, Hs, Hf by exact Hne.
  cbv zeta. repeat split; assumption.
Qed.

Lemma updateProgress_edge_triggered_witness :
  let s := mk Three.empty (BurstSystem.mkSystem []) FireworkSystem.new
              0 dormant 0 None None 0 0 0 0 0 None false true [] in
  ∃ s', run ((fun u => EvUpdateProgress u.1 climax u.2) <$> [(1, 10); (1, 10.05)]) s
        = Some s' ∧
        phase s' = climax ∧
        let fired := if bool_decide (phase s = climax) then 0%nat else 1%nat in
        countCalls isBurstTrigger s' = (countCalls isBurstTrigger s + fired)%nat ∧
        countCalls isShockwaveTrigger s'
          = (countCalls isShockwaveTrigger s + fired)%nat ∧
        countCalls isClimaxFlash s' = (countCalls isClimaxFlash s + fired)%nat.
Proof.
  intros s.
  apply (proj1 (proj2 (proj2 (proj2 (proj2 updateProgress_edge_triggered)))) s).
  discriminate.
Defined.

(** C8: [dispose] sets the disposed flag.  From then on a run of the frame
    callback [animate] returns the scene as it is: nothing is updated, no
    frame is requested, no call is made; a deferred spawn callback returns
    the scene as it is and spawns nothing; so any sequence of these
    callbacks leaves a disposed scene unchanged.  Whatever else is run on a
    disposed scene, the flag stays set, no further frame is requested and no
    firework is spawned.  (A live scene requests one frame per run.) *)
Theorem disposed_scene_does_no_work :
  (∀ s, isDisposed (dispose s) = true) ∧
  (∀ s f, isDisposed s = true → animate f s = Some s) ∧
  (∀ s time rand, isDisposed s = true → deferredSpawn time rand s = s) ∧
  (∀ s es, Forall (fun e => isCallback e = true) es →
           run es (dispose s) = Some (dispose s)) ∧
  (∀ s es, ∃ s', run es (dispose s) = Some s' ∧
                 isDisposed s' = true ∧
                 FireworkSystem.fireworks (fireworkSystem s') = [] ∧
                 countCalls isRequestAnimationFrame s'
                   = countCalls isRequestAnimationFrame (dispose s) ∧
                 countCalls isFireworkSpawn s'
                   = countCalls isFireworkSpawn (dispose s)) ∧
  (∀ s f, isDisposed s = false →
          ∃ s', animate f s = Some s' ∧
                countCalls isRequestAnimationFrame s'
                  = S (countCalls isRequestAnimationFrame s)).
Proof.
  split; [intros s; apply dispose_spec|].
  split; [intros s f; apply animate_disposed|].
  split; [intros s time rand; apply deferredSpawn_disposed|].
  split.
  { intros s es Hes.
    assert (Hd : isDisposed (dispose s) = true) by apply dispose_spec.
    revert Hd. generalize (dispose s). clear s.
    induction Hes as [|e es He _ IH]; intros s Hd; [reflexivity|].
    cbn [run].
    destruct e as [p ph time | f | time rand | |]; try discriminate He; cbn [step].
    - rewrite animate_disposed by exact Hd. cbn [mbind option_bind]. apply IH, Hd.
    - rewrite deferredSpawn_disposed by exact Hd. cbn [mbind option_bind].
      apply IH, Hd. }
  split.
  { intros s es.
    assert (Hinv : isDisposed (dispose s) = true ∧
                   FireworkSystem.fireworks (fireworkSystem (dispose s)) = [])
      by (split; apply dispose_spec).
    revert Hinv. generalize (dispose s). clear s.
    induction es as [|e es IH]; intros s [Hd Hfw].
    - exists s. repeat split; assumption.
    - assert (Hstep : ∃ s1, step e s = Some s1 ∧ isDisposed s1 = true ∧
                FireworkSystem.fireworks (fireworkSystem s1) = [] ∧
                countCalls isRequestAnimationFrame s1
                  = countCalls isRequestAnimationFrame s ∧
                countCalls isFireworkSpawn s1 = countCalls isFireworkSpawn s).
      { destruct e as [p ph time | f | time rand | |]; cbn [step].
        - eexists. split; [reflexivity|].
          destruct (updateProgress_phase p ph time s) as (_ & -> & ->).
          split; [exact Hd|]. split; [exact Hfw|].
          unfold countCalls. rewrite updateProgress_calls, !countIn_app.
          pose proof (climaxCalls_counts time) as (_ & _ & _ & _ & Hr & Hp).
          pose proof celebrationCalls_counts as (_ & _ & _ & _ & Hr' & Hp').
          destruct (enters climax (phase s) ph), (enters celebration (phase s) ph);
            rewrite ?Hr, ?Hp, ?Hr', ?Hp'; cbn [countIn filter list_filter length];
            split; lia.
        - rewrite animate_disposed by exact Hd.
          exists s. repeat split; assumption.
        - rewrite deferredSpawn_disposed by exact Hd.
          exists s. repeat split; assumption.
        - unfold handleResize. rewrite Hd.
          exists s. repeat split; assumption.
        - eexists. split; [reflexivity|].
          destruct (dispose_spec s) as (Hd' & Hfw' & _ & _ & cs & Hcs & Hraf & Hsp & _).
          split; [exact Hd'|]. split; [exact Hfw'|].
          unfold countCalls. rewrite Hcs, !countIn_app, Hraf, Hsp. split; lia. }
      destruct Hstep as (s1 & Hs1 & Hd1 & Hfw1 & Hraf1 & Hsp1).
      destruct (IH s1 (conj Hd1 Hfw1)) as (s' & Hrun & Hd' & Hfw' & Hraf' & Hsp').
      exists s'. cbn [run]. rewrite Hs1. cbn [mbind option_bind].
      split; [exact Hrun|]. split; [exact Hd'|]. split; [exact Hfw'|].
      split; congruence. }
  intros s f Hlive.
  destruct (animate_total f s) as [s' Hrun].
  exists s'. split; [exact Hrun|].
  destruct (animate_live f s s' Hlive Hrun) as (_ & _ & cs & Hcs & Hraf & _).
  unfold countCalls. rewrite Hcs, countIn_app, Hraf. lia.
Qed.

Lemma disposed_scene_does_no_work_witness :
  let s := dispose (mk Three.empty (BurstSystem.mkSystem []) FireworkSystem.new
                       0 final 0 None None 0 0 0 0 0 (Some 7%nat) false true []) in
  let f := mkFrame 1 2 0.016 0.016 0.5 0.5 (fun _ => 0) in
  animate f s = Some s ∧ deferredSpawn 2 (fun _ => 0) s = s.
Proof.
  intros s f. split.
  - apply (proj1 (proj2 disposed_scene_does_no_work) s f).
    apply (proj1 disposed_scene_does_no_work).
  - apply (proj1 (proj2 (proj2 disposed_scene_does_no_work)) s 2 (fun _ => 0)).
    apply (proj1 disposed_scene_does_no_work).
Defined.

End OrchestratorProperties.

(* ===================================================================== *)
(** * Further properties *)
(* ===================================================================== *)

(** ** Countdown state *)
Section CountdownFurther.
Import Countdown.

Lemma Int_part_nonneg (x : R) : 0 <= x → (0 <= Int_part x)%Z.
Proof.
  intros Hx. destruct (base_Int_part x) as [_ Hlt].
  destruct (Z_lt_le_dec (Int_part x) 0) as [Hneg | Hpos]; [|exact Hpos].
  exfalso. assert (Int_part x <= -1)%Z as Hle by lia.
  apply IZR_le in Hle. lra.
Qed.

(** X1: for a non-negative remaining time the display is a mixed-radix
    decomposition: minutes and seconds are below 60, the milliseconds are
    in [0,1000), and hours, minutes, seconds and milliseconds add up to the
    remaining time again. *)
Theorem formatTimeDisplay_decomposes (remaining : R) :
  0 <= remaining →
  let d := formatTimeDisplay remaining in
  (0 <= hours d)%Z ∧ (0 <= minutes d < 60)%Z ∧ (0 <= seconds d < 60)%Z ∧
  0 <= milliseconds d < 1000 ∧
  remaining
  = IZR (hours d * 3600 + minutes d * 60 + seconds d) * 1000 + milliseconds d.
Proof.
  intros Hr. cbn [formatTimeDisplay hours minutes seconds milliseconds].
  unfold Math_floor, Math_max, js_rem, trunc.
  assert (Hq : 0 <= remaining / 1000) by lra.
  pose proof (Int_part_nonneg _ Hq) as HT.
  destruct (base_Int_part (remaining / 1000)) as [Hlo Hhi].
  set (T := Int_part (remaining / 1000)) in *.
  rewrite Z.max_r by exact HT.
  rewrite decide_True by exact Hq. fold T.
  assert (Hms : 0 <= remaining - 1000 * IZR T < 1000) by lra.
  rewrite Rmax_right by lra.
  assert (Hz : (0 <= T / 3600 ∧ 0 <= T mod 3600 / 60 < 60 ∧ 0 <= T mod 60 < 60 ∧
                T / 3600 * 3600 + T mod 3600 / 60 * 60 + T mod 60 = T)%Z)
    by (Z.to_euclidean_division_equations; lia).
  destruct Hz as (Hh & Hm & Hs & Hsum).
  repeat split; try lia; try lra.
  rewrite Hsum. lra.
Qed.

Lemma formatTimeDisplay_decomposes_witness :
  let d := formatTimeDisplay 3661500 in
  (0 <= hours d)%Z ∧ (0 <= minutes d < 60)%Z ∧ (0 <= seconds d < 60)%Z ∧
  0 <= milliseconds d < 1000 ∧
  3661500
  = IZR (hours d * 3600 + minutes d * 60 + seconds d) * 1000 + milliseconds d.
Proof. apply (formatTimeDisplay_decomposes 3661500). lra. Defined.

(** X2: once the target has passed, the display shows zero in every
    field. *)
Theorem formatTimeDisplay_past_is_zero (remaining : R) :
  remaining < 0 →
  formatTimeDisplay remaining
  = {| hours := 0; minutes := 0; seconds := 0; milliseconds := 0 |}.
Proof.
  intros Hr. unfold formatTimeDisplay, Math_floor, Math_max, js_rem, trunc.
  assert (Hq : remaining / 1000 < 0) by lra.
  assert (HT : (Int_part (remaining / 1000) < 0)%Z).
  { destruct (base_Int_part (remaining / 1000)) as [Hlo _].
    apply lt_IZR. lra. }
  rewrite Z.max_l by lia.
  rewrite decide_False by lra.
  assert (Hneg : 0 <= - (remaining / 1000)) by lra.
  destruct (base_Int_part (- (remaining / 1000))) as [Hlo _].
  rewrite opp_IZR.
  f_equal. apply Rmax_left. lra.
Qed.

Lemma formatTimeDisplay_past_is_zero_witness :
  formatTimeDisplay (-5000)
  = {| hours := 0; minutes := 0; seconds := 0; milliseconds := 0 |}.
Proof. apply (formatTimeDisplay_past_is_zero (-5000)). lra. Defined.

(** X3: the fields of a countdown state agree with each other: the target
    has passed exactly when the phase is climax or celebration, and exactly
    when the progress is 1; the progress is 0 exactly when at least an hour
    remains; the phase dormant forces progress 0. *)
Theorem calculateState_consistent (targetDate now : R) :
  let st := calculateState targetDate now in
  (isPast st = true ↔ phase st = climax ∨ phase st = celebration) ∧
  (isPast st = true ↔ progress st = 1) ∧
  (progress st = 0 ↔ timeRemaining st >= 3600000) ∧
  (phase st = dormant → progress st = 0).
Proof.
  cbn [calculateState isPast phase progress timeRemaining].
  set (remaining := targetDate - now).
  pose proof (calculatePhase_intervals remaining) as Hph.
  unfold Math_max, Math_min.
  replace (60 * 60 * 1000) with 3600000 by lra.
  rewrite bool_decide_eq_true.
  assert (Hp1 : Rmax 0 (Rmin 1 (1 - remaining / 3600000)) = 1 ↔ remaining <= 0).
  { unfold Rmax, Rmin. repeat destruct (Rle_dec _ _); split; intros; lra. }
  assert (Hp0 : Rmax 0 (Rmin 1 (1 - remaining / 3600000)) = 0
                ↔ remaining >= 3600000).
  { unfold Rmax, Rmin. repeat destruct (Rle_dec _ _); split; intros; lra. }
  split.
  { destruct (calculatePhase remaining); split;
      try (intros [H | H]; discriminate H); intros; try lra; auto. }
  split; [symmetry; exact Hp1|].
  split; [exact Hp0|].
  intros Hd. apply Hp0. rewrite Hd in Hph. lra.
Qed.

(** X4: as the clock advances toward and past a fixed target, the progress
    never decreases, the phase never moves back in the ordering dormant <
    ... < celebration, and a target once passed stays passed. *)
Theorem calculateState_monotone_in_time (targetDate now1 now2 : R) :
  now1 <= now2 →
  let st1 := calculateState targetDate now1 in
  let st2 := calculateState targetDate now2 in
  progress st1 <= progress st2 ∧
  (phase_rank (phase st1) <= phase_rank (phase st2))%nat ∧
  (isPast st1 = true → isPast st2 = true).
Proof.
  intros Hnow. cbn [calculateState isPast phase progress].
  pose proof (calculatePhase_intervals (targetDate - now1)) as H1.
  pose proof (calculatePhase_intervals (targetDate - now2)) as H2.
  split.
  { unfold Math_max, Math_min, Rmax, Rmin.
    replace (60 * 60 * 1000) with 3600000 by lra.
    repeat destruct (Rle_dec _ _); lra. }
  split.
  { destruct (calculatePhase (targetDate - now1)),
             (calculatePhase (targetDate - now2)); simpl; try lia; lra. }
  rewrite !bool_decide_eq_true. lra.
Qed.

Lemma calculateState_monotone_in_time_witness :
  let st1 := calculateState 3600000 0 in
  let st2 := calculateState 3600000 3599000 in
  progress st1 <= progress st2 ∧
  (phase_rank (phase st1) <= phase_rank (phase st2))%nat ∧
  (isPast st1 = true → isPast st2 = true).
Proof. apply (calculateState_monotone_in_time 3600000 0 3599000). lra. Defined.

End CountdownFurther.

(** ** Math utilities *)
Section MathFurther.
Import Notions.

(** X5: with [min <= max], [clamp] returns a value of [[min, max]], returns
    a value of that interval unchanged and is idempotent; with the bounds
    swapped ([max < min]) it returns [min] whatever the value. *)
Theorem clamp_range (value min max : R) :
  (min <= max →
     min <= clamp value min max <= max ∧
     (min <= value <= max → clamp value min max = value) ∧
     clamp (clamp value min max) min max = clamp value min max) ∧
  (max < min → clamp value min max = min).
Proof.
  unfold clamp, Math_max, Math_min, Rmax, Rmin.
  split; intros H; repeat destruct (Rle_dec _ _); repeat split; intros; lra.
Qed.

Lemma clamp_range_witness :
  clamp 1.5 0 1 = 1 ∧ clamp 0.5 1 0 = 1.
Proof.
  split.
  - assert (H : 0 <= clamp 1.5 0 1 <= 1)
      by (apply (proj1 (clamp_range 1.5 0 1)); lra).
    unfold clamp, Math_max, Math_min, Rmax, Rmin in *.
    repeat destruct (Rle_dec _ _); lra.
  - apply (proj2 (clamp_range 0.5 1 0)). lra.
Defined.

Lemma exp_le (x y : R) : x <= y → exp x <= exp y.
Proof.
  intros [Hlt | ->]; [left; apply exp_increasing; exact Hlt | right; reflexivity].
Qed.

Lemma Rpower_antitone_exponent (b e1 e2 : R) :
  0 < b <= 1 → e1 <= e2 → Rpower b e2 <= Rpower b e1.
Proof.
  intros [Hb0 Hb1] He. unfold Rpower. apply exp_le.
  assert (Hln : ln b <= 0).
  { destruct Hb1 as [Hlt | ->]; [|rewrite ln_1; lra].
    left. rewrite <- ln_1. apply ln_increasing; lra. }
  nra.
Qed.

(** Adding exponents multiplies powers, for a base and exponents that are
    not negative. *)
Lemma Math_pow_add_exponents (b e1 e2 p1 p2 : R) :
  0 <= b → 0 <= e1 → 0 <= e2 →
  Math_pow b e1 = Some p1 → Math_pow b e2 = Some p2 →
  Math_pow b (e1 + e2) = Some (p1 * p2).
Proof.
  intros Hb He1 He2 H1 H2.
  destruct (Req_dec e1 0) as [-> | Hn1].
  { rewrite Math_pow_exp_0 in H1 by reflexivity. injection H1 as <-.
    rewrite Rplus_0_l, H2. f_equal. lra. }
  destruct (Req_dec e2 0) as [-> | Hn2].
  { rewrite Math_pow_exp_0 in H2 by reflexivity. injection H2 as <-.
    rewrite Rplus_0_r, H1. f_equal. lra. }
  destruct (Req_dec b 0) as [-> | Hb0].
  - rewrite Math_pow_base_0 in H1, H2 by lra. injection H1 as <-. injection H2 as <-.
    rewrite Math_pow_base_0 by lra. f_equal. lra.
  - rewrite Math_pow_pos in H1, H2 by lra. injection H1 as <-. injection H2 as <-.
    rewrite Math_pow_pos by lra. f_equal. apply Rpower_plus.
Qed.

(** A smaller base or a larger exponent gives a smaller power, within
    [0,1]. *)
Lemma Math_pow_antitone (b1 b2 e1 e2 p1 p2 : R) :
  0 <= b2 <= b1 → b1 <= 1 → 0 <= e1 <= e2 →
  Math_pow b1 e1 = Some p1 → Math_pow b2 e2 = Some p2 →
  0 <= p2 <= p1.
Proof.
  intros Hb Hb1 He H1 H2.
  destruct (Req_dec e2 0) as [-> | Hn2].
  { assert (e1 = 0) as -> by lra.
    rewrite Math_pow_exp_0 in H1, H2 by reflexivity.
    injection H1 as <-. injection H2 as <-. lra. }
  destruct (Req_dec b2 0) as [-> | Hb20].
  { rewrite Math_pow_base_0 in H2 by lra. injection H2 as <-.
    destruct (Req_dec e1 0) as [-> | Hn1].
    - rewrite Math_pow_exp_0 in H1 by reflexivity. injection H1 as <-. lra.
    - destruct (Req_dec b1 0) as [-> | Hb10].
      + rewrite Math_pow_base_0 in H1 by lra. injection H1 as <-. lra.
      + rewrite Math_pow_pos in H1 by lra. injection H1 as <-.
        split; [lra|]. left. apply exp_pos. }
  rewrite Math_pow_pos in H2 by lra. injection H2 as <-.
  split; [left; apply exp_pos|].
  destruct (Req_dec e1 0) as [-> | Hn1].
  - rewrite Math_pow_exp_0 in H1 by reflexivity. injection H1 as <-.
    apply (Rpower_unit_interval b2 e2); lra.
  - rewrite Math_pow_pos in H1 by lra. injection H1 as <-.
    apply Rle_trans with (Rpower b2 e1).
    + apply Rpower_antitone_exponent; lra.
    + apply Rle_Rpower_l; lra.
Qed.

(** X6: [n] successive frames of smoothing with step [dt] give exactly
    what one frame with step [n * dt] gives, for a speed in [0,1] and a
    step that is not negative. *)
Theorem smoothSteps_is_one_step (n : nat) (current target speed dt : R) :
  0 <= speed <= 1 → 0 <= dt →
  smoothSteps n current target speed dt
  = smoothLerp current target speed (INR n * dt).
Proof.
  intros Hs Hdt. revert current.
  induction n as [|n IH]; intros current.
  - cbn [smoothSteps]. unfold smoothLerp.
    rewrite Math_pow_exp_0 by (simpl; lra). simpl. f_equal. lra.
  - cbn [smoothSteps].
    destruct (Math_pow_decay speed dt Hs Hdt) as (p & Hp & _).
    assert (Hn : 0 <= INR n * dt) by (pose proof (pos_INR n); nra).
    destruct (Math_pow_decay speed (INR n * dt) Hs Hn) as (pn & Hpn & _).
    assert (Hsum : Math_pow (1 - speed) (INR (S n) * dt * 60) = Some (p * pn)).
    { replace (INR (S n) * dt * 60) with (dt * 60 + INR n * dt * 60)
        by (rewrite S_INR; lra).
      apply Math_pow_add_exponents; try assumption; try lra; nra. }
    unfold smoothLerp at 1. rewrite Hp. cbn [mbind option_bind].
    rewrite IH. unfold smoothLerp. rewrite Hpn, Hsum. cbn [mbind option_bind].
    f_equal. ring.
Qed.

Lemma smoothSteps_is_one_step_witness :
  smoothSteps 3 0 100 0.1 0.016 = smoothLerp 0 100 0.1 (INR 3 * 0.016).
Proof. apply (smoothSteps_is_one_step 3 0 100 0.1 0.016); lra. Defined.

(** X7: a higher speed or a longer step never leaves the value further
    from the target. *)
Theorem smoothLerp_closer_with_speed_and_time
    (current target speed1 speed2 dt1 dt2 : R) :
  0 <= speed1 <= speed2 → speed2 <= 1 → 0 <= dt1 <= dt2 →
  ∃ r1 r2,
    smoothLerp current target speed1 dt1 = Some r1 ∧
    smoothLerp current target speed2 dt2 = Some r2 ∧
    Rabs (target - r2) <= Rabs (target - r1).
Proof.
  intros Hs Hs2 Hd.
  destruct (Math_pow_decay speed1 dt1) as (p1 & Hp1 & _); [lra | lra |].
  destruct (Math_pow_decay speed2 dt2) as (p2 & Hp2 & _); [lra | lra |].
  assert (Hp : 0 <= p2 <= p1).
  { apply (Math_pow_antitone (1 - speed1) (1 - speed2) (dt1 * 60) (dt2 * 60));
      try assumption; lra. }
  exists (current + (target - current) * (1 - p1)),
         (current + (target - current) * (1 - p2)).
  unfold smoothLerp. rewrite Hp1, Hp2. cbn [mbind option_bind].
  split; [reflexivity|]. split; [reflexivity|].
  replace (target - (current + (target - current) * (1 - p2)))
    with ((target - current) * p2) by ring.
  replace (target - (current + (target - current) * (1 - p1)))
    with ((target - current) * p1) by ring.
  rewrite !Rabs_mult, (Rabs_right p1), (Rabs_right p2) by lra.
  pose proof (Rabs_pos (target - current)). nra.
Qed.

Lemma smoothLerp_closer_with_speed_and_time_witness :
  ∃ r1 r2,
    smoothLerp 0 100 0.1 0.016 = Some r1 ∧
    smoothLerp 0 100 0.5 0.032 = Some r2 ∧
    Rabs (100 - r2) <= Rabs (100 - r1).
Proof.
  apply (smoothLerp_closer_with_speed_and_time 0 100 0.1 0.5 0.016 0.032); lra.
Defined.

(** X8: overdriven to speed 2, the base of the power is -1: after a whole
    number [k] of sixtieths of a second the value is back at [current] when
    [k] is even, and at the mirror image [current + (target - current) * 2],
    beyond the target, when [k] is odd (for values of at most a million and
    a step of at most 1000 s, either way).  On doubles a frame of 1/60 s is
    such a step, since [dt * 60] rounds to 1: [smoothLerp(0, 100, 2, 1/60)]
    is 200. *)
Theorem smoothLerp_speed_2_mirrors :
  (∀ (current target dt : R) (k : Z),
     -1000000 <= current <= 1000000 → -1000000 <= target <= 1000000 →
     -1000 <= dt <= 1000 → dt * 60 = IZR k →
     smoothLerp current target 2 dt
     = Some (if Z.even k then current else current + (target - current) * 2)) ∧
  Binary64.smoothLerp 0 100 2 (1 / 60) = Some 200%float.
Proof.
  split; [|vm_compute; reflexivity].
  intros current target dt k _ _ _ Hk. unfold smoothLerp. rewrite Hk.
  replace (1 - 2) with (-1) by lra.
  destruct (Z.eq_dec k 0%Z) as [-> | Hk0].
  - rewrite Math_pow_exp_0 by reflexivity. cbn [mbind option_bind Z.even].
    f_equal. lra.
  - rewrite (Math_pow_neg_integer (-1) k) by (lra || exact Hk0).
    replace (- -1) with 1 by lra. rewrite Rpower_base_1.
    cbn [mbind option_bind]. destruct (Z.even k); f_equal; lra.
Qed.

Lemma smoothLerp_speed_2_mirrors_witness :
  smoothLerp 0 100 2 0.25
  = Some (if Z.even 15 then 0 else 0 + (100 - 0) * 2).
Proof. apply (proj1 smoothLerp_speed_2_mirrors 0 100 0.25 15%Z); lra. Defined.

(** X9: a speed above 1 gives a negative base to [Math.pow]; when the step,
    of at most 1000 s either way, stays a hundredth of a sixtieth of a
    second away from every whole number of sixtieths, the exponent is not
    an integer and there is no real result ([NaN]). *)
Theorem smoothLerp_overdriven_is_NaN (current target speed dt : R) (k : Z) :
  1 < speed → -1000 <= dt <= 1000 →
  IZR k + 0.01 <= dt * 60 <= IZR k + 0.99 →
  smoothLerp current target speed dt = None.
Proof.
  intros Hs _ Hfrac.
  assert (Hint : Int_part (dt * 60) = k) by (symmetry; apply Int_part_spec; lra).
  unfold smoothLerp, Math_pow. rewrite Hint.
  case_decide as H0.
  { exfalso. destruct (Z_le_gt_dec k (-1)) as [Hle | Hgt].
    - apply IZR_le in Hle. lra.
    - assert (Hge : (0 <= k)%Z) by lia. apply IZR_le in Hge. lra. }
  case_decide; [lra|]. case_decide; [lra|].
  case_decide; [lra | reflexivity].
Qed.

Lemma smoothLerp_overdriven_is_NaN_witness : smoothLerp 0 100 2 0.01 = None.
Proof. apply (smoothLerp_overdriven_is_NaN 0 100 2 0.01 0); lra. Defined.

End MathFurther.


(** ** Easing curves *)
Section EasingFurther.
Import Ease.



(** The ease-out curves mirror the ease-in curves, and the in-out
    curves are symmetric about the midpoint. *)
Theorem easing_dualities (t : R) :
  outQuad t = 1 - inQuad (1 - t) ∧
  outCubic t = 1 - inCubic (1 - t) ∧
  inOutQuad (1 - t) = 1 - inOutQuad t ∧
  inOutCubic (1 - t) = 1 - inOutCubic t.
Proof.
  unfold outQuad, inQuad, outCubic, inCubic, inOutQuad, inOutCubic.
  split; [ring|]. split; [ring|].
  split; repeat case_decide; try lra; try ring;
    assert (t = 1 / 2) as -> by lra; lra.
Qed.



(** A power of a base that is not negative, for a positive exponent. *)
Lemma Math_pow_nonneg_base (x e : R) :
  0 <= x → 0 < e →
  ∃ p, Math_pow x e = Some p ∧ 0 <= p ∧
       (x <= 1 → p <= 1) ∧ (1 < x → 1 < p) ∧ (x = 0 → p = 0).
Proof.
  intros Hx He.
  destruct (Req_dec x 0) as [-> | Hx0].
  - exists 0. rewrite Math_pow_base_0 by lra. repeat split; intros; lra.
  - exists (Rpower x e). rewrite Math_pow_pos by lra.
    split; [reflexivity|]. split; [left; apply exp_pos|].
    split; [|split].
    + intros Hx1. apply (Rpower_unit_interval x e); lra.
    + intros Hx1. rewrite <- (Rpower_base_1 e). apply Rlt_Rpower_l; lra.
    + intros; lra.
Qed.

Lemma Math_pow_monotone_base (x1 x2 e p1 p2 : R) :
  0 <= x1 <= x2 → 0 < e →
  Math_pow x1 e = Some p1 → Math_pow x2 e = Some p2 → p1 <= p2.
Proof.
  intros Hx He H1 H2.
  destruct (Math_pow_nonneg_base x2 e) as (p & Hp & Hp0 & _); [lra | lra |].
  rewrite Hp in H2. injection H2 as <-.
  destruct (Req_dec x1 0) as [-> | Hx10].
  - rewrite Math_pow_base_0 in H1 by lra. injection H1 as <-. exact Hp0.
  - rewrite Math_pow_pos in H1, Hp by lra. injection H1 as <-. injection Hp as <-.
    apply Rle_Rpower_l; lra.
Qed.

(** [dramaticRamp] on its two branches. *)
Lemma dramaticRamp_below (t : R) :
  t < 0.83 → dramaticRamp t = Some (t / 0.83 * 0.3).
Proof. intros H. unfold dramaticRamp. case_decide; [reflexivity | lra]. Qed.

Lemma dramaticRamp_above (t : R) :
  0.83 <= t →
  ∃ p, Math_pow ((t - 0.83) / 0.17) 2.5 = Some p ∧
       dramaticRamp t = Some (0.3 + p * 0.7) ∧ 0 <= p ∧
       (t <= 1 → p <= 1) ∧ (1 < t → 1 < p).
Proof.
  intros H.
  destruct (Math_pow_nonneg_base ((t - 0.83) / 0.17) 2.5)
    as (p & Hp & Hp0 & Hle & Hgt & _); [lra | lra |].
  exists p. split; [exact Hp|].
  unfold dramaticRamp. case_decide; [lra|]. rewrite Hp.
  split; [reflexivity|]. split; [exact Hp0|].
  split; intros; [apply Hle | apply Hgt]; lra.
Qed.

Lemma dramaticRamp_nondecreasing (t1 t2 v1 v2 : R) :
  t1 <= t2 → dramaticRamp t1 = Some v1 → dramaticRamp t2 = Some v2 → v1 <= v2.
Proof.
  intros Ht H1 H2.
  destruct (Rlt_le_dec t2 0.83) as [Hlt2 | Hge2].
  - rewrite dramaticRamp_below in H1 by lra.
    rewrite dramaticRamp_below in H2 by lra.
    injection H1 as <-. injection H2 as <-. lra.
  - destruct (dramaticRamp_above t2 Hge2) as (p2 & Hp2 & Hv2 & Hp20 & _).
    rewrite Hv2 in H2. injection H2 as <-.
    destruct (Rlt_le_dec t1 0.83) as [Hlt1 | Hge1].
    + rewrite dramaticRamp_below in H1 by lra. injection H1 as <-. lra.
    + destruct (dramaticRamp_above t1 Hge1) as (p1 & Hp1 & Hv1 & _).
      rewrite Hv1 in H1. injection H1 as <-.
      assert (p1 <= p2).
      { apply (Math_pow_monotone_base ((t1 - 0.83) / 0.17) ((t2 - 0.83) / 0.17) 2.5);
          try assumption; lra. }
      lra.
Qed.

(** X11: for [t] between -1000 and 1000 [dramaticRamp] has a value; it
    is below 0.3 exactly before the knee at 0.83; on [0,1] it is not
    negative and stays below 1.000001 (in exact arithmetic it ends at 1; on
    doubles [dramaticRamp(1)] is 1.0000000000000004); it exceeds 1 beyond 1;
    and it never decreases. *)
Theorem dramaticRamp_shape :
  (∀ t, -1000 <= t <= 1000 →
        ∃ v, dramaticRamp t = Some v ∧
             (v < 0.3 ↔ t < 0.83) ∧
             (0 <= t <= 1 → 0 <= v < 1.000001) ∧
             (1 < t → 1 < v)) ∧
  (∀ t1 t2 v1 v2, -1000 <= t1 → t1 <= t2 → t2 <= 1000 →
     dramaticRamp t1 = Some v1 → dramaticRamp t2 = Some v2 → v1 <= v2).
Proof.
  split; [|intros t1 t2 v1 v2 _ Ht _; exact (dramaticRamp_nondecreasing t1 t2 v1 v2 Ht)].
  intros t _. destruct (Rlt_le_dec t 0.83) as [Hlt | Hge].
  - exists (t / 0.83 * 0.3). rewrite dramaticRamp_below by exact Hlt.
    repeat split; intros; lra.
  - destruct (dramaticRamp_above t Hge) as (p & _ & Hv & Hp0 & Hle & Hgt).
    exists (0.3 + p * 0.7). split; [exact Hv|].
    split; [split; intros; lra|].
    split; intros H.
    + assert (p <= 1) by (apply Hle; lra). lra.
    + assert (1 < p) by (apply Hgt; lra). lra.
Qed.

Lemma dramaticRamp_shape_witness :
  ∃ v, dramaticRamp 0.5 = Some v ∧ 0 <= v < 1.000001.
Proof.
  assert (Hdom : -1000 <= 0.5 <= 1000) by lra.
  destruct (proj1 dramaticRamp_shape 0.5 Hdom) as (v & Hv & _ & Hrange & _).
  exists v. split; [exact Hv|]. apply Hrange. lra.
Defined.







(** [elastic] is negative on the whole of (0.775, 0.925). *)
Theorem elastic_negative (t : R) :
  0.775 < t < 0.925 → ∃ v, elastic t = Some v ∧ v < 0.
Proof.
  intros Ht. unfold elastic, Math_sin, Math_PI.
  case_decide; [lra|]. case_decide; [lra|].
  rewrite Math_pow_pos by lra. cbn [mbind option_bind].
  eexists. split; [reflexivity|].
  assert (Hp : 0 < Rpower 2 (10 * t - 10)) by apply exp_pos.
  pose proof PI_RGT_0 as Hpi.
  set (a := (t * 10 - 10.75) * (2 * PI / 3)).
  assert (Ha : - (2 * PI) < a < - PI) by (unfold a; nra).
  assert (Hsin : 0 < sin a).
  { rewrite <- (sin_period a 1). apply sin_gt_0; simpl; lra. }
  nra.
Qed.

Lemma elastic_negative_witness : ∃ v, elastic 0.85 = Some v ∧ v < 0.
Proof. apply (elastic_negative 0.85). lra. Defined.

End EasingFurther.


(** ** Burst system, further *)
Section BurstFurther.
Import BurstSystem.

(** The particle loop of [createLayer] after [n] iterations. *)
Lemma initParticles_spec (speed : R) (rand : nat → R) (base n : nat)
    (ps vs ls : list R) :
  ∃ ps' vs' ls',
    foldl (initParticle speed rand base) (ps, vs, ls) (seq 0%nat n) = (ps', vs', ls') ∧
    length ps' = length ps ∧ length vs' = length vs ∧ length ls' = length ls ∧
    (Forall (fun x => x = 0) ps → Forall (fun x => x = 0) ps') ∧
    (∀ i, (i < n)%nat → (i < length ls)%nat →
          ls' !! i = Some (Math_fround (2.5 + rand (base + 4 * i + 3)%nat * 3.0))) ∧
    (∀ i, (i < n)%nat → (i * 3 + 2 < length vs)%nat →
          let theta := rand (base + 4 * i)%nat * Math_PI * 2 in
          let phi := acos (2 * rand (base + 4 * i + 1)%nat - 1) in
          let m := (0.5 + rand (base + 4 * i + 2)%nat * 0.5) * speed * 30 in
          vs' !! (i * 3)%nat = Some (Math_fround (sin phi * cos theta * m)) ∧
          vs' !! (i * 3 + 1)%nat = Some (Math_fround (sin phi * sin theta * m)) ∧
          vs' !! (i * 3 + 2)%nat = Some (Math_fround (cos phi * m))).
Proof.
  induction n as [|n IH].
  - exists ps, vs, ls. cbn [seq foldl]. repeat split; try tauto; intros; lia.
  - destruct IH as (ps1 & vs1 & ls1 & Hfold & Hlp & Hlv & Hll & Hzero & Hlife & Hvel).
    rewrite seq_S, foldl_app, Hfold. cbn [foldl initParticle Nat.add].
    cbv zeta. unfold Three.store. rewrite Math_fround_0.
    eexists _, _, _. split; [reflexivity|].
    rewrite !length_insert.
    split; [exact Hlp|]. split; [exact Hlv|]. split; [exact Hll|].
    split.
    { intros Hps. specialize (Hzero Hps).
      repeat apply Forall_insert; try reflexivity. exact Hzero. }
    split.
    { intros i Hi Hilen. rewrite list_lookup_insert.
      case_decide as Hc.
      - destruct Hc as [<- _]. reflexivity.
      - apply Hlife; lia. }
    intros i Hi Hilen. cbv zeta.
    rewrite !list_lookup_insert, !length_insert.
    destruct (decide (i = n)) as [-> | Hne].
    + repeat split; repeat case_decide; try reflexivity; lia.
    + destruct (Hvel i) as (H0 & H1 & H2); [lia | lia |]. cbv zeta in H0, H1, H2.
      repeat split; repeat case_decide; try assumption; lia.
Qed.

(** What [createLayer] builds. *)
Lemma createLayer_spec (count : nat) (color : Z) (size speed : R)
    (rand : nat → R) (base : nat) (sc : Three.Scene) :
  let layer := (createLayer count color size speed rand base sc).1 in
  let sc' := (createLayer count color size speed rand base sc).2 in
  points layer = Three.nextId sc ∧
  sc' = Three.add (Three.nextId sc) (Three.alloc sc).2 ∧
  visible layer = false ∧ startTime layer = None ∧ opacity layer = 1.0 ∧
  attrPositions layer = positions layer ∧
  length (positions layer) = (count * 3)%nat ∧
  Forall (fun x => x = 0) (positions layer) ∧
  length (velocities layer) = (count * 3)%nat ∧
  length (lifetimes layer) = count ∧
  (∀ i, (i < count)%nat →
        lifetimes layer !! i
        = Some (Math_fround (2.5 + rand (base + 4 * i + 3)%nat * 3.0))) ∧
  (∀ i, (i < count)%nat →
        let theta := rand (base + 4 * i)%nat * Math_PI * 2 in
        let phi := acos (2 * rand (base + 4 * i + 1)%nat - 1) in
        let m := (0.5 + rand (base + 4 * i + 2)%nat * 0.5) * speed * 30 in
        velocities layer !! (i * 3)%nat = Some (Math_fround (sin phi * cos theta * m)) ∧
        velocities layer !! (i * 3 + 1)%nat
          = Some (Math_fround (sin phi * sin theta * m)) ∧
        velocities layer !! (i * 3 + 2)%nat = Some (Math_fround (cos phi * m))).
Proof.
  unfold createLayer.
  destruct (initParticles_spec speed rand base count
              (Three.Float32Array_new (count * 3))
              (Three.Float32Array_new (count * 3))
              (Three.Float32Array_new count))
    as (ps & vs & ls & -> & Hlp & Hlv & Hll & Hzero & Hlife & Hvel).
  unfold Three.Float32Array_new in *. rewrite length_replicate in Hlp, Hlv, Hll.
  cbn [Three.alloc fst snd points visible startTime opacity attrPositions
       positions velocities lifetimes].
  repeat split; try assumption.
  - apply Hzero, Forall_replicate. reflexivity.
  - intros i Hi. apply Hlife; [exact Hi|]. rewrite length_replicate. exact Hi.
  - apply Hvel; [assumption | rewrite length_replicate; lia].
  - apply Hvel; [assumption | rewrite length_replicate; lia].
  - apply Hvel; [assumption | rewrite length_replicate; lia].
Qed.

(** The layers [createLayers] appends: layer [k] is what [createLayer]
    builds for configuration [k], with its delay and configuration set. *)
Lemma createLayersFrom_spec (configs : list BurstLayerConfig) :
  ∀ (index : nat) (rand : nat → R) (base : nat) (acc : list BurstLayer)
    (sc : Three.Scene),
  ∃ news,
    (createLayersFrom configs index rand base (acc, sc)).1 = acc ++ news ∧
    length news = length configs ∧
    Three.nextId (createLayersFrom configs index rand base (acc, sc)).2
      = (Three.nextId sc + length configs)%nat ∧
    Three.children (createLayersFrom configs index rand base (acc, sc)).2
      = list_to_set (seq (Three.nextId sc) (length configs)) ∪ Three.children sc ∧
    ∀ k cfg, configs !! k = Some cfg →
      ∃ layer base' sc',
        news !! k = Some layer ∧
        Three.nextId sc' = (Three.nextId sc + k)%nat ∧
        let built :=
          (createLayer (count cfg) (color cfg) (size cfg) (speed cfg) rand base' sc').1 in
        layer = mkLayer (points built) (visible built) (attrPositions built)
                  (needsUpdate built) (opacity built) (velocities built)
                  (lifetimes built) (positions built) (startTime built)
                  (INR (index + k) * 0.1) cfg.
Proof.
  induction configs as [|cfg rest IH]; intros index rand base acc sc.
  - exists []. cbn [createLayersFrom fst snd length seq list_to_set].
    rewrite app_nil_r, Nat.add_0_r. repeat split; [set_solver|].
    intros k c Hk. rewrite lookup_nil in Hk. discriminate.
  - cbn [createLayersFrom].
    pose proof (createLayer_spec (count cfg) (color cfg) (size cfg) (speed cfg)
                  rand base sc) as (_ & Hsc & _).
    destruct (createLayer _ _ _ _ _ _ _) as [built sc1] eqn:Hbuilt.
    cbn [fst snd] in Hsc.
    match goal with
    | |- context [createLayersFrom rest _ _ _ (acc ++ [?l], _)] => set (layer := l)
    end.
    destruct (IH (S index) rand (base + 4 * count cfg)%nat (acc ++ [layer]) sc1)
      as (news & Heq & Hlen & Hnext & Hchildren & Hlayers).
    exists (layer :: news). rewrite Heq, Hnext, Hchildren, <- app_assoc.
    subst sc1. cbn [Three.add Three.alloc Three.nextId Three.children snd length].
    split; [reflexivity|]. split; [lia|]. split; [lia|].
    split; [cbn [seq list_to_set]; set_solver|].
    intros [|k] c Hk; cbn [lookup list_lookup] in Hk |- *.
    + injection Hk as <-. exists layer, base, sc.
      split; [reflexivity|]. split; [lia|]. cbv zeta. rewrite Hbuilt.
      cbn [fst]. rewrite Nat.add_0_r. reflexivity.
    + destruct (Hlayers k c Hk) as (l & base' & sc' & Hl & Hn & Hbuild).
      exists l, base', sc'. split; [exact Hl|].
      cbn [Three.add Three.alloc Three.nextId snd] in Hn.
      split; [lia|]. cbv zeta in Hbuild |- *. rewrite Hbuild.
      do 2 f_equal. f_equal. lia.
Qed.

(** What the constructor builds, layer by layer. *)
Lemma new_spec (rand : nat → R) (sc : Three.Scene) :
  length (layers (new rand sc).1) = 5%nat ∧
  Three.nextId (new rand sc).2 = (Three.nextId sc + 5)%nat ∧
  Three.children (new rand sc).2
    = list_to_set (seq (Three.nextId sc) 5) ∪ Three.children sc ∧
  ∀ k cfg, layerConfigs !! k = Some cfg →
    ∃ layer base' sc',
      layers (new rand sc).1 !! k = Some layer ∧
      Three.nextId sc' = (Three.nextId sc + k)%nat ∧
      let built :=
        (createLayer (count cfg) (color cfg) (size cfg) (speed cfg) rand base' sc').1 in
      layer = mkLayer (points built) (visible built) (attrPositions built)
                (needsUpdate built) (opacity built) (velocities built)
                (lifetimes built) (positions built) (startTime built)
                (INR k * 0.1) cfg.
Proof.
  unfold new.
  destruct (createLayersFrom_spec layerConfigs 0 rand 0 [] sc)
    as (news & Heq & Hlen & Hnext & Hchildren & Hlayers).
  destruct (createLayersFrom _ _ _ _ _) as [ls sc1].
  cbn [fst snd layers] in *. rewrite app_nil_l in Heq. subst ls.
  change (length layerConfigs) with 5%nat in *.
  split; [exact Hlen|]. split; [exact Hnext|]. split; [exact Hchildren|].
  intros k cfg Hk.
  destruct (Hlayers k cfg Hk) as (layer & base' & sc' & Hl & Hn & Hbuild).
  exists layer, base', sc'. split; [exact Hl|]. split; [exact Hn|].
  cbv zeta in Hbuild |- *. rewrite Nat.add_0_l in Hbuild. exact Hbuild.
Qed.

(** X15: the constructor allocates five objects and attaches them to the
    scene; layer [k] carries configuration [k] of the table, is invisible
    and not triggered, has opacity 1, delay [k * 0.1], a position attribute
    of [3 * count] zeros, and velocity and lifetime buffers of [3 * count]
    and [count] cells. *)
Theorem burst_new_structure (rand : nat → R) (sc : Three.Scene) :
  let bs := (new rand sc).1 in
  let sc' := (new rand sc).2 in
  length (layers bs) = 5%nat ∧
  Three.nextId sc' = (Three.nextId sc + 5)%nat ∧
  Three.children sc' = list_to_set (seq (Three.nextId sc) 5) ∪ Three.children sc ∧
  ∀ k cfg, layerConfigs !! k = Some cfg →
    ∃ layer,
      layers bs !! k = Some layer ∧
      config layer = cfg ∧
      points layer = (Three.nextId sc + k)%nat ∧
      points layer ∈ Three.children sc' ∧
      visible layer = false ∧ startTime layer = None ∧ opacity layer = 1 ∧
      delay layer = INR k * 0.1 ∧
      length (attrPositions layer) = (count cfg * 3)%nat ∧
      Forall (fun x => x = 0) (attrPositions layer) ∧
      length (velocities layer) = (count cfg * 3)%nat ∧
      length (lifetimes layer) = count cfg.
Proof.
  cbv zeta.
  destruct (new_spec rand sc) as (Hlen & Hnext & Hchildren & Hlayers).
  split; [exact Hlen|]. split; [exact Hnext|]. split; [exact Hchildren|].
  intros k cfg Hk.
  assert (Hk5 : (k < 5)%nat) by (apply lookup_lt_Some in Hk; exact Hk).
  destruct (Hlayers k cfg Hk) as (layer & base' & sc' & Hl & Hn & Hbuild).
  cbv zeta in Hbuild.
  pose proof (createLayer_spec (count cfg) (color cfg) (size cfg) (speed cfg)
                rand base' sc')
    as (Hp & _ & Hvis & Hstart & Hop & Hattr & Hlp & Hzero & Hlv & Hll & _).
  cbv zeta in Hp, Hvis, Hstart, Hop, Hattr, Hlp, Hzero, Hlv, Hll.
  exists layer. split; [exact Hl|]. subst layer.
  cbn [config points visible startTime opacity delay attrPositions velocities
       lifetimes].
  rewrite Hp, Hn, Hvis, Hstart, Hop, Hattr, Hlv, Hll, Hlp, Hchildren.
  repeat split; try assumption; try lra.
  apply elem_of_union_l, elem_of_list_to_set, elem_of_seq. lia.
Qed.

Lemma layerConfigs_speed_positive (cfg : BurstLayerConfig) :
  cfg ∈ layerConfigs → 0 < speed cfg.
Proof.
  unfold layerConfigs. intros Hcfg.
  repeat (apply elem_of_cons in Hcfg as [-> | Hcfg]; [cbn [speed]; lra|]).
  inversion Hcfg.
Qed.

Lemma float32_dyadic (x : R) (m k : Z) :
  x = IZR m * powerRZ 2 k → (Z.abs m < 2 ^ 24)%Z → (-149 <= k <= 104)%Z →
  float32 x ∧ float32 (- x).
Proof.
  intros Hx Hm Hk. split.
  - exists m, k. auto.
  - exists (- m)%Z, k. rewrite opp_IZR. split; [lra|]. split; [lia | exact Hk].
Qed.

Lemma layerConfigs_speed_float32 (cfg : BurstLayerConfig) :
  cfg ∈ layerConfigs → float32 (30 * speed cfg) ∧ float32 (- (30 * speed cfg)).
Proof.
  unfold layerConfigs. intros Hcfg.
  apply elem_of_cons in Hcfg as [-> | Hcfg];
    [apply (float32_dyadic _ 30 0); [simpl; lra | reflexivity | lia]|].
  apply elem_of_cons in Hcfg as [-> | Hcfg];
    [apply (float32_dyadic _ 51 (-1)); [simpl; lra | reflexivity | lia]|].
  apply elem_of_cons in Hcfg as [-> | Hcfg];
    [apply (float32_dyadic _ 69 (-1)); [simpl; lra | reflexivity | lia]|].
  apply elem_of_cons in Hcfg as [-> | Hcfg];
    [apply (float32_dyadic _ 21 0); [simpl; lra | reflexivity | lia]|].
  apply elem_of_cons in Hcfg as [-> | Hcfg];
    [apply (float32_dyadic _ 39 0); [simpl; lra | reflexivity | lia]|].
  inversion Hcfg.
Qed.

(** A product of a sine, a cosine or both with a magnitude stays within it. *)
Lemma spherical_component_bound (s c m : R) :
  -1 <= s <= 1 → -1 <= c <= 1 → 0 <= m → - m <= s * c * m <= m.
Proof.
  intros Hs Hc Hm.
  assert (Hsc : -1 <= s * c <= 1) by nra. nra.
Qed.

(** X16: with [Math.random()] in [0,1), every particle of every layer gets
    a lifetime in [2.5, 5.5]; its launch velocity is the float32 narrowing,
    coordinate by coordinate, of a vector whose length is between 15 and 30
    times the layer's speed multiplier, and every stored coordinate lies
    within 30 times the multiplier of zero. *)
Theorem burst_new_particle_ranges (rand : nat → R) (sc : Three.Scene) :
  (∀ k, 0 <= rand k < 1) →
  ∀ layer, layer ∈ layers (new rand sc).1 →
    Forall (fun lifetime => 2.5 <= lifetime <= 5.5) (lifetimes layer) ∧
    ∀ i, (i < count (config layer))%nat →
      ∃ vx vy vz m,
        velocities layer !! (i * 3)%nat = Some (Math_fround vx) ∧
        velocities layer !! (i * 3 + 1)%nat = Some (Math_fround vy) ∧
        velocities layer !! (i * 3 + 2)%nat = Some (Math_fround vz) ∧
        vx * vx + vy * vy + vz * vz = m * m ∧
        15 * speed (config layer) <= m <= 30 * speed (config layer) ∧
        Forall (fun v => - (30 * speed (config layer)) <= v
                         <= 30 * speed (config layer))
          [Math_fround vx; Math_fround vy; Math_fround vz].
Proof.
  intros Hrand layer Hin.
  destruct (new_spec rand sc) as (Hlen & _ & _ & Hlayers).
  apply list_elem_of_lookup in Hin as [k Hk].
  assert (Hcfg : ∃ cfg, layerConfigs !! k = Some cfg).
  { apply lookup_lt_is_Some. apply lookup_lt_Some in Hk.
    rewrite Hlen in Hk. exact Hk. }
  destruct Hcfg as [cfg Hcfg].
  assert (Hcfgin : cfg ∈ layerConfigs) by (eapply list_elem_of_lookup_2; exact Hcfg).
  assert (Hspeed : 0 < speed cfg) by (apply layerConfigs_speed_positive; exact Hcfgin).
  destruct (layerConfigs_speed_float32 cfg Hcfgin) as [Hup Hdown].
  destruct (Hlayers k cfg Hcfg) as (layer' & base' & sc' & Hl & _ & Hbuild).
  rewrite Hk in Hl. injection Hl as <-. cbv zeta in Hbuild.
  pose proof (createLayer_spec (count cfg) (color cfg) (size cfg) (speed cfg)
                rand base' sc')
    as (_ & _ & _ & _ & _ & _ & _ & _ & _ & Hll & Hlife & Hvel).
  cbv zeta in Hll, Hlife, Hvel. subst layer.
  cbn [config lifetimes velocities].
  split.
  - apply Forall_lookup. intros i x Hi.
    assert (Hlt : (i < count cfg)%nat) by (apply lookup_lt_Some in Hi; lia).
    rewrite (Hlife i Hlt) in Hi. injection Hi as <-.
    cbv beta.
    match goal with |- context [rand ?j] => specialize (Hrand j) end.
    split.
    + apply Math_fround_ge; [lra|]. exists 5%Z, (-1)%Z.
      split; [simpl; lra | split; [reflexivity | lia]].
    + apply Math_fround_le; [lra|]. exists 11%Z, (-1)%Z.
      split; [simpl; lra | split; [reflexivity | lia]].
  - intros i Hi. destruct (Hvel i Hi) as (H0 & H1 & H2).
    match type of H0 with
    | _ = Some (Math_fround (sin ?phi * cos ?theta * ?m)) =>
        exists (sin phi * cos theta * m), (sin phi * sin theta * m), (cos phi * m), m;
        pose proof (sin2_cos2 phi) as Hphi; pose proof (sin2_cos2 theta) as Hth;
        pose proof (SIN_bound phi) as Hsp; pose proof (COS_bound phi) as Hcp;
        pose proof (SIN_bound theta) as Hst; pose proof (COS_bound theta) as Hct;
        set (a := phi) in *; set (b := theta) in *
    end.
    split; [exact H0|]. split; [exact H1|]. split; [exact H2|].
    unfold Rsqr in Hphi, Hth.
    match goal with |- context [rand ?j] => specialize (Hrand j) end.
    match goal with |- _ = ?m * ?m ∧ _ => set (mm := m) in * end.
    assert (Hm : 15 * speed cfg <= mm <= 30 * speed cfg) by (unfold mm; nra).
    split.
    + replace (sin a * cos b * mm * (sin a * cos b * mm)
               + sin a * sin b * mm * (sin a * sin b * mm)
               + cos a * mm * (cos a * mm))
        with (mm * mm * (sin a * sin a * (sin b * sin b + cos b * cos b)
                         + cos a * cos a)) by ring.
      rewrite Hth, Rmult_1_r, Hphi. ring.
    + split; [exact Hm|].
      assert (Hmm : 0 <= mm) by lra.
      pose proof (spherical_component_bound (sin a) (cos b) mm Hsp Hct Hmm) as Hx.
      pose proof (spherical_component_bound (sin a) (sin b) mm Hsp Hst Hmm) as Hy.
      assert (Hz : - mm <= cos a * mm <= mm) by nra.
      repeat (apply List.Forall_cons;
              [split; [apply Math_fround_ge; [lra | exact Hdown]
                      | apply Math_fround_le; [lra | exact Hup]]|]).
      apply List.Forall_nil.
Qed.

Lemma burst_new_particle_ranges_witness :
  Forall (fun layer => Forall (fun lifetime => 2.5 <= lifetime <= 5.5) (lifetimes layer))
    (layers (new (fun _ => 0.5) Three.empty).1).
Proof.
  apply Forall_forall. intros layer Hin.
  apply (burst_new_particle_ranges (fun _ => 0.5) Three.empty); [|exact Hin].
  intros k. lra.
Defined.

End BurstFurther.


(** ** Burst system: the frame update *)
Section BurstUpdate.
Import BurstSystem.

(** One iteration of the particle loop writes the three cells of its
    particle and no other. *)
Lemma updateParticle_lookup (layer : BurstLayer) (elapsed : R) (ps : list R)
    (i k : nat) :
  length (updateParticle layer elapsed ps i) = length ps ∧
  ((k < i * 3 ∨ i * 3 + 2 < k)%nat →
   updateParticle layer elapsed ps i !! k = ps !! k).
Proof.
  unfold updateParticle, Three.store. cbv zeta.
  case_decide; rewrite !length_insert;
    (split; [reflexivity|]); intros Hk;
    rewrite !list_lookup_insert_ne by lia; reflexivity.
Qed.

(** The three cells it writes do not depend on what the buffer held. *)
Lemma updateParticle_written (layer : BurstLayer) (elapsed : R) (ps qs : list R)
    (i k : nat) :
  length ps = length qs → (i * 3 <= k <= i * 3 + 2)%nat →
  updateParticle layer elapsed ps i !! k = updateParticle layer elapsed qs i !! k.
Proof.
  intros Hlen Hk. unfold updateParticle, Three.store. cbv zeta.
  case_decide; rewrite !list_lookup_insert, !length_insert, Hlen;
    repeat case_decide; try reflexivity; try lia;
    rewrite !(proj2 (lookup_ge_None _ _)) by lia; reflexivity.
Qed.

(** After the whole loop the cells of the first [n] particles are
    determined by the layer and the elapsed time alone. *)
Lemma updateParticles_agree (layer : BurstLayer) (elapsed : R) (n : nat)
    (ps qs : list R) :
  length ps = length qs →
  let a := foldl (updateParticle layer elapsed) ps (seq 0%nat n) in
  let b := foldl (updateParticle layer elapsed) qs (seq 0%nat n) in
  length a = length ps ∧ length b = length qs ∧
  (∀ k, (k < n * 3)%nat → a !! k = b !! k) ∧
  (∀ k, (n * 3 <= k)%nat → a !! k = ps !! k ∧ b !! k = qs !! k).
Proof.
  intros Hlen. induction n as [|n IH].
  - cbn [seq foldl]. repeat split; intros; lia.
  - cbv zeta in IH |- *. rewrite seq_S, !foldl_app. cbn [foldl Nat.add].
    destruct IH as (Hla & Hlb & Hlow & Hhigh).
    set (a := foldl _ ps _) in *. set (b := foldl _ qs _) in *.
    pose proof (updateParticle_lookup layer elapsed a n) as Ha.
    pose proof (updateParticle_lookup layer elapsed b n) as Hb.
    split; [rewrite (proj1 (Ha 0%nat)); exact Hla|].
    split; [rewrite (proj1 (Hb 0%nat)); exact Hlb|].
    split.
    + intros k Hk. destruct (decide (k < n * 3)%nat) as [Hlt | Hge].
      * rewrite (proj2 (Ha k)), (proj2 (Hb k)) by lia. apply Hlow. exact Hlt.
      * apply updateParticle_written; lia.
    + intros k Hk. rewrite (proj2 (Ha k)), (proj2 (Hb k)) by lia.
      apply Hhigh. lia.
Qed.

Lemma updateParticle_ext (l1 l2 : BurstLayer) (elapsed : R) (ps : list R) (i : nat) :
  lifetimes l1 = lifetimes l2 → velocities l1 = velocities l2 →
  updateParticle l1 elapsed ps i = updateParticle l2 elapsed ps i.
Proof. intros Hl Hv. unfold updateParticle. rewrite Hl, Hv. reflexivity. Qed.

(** The buffer sizes [createLayer] establishes, kept by every call. *)
Lemma updateLayer_sizes (time : R) (layer : BurstLayer) :
  length (attrPositions (updateLayer time layer)) = length (attrPositions layer) ∧
  lifetimes (updateLayer time layer) = lifetimes layer ∧
  velocities (updateLayer time layer) = velocities layer ∧
  startTime (updateLayer time layer) = startTime layer.
Proof.
  unfold updateLayer. destruct (startTime layer) as [start|] eqn:Hs;
    [|repeat split; exact Hs].
  case_decide; [repeat split; exact Hs|].
  cbn [attrPositions lifetimes velocities startTime].
  split; [|repeat split; exact Hs].
  apply (updateParticles_agree layer (time - start) (length (lifetimes layer))
           (attrPositions layer) (attrPositions layer) eq_refl).
Qed.

(** The update of a layer that has started. *)
Lemma updateLayer_running (time start : R) (layer : BurstLayer) :
  startTime layer = Some start → ¬ time - start < 0 →
  updateLayer time layer
  = let elapsed := time - start in
    let opacity := 1 - Ease.inQuad (Math_min (elapsed / FADE_DURATION) 1) in
    mkLayer (points layer)
      (if decide (opacity <= 0) then false else visible layer)
      (foldl (updateParticle layer elapsed) (attrPositions layer)
         (seq 0%nat (length (lifetimes layer))))
      true (Math_max 0 opacity) (velocities layer) (lifetimes layer)
      (positions layer) (Some start) (delay layer) (config layer).
Proof.
  intros Hs Hpos. unfold updateLayer. rewrite Hs, decide_False by exact Hpos.
  reflexivity.
Qed.

(** Before the trigger, and before the staggered start of the layer,
    the update leaves the layer as it is. *)
Lemma updateLayer_waiting (time : R) (layer : BurstLayer) :
  (startTime layer = None ∨ ∃ start, startTime layer = Some start ∧ time < start) →
  updateLayer time layer = layer.
Proof.
  intros [Hs | (start & Hs & Hlt)]; unfold updateLayer; rewrite Hs;
    [reflexivity|].
  rewrite decide_True by lra. reflexivity.
Qed.

(** X17: the frame update is a function of the current time only: running
    it at an earlier time first (or skipping that frame) makes no
    difference, for a layer whose position attribute has three cells per
    particle. *)
Theorem updateLayer_skips_frames (t1 t2 : R) (layer : BurstLayer) :
  t1 <= t2 →
  length (attrPositions layer) = (length (lifetimes layer) * 3)%nat →
  updateLayer t2 (updateLayer t1 layer) = updateLayer t2 layer.
Proof.
  intros Ht Hsize.
  destruct (startTime layer) as [start|] eqn:Hs.
  2:{ rewrite (updateLayer_waiting t1 layer) by (left; exact Hs). reflexivity. }
  destruct (decide (t1 - start < 0)) as [Hneg | Hpos].
  { rewrite (updateLayer_waiting t1 layer); [reflexivity|].
    right. exists start. split; [exact Hs | lra]. }
  destruct (updateLayer_sizes t1 layer) as (Hlen1 & Hl1 & Hv1 & Hs1).
  rewrite Hs in Hs1.
  rewrite (updateLayer_running t2 start (updateLayer t1 layer) Hs1) by lra.
  rewrite (updateLayer_running t2 start layer Hs) by lra.
  cbv zeta. rewrite Hl1, Hv1.
  assert (Hfields :
            points (updateLayer t1 layer) = points layer ∧
            positions (updateLayer t1 layer) = positions layer ∧
            delay (updateLayer t1 layer) = delay layer ∧
            config (updateLayer t1 layer) = config layer ∧
            visible (updateLayer t1 layer)
            = if decide (1 - Ease.inQuad (Math_min ((t1 - start) / FADE_DURATION) 1) <= 0)
              then false else visible layer)
    by (rewrite (updateLayer_running t1 start layer Hs Hpos); repeat split).
  destruct Hfields as (-> & -> & -> & -> & ->).
  f_equal.
  - unfold Ease.inQuad, Math_min, Rmin, FADE_DURATION.
    repeat destruct (Rle_dec _ _); repeat case_decide; try reflexivity;
      exfalso; nra.
  - assert (Hagree :=
      updateParticles_agree layer (t2 - start) (length (lifetimes layer))
        (attrPositions (updateLayer t1 layer)) (attrPositions layer) Hlen1).
    cbv zeta in Hagree. destruct Hagree as (Hla & Hlb & Hlow & _).
    assert (Hfun : ∀ ps,
              foldl (updateParticle (updateLayer t1 layer) (t2 - start)) ps
                (seq 0%nat (length (lifetimes layer)))
              = foldl (updateParticle layer (t2 - start)) ps
                  (seq 0%nat (length (lifetimes layer)))).
    { intros ps. generalize (seq 0%nat (length (lifetimes layer))).
      intros l. revert ps. induction l as [|i l IH]; intros ps; [reflexivity|].
      cbn [foldl].
      rewrite (updateParticle_ext (updateLayer t1 layer) layer) by assumption.
      apply IH. }
    rewrite Hfun. apply list_eq. intros k.
    destruct (decide (k < length (lifetimes layer) * 3)%nat) as [Hk | Hk].
    + apply Hlow. exact Hk.
    + rewrite !(proj2 (lookup_ge_None _ _)); [reflexivity | lia | lia].
Qed.

Lemma updateLayer_skips_frames_witness :
  let layer := mkLayer 0%nat true [0; 0; 0] false 1 [1; 2; 3] [3] [0; 0; 0]
                 (Some 0) 0 (mkConfig 1 0 1 1) in
  updateLayer 2 (updateLayer 1 layer) = updateLayer 2 layer.
Proof.
  intros layer. apply (updateLayer_skips_frames 1 2 layer); [lra | reflexivity].
Defined.




Lemma applyOp_sizes (o : Op) (bs : t) :
  (fun layer => length (attrPositions layer)) <$> layers (applyOp bs o)
  = (fun layer => length (attrPositions layer)) <$> layers bs.
Proof.
  destruct o as [start | time]; cbn [applyOp trigger update layers];
    rewrite <- list_fmap_compose; apply list_fmap_ext; intros i layer _;
    unfold compose.
  - rewrite triggerLayer_positions_origin. apply length_replicate.
  - apply updateLayer_sizes.
Qed.

Lemma runOps_sizes (ops : list Op) (bs : t) :
  (fun layer => length (attrPositions layer)) <$> layers (runOps ops bs)
  = (fun layer => length (attrPositions layer)) <$> layers bs.
Proof.
  unfold runOps. revert bs. induction ops as [|o ops IH]; intros bs; [reflexivity|].
  cbn [foldl]. rewrite IH. apply applyOp_sizes.
Qed.

(** C9: on a burst system as constructed and then driven by any sequence
    of [trigger] and [update] calls, [trigger(startTime)] leaves five
    layers; layer [i], of configuration [i] of the table, starts at
    [startTime + i * 0.1], is visible with opacity 1, has a position
    attribute of [3 * count] cells that are all 0, flagged for upload, so
    every one of its [count] particles is at the origin; and it has exactly
    the [3 * count] velocities and [count] lifetimes layer [i] received at
    construction. *)
Theorem trigger_resets_and_reuses_velocities
    (rand : nat → R) (sc : Three.Scene) (ops : list Op) (start : R) :
  let constructed := (new rand sc).1 in
  let triggered := trigger start (runOps ops constructed) in
  length (layers triggered) = 5%nat ∧
  ∀ i layer, layers triggered !! i = Some layer →
    ∃ cfg layer0,
      layerConfigs !! i = Some cfg ∧
      layers constructed !! i = Some layer0 ∧
      startTime layer = Some (start + INR i * 0.1) ∧
      visible layer = true ∧
      needsUpdate layer = true ∧
      attrPositions layer = replicate (count cfg * 3) 0 ∧
      (∀ p, (p < count cfg)%nat →
         attrPositions layer !! (p * 3)%nat = Some 0 ∧
         attrPositions layer !! (p * 3 + 1)%nat = Some 0 ∧
         attrPositions layer !! (p * 3 + 2)%nat = Some 0) ∧
      opacity layer = 1 ∧
      velocities layer = velocities layer0 ∧
      length (velocities layer) = (count cfg * 3)%nat ∧
      lifetimes layer = lifetimes layer0 ∧
      length (lifetimes layer) = count cfg.
Proof.
  intros constructed triggered.
  pose proof (new_layers rand sc) as [Hlen Hdelay]. fold constructed in Hlen, Hdelay.
  pose proof (new_spec rand sc) as (_ & _ & _ & Hbuilt). fold constructed in Hbuilt.
  clearbody constructed.
  pose proof (runOps_fixed ops constructed) as Hfix.
  pose proof (runOps_sizes ops constructed) as Hsizes.
  assert (Hlen' : length (layers triggered) = 5%nat).
  { unfold triggered, trigger. cbn [layers]. rewrite length_fmap.
    rewrite <- Hlen, <- (length_fmap fixedAtConstruction (layers constructed)),
      <- Hfix, length_fmap. reflexivity. }
  split; [exact Hlen'|].
  intros i layer Hi.
  unfold triggered, trigger in Hi. cbn [layers] in Hi.
  rewrite list_lookup_fmap in Hi.
  destruct (layers (runOps ops constructed) !! i) as [before|] eqn:Hbefore;
    [|discriminate].
  injection Hi as <-.
  assert (Hfixed : ∃ layer0, layers constructed !! i = Some layer0 ∧
                     fixedAtConstruction before = fixedAtConstruction layer0 ∧
                     length (attrPositions before) = length (attrPositions layer0)).
  { assert (H : (fixedAtConstruction <$> layers (runOps ops constructed)) !! i
                = (fixedAtConstruction <$> layers constructed) !! i)
      by (rewrite Hfix; reflexivity).
    assert (H' : ((fun layer => length (attrPositions layer))
                    <$> layers (runOps ops constructed)) !! i
                 = ((fun layer => length (attrPositions layer))
                      <$> layers constructed) !! i)
      by (rewrite Hsizes; reflexivity).
    rewrite !list_lookup_fmap, Hbefore in H.
    rewrite (list_lookup_fmap _ (layers (runOps ops constructed))),
      (list_lookup_fmap _ (layers constructed)), Hbefore in H'.
    destruct (layers constructed !! i) as [layer0|]; [|discriminate].
    exists layer0. split; [reflexivity|].
    cbn [fmap option_fmap option_map] in H, H'. split; congruence. }
  destruct Hfixed as (layer0 & H0 & Heq & Hsize).
  unfold fixedAtConstruction in Heq. injection Heq as Hd Hv Hl.
  assert (Hcfg : ∃ cfg, layerConfigs !! i = Some cfg).
  { apply lookup_lt_is_Some. apply lookup_lt_Some in H0.
    rewrite Hlen in H0. exact H0. }
  destruct Hcfg as [cfg Hcfg].
  destruct (Hbuilt i cfg Hcfg) as (layer0' & base' & sc' & Hl0 & _ & Hbuild).
  rewrite H0 in Hl0. injection Hl0 as <-. cbv zeta in Hbuild.
  pose proof (createLayer_spec (count cfg) (color cfg) (size cfg) (speed cfg)
                rand base' sc')
    as (_ & _ & _ & _ & _ & Hattr & Hlp & _ & Hlv & Hll & _).
  cbv zeta in Hattr, Hlp, Hlv, Hll.
  assert (Hsize0 : length (attrPositions layer0) = (count cfg * 3)%nat)
    by (rewrite Hbuild; cbn [attrPositions]; rewrite Hattr; exact Hlp).
  assert (Hlv0 : length (velocities layer0) = (count cfg * 3)%nat)
    by (rewrite Hbuild; cbn [velocities]; exact Hlv).
  assert (Hll0 : length (lifetimes layer0) = count cfg)
    by (rewrite Hbuild; cbn [lifetimes]; exact Hll).
  assert (Hzero : attrPositions (triggerLayer start before)
                  = replicate (count cfg * 3) 0)
    by (rewrite triggerLayer_positions_origin, Hsize, Hsize0; reflexivity).
  exists cfg, layer0.
  split; [exact Hcfg|]. split; [exact H0|].
  split.
  { cbn [triggerLayer startTime]. rewrite Hd, (Hdelay i layer0 H0). reflexivity. }
  split; [reflexivity|]. split; [reflexivity|].
  split; [exact Hzero|].
  split.
  { intros p Hp. rewrite Hzero.
    repeat split; apply lookup_replicate_2; lia. }
  split; [cbn [triggerLayer opacity]; lra|].
  cbn [triggerLayer velocities lifetimes].
  split; [exact Hv|]. split; [rewrite Hv; exact Hlv0|].
  split; [exact Hl | rewrite Hl; exact Hll0].
Qed.





Lemma disposeLayers_spec (ls : list BurstLayer) :
  ∀ sc : Three.Scene,
  Three.children (foldl disposeLayer sc ls)
    = Three.children sc ∖ list_to_set (points <$> ls) ∧
  Three.disposedGeometries (foldl disposeLayer sc ls)
    = list_to_set (points <$> ls) ∪ Three.disposedGeometries sc ∧
  Three.disposedMaterials (foldl disposeLayer sc ls)
    = list_to_set (points <$> ls) ∪ Three.disposedMaterials sc ∧
  Three.nextId (foldl disposeLayer sc ls) = Three.nextId sc.
Proof.
  induction ls as [|l ls IH]; intros sc; cbn [foldl fmap list_fmap list_to_set].
  - repeat split; set_solver.
  - destruct (IH (disposeLayer sc l)) as (-> & -> & -> & ->).
    unfold disposeLayer.
    cbn [Three.children Three.disposedGeometries Three.disposedMaterials
         Three.nextId Three.remove Three.dispose_geometry Three.dispose_material].
    repeat split; set_solver.
Qed.

(** [dispose] empties the system; the object of every layer is
    detached from the scene and its geometry and material are disposed,
    while objects of other systems stay attached; on the emptied system
    [trigger] and [update] do nothing. *)
Theorem burst_dispose_releases (bs : t) (sc : Three.Scene) :
  let bs' := (dispose bs sc).1 in
  let sc' := (dispose bs sc).2 in
  layers bs' = [] ∧
  (∀ layer, layer ∈ layers bs →
     (points layer ∉ Three.children sc') ∧
     (points layer ∈ Three.disposedGeometries sc') ∧
     (points layer ∈ Three.disposedMaterials sc')) ∧
  (∀ o, (o ∉ points <$> layers bs) → (o ∈ Three.children sc' ↔ o ∈ Three.children sc)) ∧
  (∀ time, trigger time bs' = bs' ∧ update time bs' = bs').
Proof.
  cbv zeta. unfold dispose. cbn [fst snd layers].
  destruct (disposeLayers_spec (layers bs) sc) as (Hc & Hg & Hm & _).
  split; [reflexivity|]. split; [|split].
  - intros layer Hin.
    assert (Hp : points layer ∈ (list_to_set (points <$> layers bs) : gset Three.ObjId)).
    { apply elem_of_list_to_set, list_elem_of_fmap. eauto. }
    rewrite Hc, Hg, Hm. set_solver.
  - intros o Ho. rewrite Hc.
    assert (Hp : o ∉ (list_to_set (points <$> layers bs) : gset Three.ObjId))
      by (rewrite elem_of_list_to_set; exact Ho).
    set_solver.
  - intros time. split; reflexivity.
Qed.

End BurstUpdate.


(** ** Firework system: spawning, motion, disposal *)
Section FireworkFurther.
Import FireworkSystem.

Lemma Int_part_range (x : R) (m : Z) :
  0 <= x < IZR m → (0 <= Int_part x < m)%Z.
Proof.
  intros [H0 Hm]. destruct (base_Int_part x) as [Hle Hgt]. split.
  - destruct (Z_lt_le_dec (Int_part x) 0) as [Hneg | Hpos]; [|exact Hpos].
    exfalso. assert (Int_part x <= -1)%Z as H by lia. apply IZR_le in H. lra.
  - apply lt_IZR. lra.
Qed.

(** The particle loop of [spawn] after [k] of its iterations. *)
Lemma spawnParticles_spec (x y z : R) (rand : nat → R) (ps : list R) (k : nat) :
  (k * 3 <= length ps)%nat →
  let bufs := foldl (spawnParticle x y z rand) (ps, []) (seq 0%nat k) in
  length bufs.1 = length ps ∧
  (∀ i, (i < k)%nat →
     bufs.1 !! (i * 3)%nat = Some (Math_fround x) ∧
     bufs.1 !! (i * 3 + 1)%nat = Some (Math_fround y) ∧
     bufs.1 !! (i * 3 + 2)%nat = Some (Math_fround z)) ∧
  bufs.2
  = (fun i =>
       let speed := 4 + rand (5 + 5 * i)%nat * 10 in
       let phi := rand (5 + 5 * i + 1)%nat * Math_PI * 2 in
       let theta := acos (2 * rand (5 + 5 * i + 2)%nat - 1) in
       mkVec3 (speed * sin theta * cos phi) (speed * sin theta * sin phi)
         (speed * cos theta)) <$> seq 0%nat k.
Proof.
  induction k as [|k IH]; intros Hk; cbv zeta.
  - cbn [seq foldl fst snd fmap list_fmap]. split; [reflexivity|].
    split; [intros i Hi; lia | reflexivity].
  - rewrite seq_S, foldl_app, fmap_app. cbn [foldl Nat.add fmap list_fmap].
    specialize (IH ltac:(lia)). cbv zeta in IH.
    destruct (foldl (spawnParticle x y z rand) (ps, []) (seq 0%nat k))
      as [ps' vs'].
    cbn [fst snd] in IH. destruct IH as (Hlen & Hcells & ->).
    cbn [spawnParticle fst snd]. cbv zeta. unfold Three.store.
    cbn [fst snd]. rewrite !length_insert.
    split; [exact Hlen|]. split; [|reflexivity].
    intros i Hi. destruct (decide (i = k)) as [-> | Hne].
    + rewrite !list_lookup_insert, !length_insert.
      repeat split; repeat case_decide; try reflexivity; lia.
    + rewrite !list_lookup_insert_ne by lia. apply Hcells. lia.
Qed.

Lemma float32_small_integer (m : Z) :
  (Z.abs m < 2 ^ 24)%Z → float32 (IZR m).
Proof.
  intros Hm. exists m, 0%Z. split; [simpl; lra | split; [exact Hm | lia]].
Qed.

(** Narrowing keeps a value between two integers of small magnitude. *)
Lemma Math_fround_between (x : R) (lo hi : Z) :
  IZR lo <= x <= IZR hi → (Z.abs lo < 2 ^ 24)%Z → (Z.abs hi < 2 ^ 24)%Z →
  IZR lo <= Math_fround x <= IZR hi.
Proof.
  intros [Hlo Hhi] Hl Hh. split.
  - apply Math_fround_ge; [exact Hlo | apply float32_small_integer; exact Hl].
  - apply Math_fround_le; [exact Hhi | apply float32_small_integer; exact Hh].
Qed.

(** X20: what [spawn] builds, for [Math.random()] in [0,1).  The new
    firework has between 400 and 699 particles, a position buffer of three
    cells per particle, opacity 1 and one of the celebration colours.  All
    its particles start at one launch point, the float32 narrowing of a
    point at a distance in [8,26] from the vertical axis and a height in
    [-5,13]; the stored coordinates lie within [-26,26], [-5,13] and
    [-26,26].  Every particle's velocity is a speed in [4,14] times a
    direction, so each of its coordinates is within [-14,14]. *)
Theorem spawn_firework (currentTime : R) (rand : nat → R) (fs : t)
    (sc : Three.Scene) :
  (∀ k, 0 <= rand k < 1) →
  ∃ fw, fireworks (spawn currentTime rand (fs, sc)).1 = fireworks fs ++ [fw] ∧
    (400 <= length (velocities fw) <= 699)%nat ∧
    length (positions fw) = (length (velocities fw) * 3)%nat ∧
    opacity fw = 1 ∧ startTime fw = currentTime ∧
    color fw ∈ CELEBRATION_COLORS ∧
    (∃ angle distance height,
       8 <= distance <= 26 ∧ -5 <= height <= 13 ∧
       let x := Math_fround (cos angle * distance) in
       let y := Math_fround height in
       let z := Math_fround (sin angle * distance) in
       -26 <= x <= 26 ∧ -5 <= y <= 13 ∧ -26 <= z <= 26 ∧
       ∀ i, (i < length (velocities fw))%nat →
         positions fw !! (i * 3)%nat = Some x ∧
         positions fw !! (i * 3 + 1)%nat = Some y ∧
         positions fw !! (i * 3 + 2)%nat = Some z) ∧
    Forall (fun v =>
              (∃ speed theta phi,
                 4 <= speed <= 14 ∧
                 v = mkVec3 (speed * sin theta * cos phi)
                       (speed * sin theta * sin phi) (speed * cos theta)) ∧
              -14 <= vx v <= 14 ∧ -14 <= vy v <= 14 ∧ -14 <= vz v <= 14)
      (velocities fw).
Proof.
  intros Hrand. unfold spawn.
  set (n := (400 + Z.to_nat (Math_floor (rand 4%nat * 300)))%nat).
  set (x := cos (rand 0%nat * Math_PI * 2) * (8 + rand 1%nat * 18)).
  set (z := sin (rand 0%nat * Math_PI * 2) * (8 + rand 1%nat * 18)).
  set (y := -5 + rand 2%nat * 18).
  pose proof (spawnParticles_spec x y z rand (Three.Float32Array_new (n * 3)) n) as Hloop.
  unfold Three.Float32Array_new in *. rewrite length_replicate in Hloop.
  specialize (Hloop ltac:(lia)). cbv zeta in Hloop.
  destruct (foldl (spawnParticle x y z rand) (replicate (n * 3) 0, []) (seq 0%nat n))
    as [positions velocities].
  cbn [fst snd] in Hloop. destruct Hloop as (Hlen & Hcells & Hvel).
  assert (Hn : (400 <= n <= 699)%nat).
  { unfold n, Math_floor.
    pose proof (Int_part_range (rand 4%nat * 300) 300) as Hr.
    specialize (Hrand 4%nat). specialize (Hr ltac:(lra)). lia. }
  assert (Hvlen : length velocities = n)
    by (rewrite Hvel, length_fmap, length_seq; reflexivity).
  eexists. split; [reflexivity|].
  cbn [FireworkSystem.velocities FireworkSystem.positions FireworkSystem.opacity
       FireworkSystem.startTime FireworkSystem.color].
  rewrite Hvlen.
  split; [exact Hn|]. split; [exact Hlen|]. split; [reflexivity|].
  split; [reflexivity|]. split; [|split].
  - pose proof (Int_part_range (rand 3%nat * INR (length CELEBRATION_COLORS)) 7) as Hr.
    specialize (Hrand 3%nat). unfold Math_floor.
    assert (HINR : INR (length CELEBRATION_COLORS) = 7) by (simpl; lra).
    rewrite HINR in *. specialize (Hr ltac:(lra)).
    destruct (lookup_lt_is_Some_2 CELEBRATION_COLORS
                (Z.to_nat (Int_part (rand 3%nat * 7)))) as [c Hc].
    { simpl. lia. }
    rewrite Hc. cbn [default from_option]. unfold Datatypes.id.
    eapply list_elem_of_lookup_2. exact Hc.
  - exists (rand 0%nat * Math_PI * 2), (8 + rand 1%nat * 18), y.
    fold x z. cbv zeta.
    pose proof (Hrand 1%nat) as Hd. pose proof (Hrand 2%nat) as Hh.
    pose proof (SIN_bound (rand 0%nat * Math_PI * 2)) as Hsin.
    pose proof (COS_bound (rand 0%nat * Math_PI * 2)) as Hcos.
    split; [lra|]. split; [unfold y; lra|].
    split; [apply (Math_fround_between x (-26) 26); [unfold x; nra | reflexivity..]|].
    split; [apply (Math_fround_between y (-5) 13); [unfold y; lra | reflexivity..]|].
    split; [apply (Math_fround_between z (-26) 26); [unfold z; nra | reflexivity..]|].
    exact Hcells.
  - rewrite Hvel. apply Forall_fmap, Forall_forall. intros i _.
    unfold compose. cbv beta zeta. cbn [vx vy vz].
    pose proof (SIN_bound (rand (5 + 5 * i + 1)%nat * Math_PI * 2)) as Hsp.
    pose proof (COS_bound (rand (5 + 5 * i + 1)%nat * Math_PI * 2)) as Hcp.
    pose proof (SIN_bound (acos (2 * rand (5 + 5 * i + 2)%nat - 1))) as Hst.
    pose proof (COS_bound (acos (2 * rand (5 + 5 * i + 2)%nat - 1))) as Hct.
    set (sp := sin (rand (5 + 5 * i + 1)%nat * Math_PI * 2)) in *.
    set (cp := cos (rand (5 + 5 * i + 1)%nat * Math_PI * 2)) in *.
    set (st := sin (acos (2 * rand (5 + 5 * i + 2)%nat - 1))) in *.
    set (ct := cos (acos (2 * rand (5 + 5 * i + 2)%nat - 1))) in *.
    pose proof (Hrand (5 + 5 * i)%nat) as Hs.
    set (speed := 4 + rand (5 + 5 * i)%nat * 10) in *.
    assert (Hspeed : 4 <= speed <= 14) by (unfold speed; lra).
    split.
    { exists speed, (acos (2 * rand (5 + 5 * i + 2)%nat - 1)),
        (rand (5 + 5 * i + 1)%nat * Math_PI * 2).
      split; [exact Hspeed | reflexivity]. }
    assert (Hx : -1 <= st * cp <= 1) by nra.
    assert (Hy : -1 <= st * sp <= 1) by nra.
    rewrite !(Rmult_assoc speed).
    repeat split; nra.
Qed.

Lemma spawn_firework_witness :
  ∃ fw, fireworks (spawn 0 (fun _ => 0.5) (new, Three.empty)).1
        = fireworks new ++ [fw] ∧
        (400 <= length (velocities fw) <= 699)%nat ∧
        length (positions fw) = (length (velocities fw) * 3)%nat.
Proof.
  destruct (spawn_firework 0 (fun _ => 0.5) new Three.empty) as (fw & H1 & H2 & H3 & _).
  - intros k. lra.
  - exists fw. split; [exact H1|]. split; [exact H2 | exact H3].
Defined.










Lemma disposeFireworks_spec (fws : list FireworkParticle) :
  ∀ sc : Three.Scene,
  Three.children (foldl disposeFirework sc fws)
    = Three.children sc ∖ list_to_set (points <$> fws) ∧
  Three.disposedGeometries (foldl disposeFirework sc fws)
    = list_to_set (points <$> fws) ∪ Three.disposedGeometries sc ∧
  Three.disposedMaterials (foldl disposeFirework sc fws)
    = list_to_set (points <$> fws) ∪ Three.disposedMaterials sc ∧
  Three.nextId (foldl disposeFirework sc fws) = Three.nextId sc.
Proof.
  induction fws as [|fw fws IH]; intros sc; cbn [foldl fmap list_fmap list_to_set].
  - repeat split; set_solver.
  - destruct (IH (disposeFirework sc fw)) as (-> & -> & -> & ->).
    unfold disposeFirework.
    cbn [Three.children Three.disposedGeometries Three.disposedMaterials
         Three.nextId Three.remove Three.dispose_geometry Three.dispose_material].
    repeat split; set_solver.
Qed.

(** X23: the opacity of the fireworks an [update] keeps.  When every
    firework has a positive lifetime and started no later than [time],
    every firework left active by [update(time, dt)] has an opacity in
    (0, 1] and its position attribute flagged for upload. *)
Theorem update_opacity_range (time dt : R) (fs : t) (sc : Three.Scene) :
  Forall (fun fw => 0 < lifetime fw ∧ startTime fw <= time) (fireworks fs) →
  Forall (fun fw => 0 < opacity fw <= 1 ∧ needsUpdate fw = true)
    (fireworks (update time dt (fs, sc)).1).
Proof.
  intros Hall. rewrite update_spec. cbn [fst fireworks].
  apply Forall_fmap, Forall_forall. intros fw Hin.
  apply list_elem_of_filter in Hin as [Hlive Hin].
  rewrite Forall_forall in Hall. destruct (Hall fw Hin) as [HL Hs].
  unfold compose, advance. cbv zeta. cbn [opacity needsUpdate].
  split; [|reflexivity].
  unfold expired, normalizedTime in Hlive. unfold Ease.inQuad.
  set (nt := (time - startTime fw) / lifetime fw) in *.
  assert (0 <= nt).
  { unfold nt. apply Rmult_le_pos; [lra|].
    apply Rlt_le, Rinv_0_lt_compat. exact HL. }
  nra.
Qed.

Lemma update_opacity_range_witness :
  Forall (fun fw => 0 < opacity fw <= 1 ∧ needsUpdate fw = true)
    (fireworks (update 1 0.016
                  (mkSystem [mkFirework 0%nat [] [] false 1 0 2.5 0%Z],
                   Three.empty)).1).
Proof.
  apply (update_opacity_range 1 0.016).
  apply List.Forall_cons; [cbn [lifetime startTime]; lra | apply List.Forall_nil].
Defined.

(** [dispose] empties the firework system: the object of every
    active firework is detached from the scene and its geometry and
    material are disposed, objects of other systems stay attached, and an
    [update] of the emptied system changes neither it nor the scene. *)
Theorem firework_dispose_releases (fs : t) (sc : Three.Scene) :
  let fs' := (dispose (fs, sc)).1 in
  let sc' := (dispose (fs, sc)).2 in
  fireworks fs' = [] ∧
  (∀ fw, fw ∈ fireworks fs →
     (points fw ∉ Three.children sc') ∧
     (points fw ∈ Three.disposedGeometries sc') ∧
     (points fw ∈ Three.disposedMaterials sc')) ∧
  (∀ o, (o ∉ points <$> fireworks fs) →
     (o ∈ Three.children sc' ↔ o ∈ Three.children sc)) ∧
  (∀ time dt, update time dt (fs', sc') = (fs', sc')).
Proof.
  cbv zeta. unfold dispose. cbn [fst snd fireworks].
  destruct (disposeFireworks_spec (fireworks fs) sc) as (Hc & Hg & Hm & _).
  split; [reflexivity|]. split; [|split].
  - intros fw Hin.
    assert (Hp : points fw ∈ (list_to_set (points <$> fireworks fs) : gset Three.ObjId)).
    { apply elem_of_list_to_set, list_elem_of_fmap. eauto. }
    rewrite Hc, Hg, Hm. set_solver.
  - intros o Ho. rewrite Hc.
    assert (Hp : o ∉ (list_to_set (points <$> fireworks fs) : gset Three.ObjId))
      by (rewrite elem_of_list_to_set; exact Ho).
    set_solver.
  - intros time dt. reflexivity.
Qed.

End FireworkFurther.


(** ** Shockwave system *)
Section ShockwaveProperties.
Import ShockwaveSystem.

(** [refresh] keeps the mesh and the timing of a shockwave. *)
Lemma refresh_fixed (time : R) (sw sw' : Shockwave) :
  refresh time sw = Some sw' →
  mesh sw' = mesh sw ∧ startTime sw' = startTime sw ∧
  duration sw' = duration sw ∧ maxRadius sw' = maxRadius sw.
Proof.
  unfold refresh. cbv zeta. repeat case_decide; intros [= <-]; repeat split.
Qed.








End ShockwaveProperties.

(** ** Flash plane *)
Section FlashPlaneProperties.
Import FlashPlane.

Lemma update_flashIntensity (time d h : R) (fp : t) :
  flashIntensity (update time d h fp) = flashIntensity fp * 0.85.
Proof. unfold update. cbv zeta. repeat case_decide; reflexivity. Qed.

Lemma updates_flashIntensity (frames : list (R * R * R)) :
  ∀ fp, flashIntensity (updates frames fp)
        = flashIntensity fp * 0.85 ^ length frames.
Proof.
  unfold updates.
  induction frames as [|[[time d] h] frames IH]; intros fp; cbn [foldl length pow].
  - lra.
  - rewrite IH, update_flashIntensity. lra.
Qed.

(** X26: the flash decays geometrically.  [triggerFlash] caps the
    intensity at 1 (and only from above); after any [n] frame updates,
    whatever their arguments, [getFlashIntensity()] is the capped intensity
    times [0.85 ^ n]; for a non-negative intensity it therefore stays
    between 0 and the capped intensity. *)
Theorem flash_decay (intensity : R) (frames : list (R * R * R)) (fp : t) :
  getFlashIntensity (triggerFlash intensity fp) = Math_min 1 intensity ∧
  getFlashIntensity (triggerFlash intensity fp) <= 1 ∧
  getFlashIntensity (updates frames (triggerFlash intensity fp))
    = Math_min 1 intensity * 0.85 ^ length frames ∧
  (0 <= intensity →
   0 <= getFlashIntensity (updates frames (triggerFlash intensity fp))
     <= Math_min 1 intensity).
Proof.
  unfold getFlashIntensity. rewrite updates_flashIntensity.
  cbn [triggerFlash flashIntensity].
  assert (Hpow : 0 < 0.85 ^ length frames <= 1).
  { induction (length frames) as [|n IH]; cbn [pow]; [lra | nra]. }
  assert (Hmin : Math_min 1 intensity <= 1) by (apply Rmin_l).
  split; [reflexivity|]. split; [exact Hmin|]. split; [reflexivity|].
  intros Hi.
  assert (0 <= Math_min 1 intensity) by (apply Rmin_glb; lra).
  nra.
Qed.

(** The opacity the flash plane shows.  After an [update] the
    material's opacity is [0.4 * min(1, 0.85 * flash + 0.15 * heartbeat *
    dramatic)]: never above 0.4, not negative when the flash and the
    product of the two intensities are not, and at least 0.34 on the frame
    that follows a full flash. *)
Theorem flash_opacity_bounds (time d h : R) (fp : t) :
  opacity (update time d h fp)
    = Math_min 1 (flashIntensity fp * 0.85 + h * d * 0.15) * 0.4 ∧
  opacity (update time d h fp) <= 0.4 ∧
  (0 <= flashIntensity fp → 0 <= h * d → 0 <= opacity (update time d h fp)) ∧
  (0 <= h * d → 0.34 <= opacity (update time d h (triggerFlash 1 fp))).
Proof.
  assert (Hop : ∀ fp, opacity (update time d h fp)
                      = Math_min 1 (flashIntensity fp * 0.85 + h * d * 0.15) * 0.4).
  { intros fp0. unfold update. cbv zeta. repeat case_decide; reflexivity. }
  rewrite !Hop. cbn [triggerFlash flashIntensity]. unfold Math_min.
  split; [reflexivity|]. split; [|split].
  - pose proof (Rmin_l 1 (flashIntensity fp * 0.85 + h * d * 0.15)). lra.
  - intros Hf Hhd.
    assert (0 <= Rmin 1 (flashIntensity fp * 0.85 + h * d * 0.15))
      by (apply Rmin_glb; nra).
    lra.
  - intros Hhd. rewrite (Rmin_left 1 1) by lra.
    assert (0.85 <= Rmin 1 (1 * 0.85 + h * d * 0.15))
      by (apply Rmin_glb; nra).
    lra.
Qed.

End FlashPlaneProperties.


(** ** Scene orchestrator: intensities, cadence, ownership *)
Section OrchestratorFurther.
Import Countdown Orchestrator SceneNotions.

(** One run of the frame callback on a live scene, spelled out. *)
Lemma animate_unfold (f : Frame) (s : t) :
  isDisposed s = false →
  let time := elapsedTime f in
  let dt := Math_min (delta f) 0.1 in
  ∃ dI sp hb sh,
    Ease.dramaticRamp (progress s) = Some dI ∧
    smoothLerp (smoothProgress s) (progress s) 0.1 dt = Some sp ∧
    Math_pow (Math_sin ((pulsePhase s + dt * (1 + dI * 4)) * Math_PI)) 8 = Some hb ∧
    smoothLerp (shakeIntensity s) (targetShakeIntensity s) 0.1 dt = Some sh ∧
    let cs := celebrationSpawn f s
                (FireworkSystem.update time dt (fireworkSystem s, scene s)) in
    animate f s
    = Some (mk cs.1.1.2 (BurstSystem.update time (burstSystem s)) cs.1.1.1
              (progress s) (phase s) sp (climaxStartTime s)
              (celebrationStartTime s) cs.1.2 sh (targetShakeIntensity s * 0.98)
              (pulsePhase s + dt * (1 + dI * 4)) hb (Some (frameId f))
              (isDisposed s) (canvasAttached s)
              (calls s ++
                 [RequestAnimationFrame;
                  StarFieldUpdate time dt dI;
                  TimeParticlesUpdate time dt sp (phase s) dI hb
                    (celebrationStartTime s);
                  BurstUpdate time;
                  ShockwaveUpdate time;
                  FireworkUpdate time dt;
                  FlashUpdate time dI hb]
                 ++ cs.2 ++
                 [UpdateCamera time dt dI; UpdateFOV dI (fovDelta f); Render])).
Proof.
  intros Hlive. cbv zeta. unfold animate. rewrite Hlive.
  destruct (dramaticRamp_total (progress s)) as [dI HdI].
  destruct (smoothLerp_total (smoothProgress s) (progress s) 0.1
              (Math_min (delta f) 0.1)) as [sp Hsp]; [lra|].
  destruct (Math_pow_8_total
              (Math_sin ((pulsePhase s + Math_min (delta f) 0.1 * (1 + dI * 4))
                         * Math_PI))) as [hb Hhb].
  destruct (smoothLerp_total (shakeIntensity s) (targetShakeIntensity s) 0.1
              (Math_min (delta f) 0.1)) as [sh Hsh]; [lra|].
  exists dI, sp, hb, sh.
  rewrite HdI. cbn [mbind option_bind]. rewrite Hsp. cbn [mbind option_bind].
  rewrite Hhb. cbn [mbind option_bind]. rewrite Hsh. cbn [mbind option_bind].
  repeat (split; [reflexivity|]).
  destruct (celebrationSpawn f s _) as [[[fws sc] last] spawnCalls].
  reflexivity.
Qed.

Lemma Math_pow_8_range (b : R) :
  -1 <= b <= 1 → ∃ v, Math_pow b 8 = Some v ∧ 0 <= v <= 1.
Proof.
  intros Hb. destruct (Rtotal_order b 0) as [Hneg | [-> | Hpos]].
  - rewrite (Math_pow_neg_integer b 8) by (lra || lia).
    eexists. split; [reflexivity|]. cbn [Z.even].
    pose proof (Rpower_unit_interval (- b) 8). lra.
  - rewrite Math_pow_base_0 by lra. exists 0. split; [reflexivity | lra].
  - rewrite Math_pow_pos by lra. eexists. split; [reflexivity|].
    pose proof (Rpower_unit_interval b 8). lra.
Qed.

(** Smoothing at speed 0.1 over a non-negative step stays between the
    current value and the target. *)
Lemma smoothLerp_between (current target dt v lo hi : R) :
  0 <= dt → lo <= current <= hi → lo <= target <= hi →
  smoothLerp current target 0.1 dt = Some v → lo <= v <= hi.
Proof.
  intros Hdt Hc Ht. unfold smoothLerp.
  destruct (Math_pow_decay 0.1 dt ltac:(lra) Hdt) as (p & -> & Hp & _).
  cbn [mbind option_bind]. intros [= <-]. nra.
Qed.

Lemma step_intensities (e : Event) (s : t) :
  match e with EvAnimate f => 0 <= delta f | _ => True end →
  0 <= shakeIntensity s <= 3 ∧ 0 <= targetShakeIntensity s <= 3 ∧
  0 <= heartbeatIntensity s <= 1 →
  ∃ s', step e s = Some s' ∧
        0 <= shakeIntensity s' <= 3 ∧ 0 <= targetShakeIntensity s' <= 3 ∧
        0 <= heartbeatIntensity s' <= 1.
Proof.
  intros He (Hsh & Htg & Hhb).
  destruct e as [p ph time | f | time rand | |]; cbn [step].
  - eexists. split; [reflexivity|].
    unfold updateProgress, triggerClimax, triggerCelebration. cbv zeta.
    repeat (case_match;
            cbn [shakeIntensity targetShakeIntensity heartbeatIntensity phase]);
      repeat split; lra.
  - destruct (isDisposed s) eqn:Hd.
    + rewrite animate_disposed by exact Hd. eauto.
    + destruct (animate_unfold f s Hd) as (dI & sp & hb & sh & _ & _ & Hpow & Hlerp & ->).
      cbv zeta in Hpow, Hlerp |- *.
      eexists. split; [reflexivity|].
      cbn [shakeIntensity targetShakeIntensity heartbeatIntensity].
      assert (Hdt : 0 <= Math_min (delta f) 0.1) by (apply Rmin_glb; lra).
      split; [exact (smoothLerp_between _ _ _ _ 0 3 Hdt Hsh Htg Hlerp)|].
      split; [lra|].
      match type of Hpow with
      | Math_pow ?b 8 = _ =>
          destruct (Math_pow_8_range b) as (v & Hv & Hrange)
      end.
      { unfold Math_sin.
        match goal with |- _ <= sin ?x <= _ => pose proof (SIN_bound x) end. lra. }
      rewrite Hv in Hpow. injection Hpow as <-. exact Hrange.
  - eexists. split; [reflexivity|]. unfold deferredSpawn.
    destruct (isDisposed s); [auto|].
    destruct (FireworkSystem.spawn _ _ _). cbn. auto.
  - eexists. split; [reflexivity|]. unfold handleResize.
    destruct (isDisposed s); cbn; auto.
  - eexists. split; [reflexivity|]. unfold dispose.
    destruct (BurstSystem.dispose _ _). destruct (FireworkSystem.dispose _).
    cbn. auto.
Qed.

Lemma run_intensities (es : list Event) :
  ∀ s, forwardClock es →
  0 <= shakeIntensity s <= 3 ∧ 0 <= targetShakeIntensity s <= 3 ∧
  0 <= heartbeatIntensity s <= 1 →
  ∃ s', run es s = Some s' ∧
        0 <= shakeIntensity s' <= 3 ∧ 0 <= targetShakeIntensity s' <= 3 ∧
        0 <= heartbeatIntensity s' <= 1.
Proof.
  induction es as [|e es IH]; intros s Hclock Hinv; cbn [run].
  - eauto.
  - apply Forall_cons in Hclock as [He Hes].
    destruct (step_intensities e s He Hinv) as (s1 & -> & Hinv1).
    cbn [mbind option_bind]. apply IH; assumption.
Qed.

(** X27: the camera shake and the heartbeat stay bounded.  Whatever the
    host runs on a scene, in any order, as long as the clock never reports
    a negative delta: the run has a result, the shake intensity and its
    target are within [0,3], and the heartbeat intensity is within [0,1]. *)
Theorem intensities_bounded (rand : nat → R) (es : list Event) :
  forwardClock es →
  ∃ s, run es (initial rand) = Some s ∧
       0 <= shakeIntensity s <= 3 ∧ 0 <= targetShakeIntensity s <= 3 ∧
       0 <= heartbeatIntensity s <= 1.
Proof.
  intros Hclock. apply run_intensities; [exact Hclock|].
  unfold initial. destruct (BurstSystem.new rand Three.empty) as [burst sc].
  cbn [shakeIntensity targetShakeIntensity heartbeatIntensity]. lra.
Qed.

Lemma intensities_bounded_witness :
  ∃ s, run [EvUpdateProgress 1 climax 0;
            EvAnimate (mkFrame 1 0.016 0.016 0.016 0.5 0.5 (fun _ => 0.5))]
         (initial (fun _ => 0.5)) = Some s ∧
       0 <= shakeIntensity s <= 3 ∧ 0 <= targetShakeIntensity s <= 3 ∧
       0 <= heartbeatIntensity s <= 1.
Proof.
  apply (intensities_bounded (fun _ => 0.5)).
  apply List.Forall_cons; [exact I|].
  apply List.Forall_cons; [cbn [delta]; lra | apply List.Forall_nil].
Defined.



(** The objects and the scene the burst constructor leaves. *)
Lemma createLayersFrom_objects (configs : list BurstSystem.BurstLayerConfig) :
  ∀ (index : nat) (rand : nat → R) (base : nat)
    (acc : list BurstSystem.BurstLayer) (sc : Three.Scene),
  let r := BurstSystem.createLayersFrom configs index rand base (acc, sc) in
  BurstSystem.points <$> r.1
    = (BurstSystem.points <$> acc) ++ seq (Three.nextId sc) (length configs) ∧
  Three.disposedGeometries r.2 = Three.disposedGeometries sc ∧
  Three.disposedMaterials r.2 = Three.disposedMaterials sc.
Proof.
  induction configs as [|cfg rest IH]; intros index rand base acc sc; cbv zeta.
  - cbn [BurstSystem.createLayersFrom fst snd length seq].
    rewrite app_nil_r. repeat split.
  - cbn [BurstSystem.createLayersFrom].
    pose proof (createLayer_spec (BurstSystem.count cfg) (BurstSystem.color cfg)
                  (BurstSystem.size cfg) (BurstSystem.speed cfg) rand base sc)
      as (Hp & Hsc & _).
    destruct (BurstSystem.createLayer _ _ _ _ _ _ _) as [built sc1].
    cbn [fst snd] in Hp, Hsc.
    match goal with
    | |- context [BurstSystem.createLayersFrom rest ?i ?r ?b (?a, _)] =>
        specialize (IH i r b a sc1)
    end.
    cbv zeta in IH. destruct IH as (-> & -> & ->).
    subst sc1. rewrite fmap_app.
    cbn [fmap list_fmap BurstSystem.points Three.add Three.alloc Three.nextId
         Three.disposedGeometries Three.disposedMaterials snd length seq].
    rewrite Hp, <- app_assoc. repeat split.
Qed.

Lemma burst_trigger_objects (time : R) (bs : BurstSystem.t) :
  burstObjects (BurstSystem.trigger time bs) = burstObjects bs.
Proof.
  unfold burstObjects, BurstSystem.trigger. cbn [BurstSystem.layers].
  rewrite <- list_fmap_compose. apply list_fmap_ext. intros i l _. reflexivity.
Qed.

Lemma burst_update_objects (time : R) (bs : BurstSystem.t) :
  burstObjects (BurstSystem.update time bs) = burstObjects bs.
Proof.
  unfold burstObjects, BurstSystem.update. cbn [BurstSystem.layers].
  rewrite <- list_fmap_compose. apply list_fmap_ext. intros i l _.
  unfold compose, BurstSystem.updateLayer.
  destruct (BurstSystem.startTime l); [|reflexivity].
  cbv zeta. case_decide; reflexivity.
Qed.

(** An [update] of the firework system keeps the remaining objects in use. *)
Lemma inUse_firework_update (time dt : R) (owned : list Three.ObjId)
    (fs : FireworkSystem.t) (sc : Three.Scene) :
  inUse (owned ++ fireworkObjects fs) sc →
  inUse (owned ++ fireworkObjects (FireworkSystem.update time dt (fs, sc)).1)
    (FireworkSystem.update time dt (fs, sc)).2.
Proof.
  intros (Hnd & Hin & Hdisp). rewrite update_spec. cbn [fst snd].
  unfold fireworkObjects in *. cbn [FireworkSystem.fireworks].
  destruct (removeObjects_spec
              (FireworkSystem.points <$>
                 filter (FireworkSystem.expired time) (FireworkSystem.fireworks fs)) sc)
    as (Hc & Hg & Hm & Hn).
  assert (Hkept : FireworkSystem.points <$>
                    (FireworkSystem.advance time <$>
                       filter (fun fw => ¬ FireworkSystem.expired time fw)
                         (FireworkSystem.fireworks fs))
                  = FireworkSystem.points <$>
                      filter (fun fw => ¬ FireworkSystem.expired time fw)
                        (FireworkSystem.fireworks fs)).
  { rewrite <- list_fmap_compose. apply list_fmap_ext. intros i fw _. reflexivity. }
  rewrite Hkept. clear Hkept.
  assert (Hsub : ∀ o,
            o ∈ owned ++ (FireworkSystem.points <$>
                            filter (fun fw => ¬ FireworkSystem.expired time fw)
                              (FireworkSystem.fireworks fs)) →
            o ∈ owned ++ (FireworkSystem.points <$> FireworkSystem.fireworks fs)).
  { intros o [Ho | Ho]%elem_of_app; apply elem_of_app; [left; exact Ho|].
    right. apply list_elem_of_fmap in Ho as (fw & -> & Hfw).
    apply list_elem_of_filter in Hfw as [_ Hfw].
    apply list_elem_of_fmap. eauto. }
  assert (Hremoved : ∀ o,
            o ∈ (list_to_set
                   (FireworkSystem.points <$>
                      filter (FireworkSystem.expired time) (FireworkSystem.fireworks fs))
                 : gset Three.ObjId) →
            ∃ fw, o = FireworkSystem.points fw ∧ fw ∈ FireworkSystem.fireworks fs ∧
                  FireworkSystem.expired time fw).
  { intros o Ho. apply elem_of_list_to_set, list_elem_of_fmap in Ho as (fw & -> & Hfw).
    apply list_elem_of_filter in Hfw as [Hexp Hfw]. eauto. }
  apply NoDup_app in Hnd as (Hnd1 & Hdisj & Hnd2).
  assert (Hfresh : ∀ o,
            o ∈ owned ++ (FireworkSystem.points <$>
                            filter (fun fw => ¬ FireworkSystem.expired time fw)
                              (FireworkSystem.fireworks fs)) →
            o ∉ (list_to_set
                   (FireworkSystem.points <$>
                      filter (FireworkSystem.expired time) (FireworkSystem.fireworks fs))
                 : gset Three.ObjId)).
  { intros o Ho Hrem. destruct (Hremoved o Hrem) as (g & -> & Hg0 & Hexp).
    apply elem_of_app in Ho as [Ho | Ho].
    - apply (Hdisj _ Ho). apply list_elem_of_fmap. eauto.
    - apply list_elem_of_fmap in Ho as (fw & Hp & Hfw).
      apply list_elem_of_filter in Hfw as [Hlive Hfw].
      assert (g = fw) by (eapply NoDup_fmap_elem_inj; eauto).
      subst g. contradiction. }
  split; [|split].
  - apply NoDup_app. split; [exact Hnd1|]. split.
    + intros o Ho Ho'. apply (Hdisj o Ho).
      apply list_elem_of_fmap in Ho' as (fw & -> & Hfw).
      apply list_elem_of_filter in Hfw as [_ Hfw].
      apply list_elem_of_fmap. eauto.
    + eapply sublist_NoDup; [exact Hnd2|]. apply fmap_sublist, sublist_filter.
  - intros o Ho. destruct (Hin o (Hsub o Ho)) as (H1 & H2 & H3 & H4).
    specialize (Hfresh o Ho). rewrite Hc, Hg, Hm, Hn.
    repeat split; [set_solver | set_solver | set_solver | exact H4].
  - intros o Ho. rewrite Hn. rewrite Hg, Hm in Ho.
    assert (Hcase : o ∈ (list_to_set
                     (FireworkSystem.points <$>
                        filter (FireworkSystem.expired time) (FireworkSystem.fireworks fs))
                     : gset Three.ObjId) ∨
                    o ∈ Three.disposedGeometries sc ∨ o ∈ Three.disposedMaterials sc)
      by set_solver.
    destruct Hcase as [Hrem | Hold]; [|exact (Hdisp o Hold)].
    destruct (Hremoved o Hrem) as (g & -> & Hg' & _).
    apply (Hin (FireworkSystem.points g)). apply elem_of_app. right.
    apply list_elem_of_fmap. eauto.
Qed.

(** A [spawn] keeps the objects in use and adds a fresh one. *)
Lemma inUse_firework_spawn (time : R) (rand : nat → R) (owned : list Three.ObjId)
    (fs : FireworkSystem.t) (sc : Three.Scene) :
  inUse (owned ++ fireworkObjects fs) sc →
  inUse (owned ++ fireworkObjects (FireworkSystem.spawn time rand (fs, sc)).1)
    (FireworkSystem.spawn time rand (fs, sc)).2.
Proof.
  intros (Hnd & Hin & Hdisp).
  destruct (spawn_spec time rand fs sc) as (fw & -> & Hp & _).
  unfold fireworkObjects in *. cbn [fst snd FireworkSystem.fireworks].
  rewrite fmap_app. cbn [fmap list_fmap]. rewrite Hp, app_assoc.
  assert (Hnew : Three.nextId sc ∉ owned ++ (FireworkSystem.points <$>
                                               FireworkSystem.fireworks fs)).
  { intros Ho. destruct (Hin _ Ho) as (_ & _ & _ & Hlt). lia. }
  split; [|split].
  - apply NoDup_app. split; [exact Hnd|]. split; [|apply NoDup_singleton].
    intros o Ho Ho'. apply list_elem_of_singleton in Ho'. subst o. exact (Hnew Ho).
  - intros o [Ho | Ho]%elem_of_app;
      cbn [Three.children Three.disposedGeometries Three.disposedMaterials Three.nextId].
    + destruct (Hin o Ho) as (H1 & H2 & H3 & H4).
      repeat split; [set_solver | exact H2 | exact H3 | lia].
    + apply list_elem_of_singleton in Ho. subst o.
      repeat split; [set_solver | | | lia].
      * intros Hd. specialize (Hdisp _ (or_introl Hd)). lia.
      * intros Hd. specialize (Hdisp _ (or_intror Hd)). lia.
  - intros o Ho.
    cbn [Three.children Three.disposedGeometries Three.disposedMaterials Three.nextId]
      in *.
    specialize (Hdisp o Ho). lia.
Qed.

Lemma step_inUse (e : Event) (s : t) :
  inUse (ownedObjects s) (scene s) →
  ∃ s', step e s = Some s' ∧ inUse (ownedObjects s') (scene s').
Proof.
  intros Hinv. unfold ownedObjects in *.
  destruct e as [p ph time | f | time rand | |]; cbn [step].
  - eexists. split; [reflexivity|].
    unfold updateProgress, triggerClimax, triggerCelebration. cbv zeta.
    repeat (case_match; cbn [burstSystem fireworkSystem scene phase]);
      rewrite ?burst_trigger_objects; exact Hinv.
  - destruct (isDisposed s) eqn:Hd.
    + rewrite animate_disposed by exact Hd. eauto.
    + destruct (animate_unfold f s Hd) as (dI & sp & hb & sh & _ & _ & _ & _ & ->).
      eexists. split; [reflexivity|]. cbv zeta.
      cbn [burstSystem fireworkSystem scene]. rewrite burst_update_objects.
      pose proof (inUse_firework_update (elapsedTime f) (Math_min (delta f) 0.1)
                    _ _ _ Hinv) as Hup.
      unfold celebrationSpawn. cbv zeta.
      destruct (bool_decide (phase s = celebration)); [|exact Hup].
      case_decide; [|exact Hup].
      cbn [fst snd].
      destruct (FireworkSystem.update (elapsedTime f) (Math_min (delta f) 0.1)
                  (fireworkSystem s, scene s)) as [fs1 sc1].
      cbn [fst snd] in Hup. apply inUse_firework_spawn. exact Hup.
  - eexists. split; [reflexivity|]. unfold deferredSpawn.
    destruct (isDisposed s); [exact Hinv|].
    pose proof (inUse_firework_spawn time rand _ _ _ Hinv) as Hsp.
    destruct (FireworkSystem.spawn time rand (fireworkSystem s, scene s)) as [fs1 sc1].
    cbn [burstSystem fireworkSystem scene fst snd] in *. exact Hsp.
  - eexists. split; [reflexivity|]. unfold handleResize.
    destruct (isDisposed s); exact Hinv.
  - eexists. split; [reflexivity|]. unfold dispose.
    unfold BurstSystem.dispose, FireworkSystem.dispose.
    cbn [burstSystem fireworkSystem scene burstObjects fireworkObjects
         BurstSystem.layers FireworkSystem.fireworks fmap list_fmap app].
    destruct Hinv as (_ & Hin & Hdisp).
    destruct (disposeLayers_spec (BurstSystem.layers (burstSystem s)) (scene s))
      as (_ & Hg1 & Hm1 & Hn1).
    destruct (disposeFireworks_spec
                (FireworkSystem.fireworks (fireworkSystem s))
                (foldl BurstSystem.disposeLayer (scene s)
                   (BurstSystem.layers (burstSystem s))))
      as (_ & Hg2 & Hm2 & Hn2).
    split; [apply NoDup_nil_2|]. split; [intros o Ho; inversion Ho|].
    intros o Ho.
    cbn [Three.clear Three.nextId Three.disposedGeometries Three.disposedMaterials]
      in *.
    rewrite Hn2, Hn1. rewrite Hg2, Hm2, Hg1, Hm1 in Ho.
    assert (Hcase : o ∈ burstObjects (burstSystem s)
                        ++ fireworkObjects (fireworkSystem s) ∨
                    o ∈ Three.disposedGeometries (scene s) ∨
                    o ∈ Three.disposedMaterials (scene s)).
    { unfold burstObjects, fireworkObjects. rewrite elem_of_app.
      rewrite <- !(elem_of_list_to_set (C := gset Three.ObjId)). set_solver. }
    destruct Hcase as [Hown | Hold]; [apply (Hin o Hown) | exact (Hdisp o Hold)].
Qed.

Lemma run_inUse (es : list Event) :
  ∀ s, inUse (ownedObjects s) (scene s) →
  ∃ s', run es s = Some s' ∧ inUse (ownedObjects s') (scene s').
Proof.
  induction es as [|e es IH]; intros s Hinv; cbn [run].
  - eauto.
  - destruct (step_inUse e s Hinv) as (s1 & -> & Hinv1).
    cbn [mbind option_bind]. apply IH. exact Hinv1.
Qed.

Lemma new_objects (rand : nat → R) (sc : Three.Scene) :
  burstObjects (BurstSystem.new rand sc).1 = seq (Three.nextId sc) 5 ∧
  Three.disposedGeometries (BurstSystem.new rand sc).2 = Three.disposedGeometries sc ∧
  Three.disposedMaterials (BurstSystem.new rand sc).2 = Three.disposedMaterials sc.
Proof.
  unfold burstObjects, BurstSystem.new.
  pose proof (createLayersFrom_objects BurstSystem.layerConfigs 0 rand 0 [] sc)
    as Hobj.
  cbv zeta in Hobj.
  destruct (BurstSystem.createLayersFrom _ _ _ _ _) as [ls sc1].
  cbn [fst snd BurstSystem.layers] in *.
  destruct Hobj as (Hpts & Hg & Hm).
  split; [exact Hpts|]. split; [exact Hg | exact Hm].
Qed.

Lemma initial_inUse (rand : nat → R) :
  inUse (ownedObjects (initial rand)) (scene (initial rand)).
Proof.
  unfold initial, ownedObjects.
  destruct (new_spec rand Three.empty) as (_ & Hnext & Hchildren & _).
  destruct (new_objects rand Three.empty) as (Hpts & Hg & Hm).
  destruct (BurstSystem.new rand Three.empty) as [burst sc].
  cbn [fst snd burstSystem fireworkSystem scene] in *.
  unfold fireworkObjects. cbn [FireworkSystem.new FireworkSystem.fireworks fmap list_fmap].
  cbn [Three.empty Three.nextId Three.children Three.disposedGeometries
       Three.disposedMaterials] in *.
  rewrite Hpts, app_nil_r.
  split; [apply NoDup_seq|]. split.
  - intros o Ho. rewrite Hchildren, Hg, Hm, Hnext.
    apply elem_of_seq in Ho.
    repeat split; [|set_solver|set_solver|lia].
    apply elem_of_union_l, elem_of_list_to_set, elem_of_seq. lia.
  - intros o Ho. rewrite Hg, Hm in Ho. set_solver.
Qed.

(** X29: no object in use is ever detached or disposed.  Whatever the
    host runs on a scene from its construction on (progress updates,
    frames, deferred spawns, resizes, dispose), the run has a result, and
    in it the objects of the burst layers and of the active fireworks are
    pairwise distinct, attached to the scene, and neither their geometry
    nor their material has been disposed. *)
Theorem owned_objects_stay_live (rand : nat → R) (es : list Event) :
  ∃ s, run es (initial rand) = Some s ∧
       NoDup (ownedObjects s) ∧
       ∀ o, o ∈ ownedObjects s →
         o ∈ Three.children (scene s) ∧
         (o ∉ Three.disposedGeometries (scene s)) ∧
         (o ∉ Three.disposedMaterials (scene s)).
Proof.
  destruct (run_inUse es (initial rand) (initial_inUse rand))
    as (s & Hrun & Hnd & Hin & _).
  exists s. split; [exact Hrun|]. split; [exact Hnd|].
  intros o Ho. destruct (Hin o Ho) as (H1 & H2 & H3 & _). auto.
Qed.

(** X30: [dispose()] releases everything the scene owns.  Afterwards the
    scene is flagged as disposed and has no children, both particle systems
    are empty, and the geometry and the material of every object that a
    burst layer or an active firework owned have been disposed; the canvas
    is removed from the document if it was in it.  The method has no guard
    of its own: a second call leaves the scene and the systems as they are
    and repeats the cancellation, the removal of the listener and the
    [dispose] calls to the collaborators, but not the removal of the
    canvas, which is no longer in the document. *)
Theorem dispose_releases_everything (s : t) :
  let cancel :=
    match animationFrameId s with
    | Some id => [CancelAnimationFrame id]
    | None => []
    end in
  let released :=
    [RemoveResizeListener; Dispose StarField; Dispose TimeParticles;
     Dispose Shockwaves; Dispose FlashPlane; Dispose Renderer] in
  isDisposed (dispose s) = true ∧
  canvasAttached (dispose s) = false ∧
  Three.children (scene (dispose s)) = ∅ ∧
  ownedObjects (dispose s) = [] ∧
  (∀ o, o ∈ ownedObjects s →
     o ∈ Three.disposedGeometries (scene (dispose s)) ∧
     o ∈ Three.disposedMaterials (scene (dispose s))) ∧
  calls (dispose s)
    = calls s ++ cancel ++ released ++
        (if canvasAttached s then [Dispose Canvas] else []) ∧
  scene (dispose (dispose s)) = scene (dispose s) ∧
  burstSystem (dispose (dispose s)) = burstSystem (dispose s) ∧
  fireworkSystem (dispose (dispose s)) = fireworkSystem (dispose s) ∧
  calls (dispose (dispose s)) = calls (dispose s) ++ cancel ++ released.
Proof.
  cbv zeta.
  unfold dispose, ownedObjects, burstObjects, fireworkObjects.
  unfold BurstSystem.dispose, FireworkSystem.dispose.
  cbn [isDisposed canvasAttached scene burstSystem fireworkSystem calls
       animationFrameId
       BurstSystem.layers FireworkSystem.fireworks fmap list_fmap app foldl
       Three.clear Three.children Three.disposedGeometries Three.disposedMaterials
       Three.nextId].
  destruct (disposeLayers_spec (BurstSystem.layers (burstSystem s)) (scene s))
    as (_ & Hg1 & Hm1 & _).
  destruct (disposeFireworks_spec
              (FireworkSystem.fireworks (fireworkSystem s))
              (foldl BurstSystem.disposeLayer (scene s)
                 (BurstSystem.layers (burstSystem s))))
    as (_ & Hg2 & Hm2 & _).
  split; [reflexivity|]. split; [reflexivity|]. split; [reflexivity|].
  split; [reflexivity|].
  split.
  { intros o Ho. rewrite Hg2, Hm2, Hg1, Hm1.
    rewrite elem_of_app in Ho.
    rewrite <- !(elem_of_list_to_set (C := gset Three.ObjId)) in Ho. set_solver. }
  split; [reflexivity|].
  split; [reflexivity|]. split; [reflexivity|]. split; [reflexivity|].
  rewrite ?app_nil_r. reflexivity.
Qed.

End OrchestratorFurther.
